(** * The dependency-graph builder of conans/client/graph/graph_builder.py

    A shallow embedding of [DepsGraphBuilder]: package references and the
    conflict detector are pure functions; nodes and requirements are
    mutable Python objects, so they live in a store and are named by
    their address; every method of the builder is a computation in a
    state-and-exception monad over that store.  The collaborators the
    builder is constructed with (proxy, loader, range resolver, the hooks
    of the loaded recipes, the graph lock) are parameters. *)

From Stdlib Require Import List String Bool Arith PeanoNat Lia Permutation.
Import ListNotations.
Local Open Scope string_scope.

Set Implicit Arguments.

(** ** Python's [==] on the values the builder compares *)

Class PyEq (A : Type) := {
  py_eq : A -> A -> bool;
  py_eq_spec : forall x y, reflect (x = y) (py_eq x y)
}.

Arguments py_eq {A _} x y.
Arguments py_eq_spec {A _} x y.

Definition py_ne {A} `{PyEq A} (x y : A) : bool := negb (py_eq x y).

Lemma py_eq_true {A} `{PyEq A} (x y : A) : py_eq x y = true <-> x = y.
Proof. destruct (py_eq_spec x y); split; congruence. Qed.

Lemma py_eq_false {A} `{PyEq A} (x y : A) : py_eq x y = false <-> x <> y.
Proof. destruct (py_eq_spec x y); split; congruence. Qed.

Lemma py_eq_refl {A} `{PyEq A} (x : A) : py_eq x x = true.
Proof. now apply py_eq_true. Qed.

Lemma py_ne_true {A} `{PyEq A} (x y : A) : py_ne x y = true <-> x <> y.
Proof. unfold py_ne. rewrite negb_true_iff. apply py_eq_false. Qed.

#[export] Instance PyEq_string : PyEq string :=
  {| py_eq := String.eqb; py_eq_spec := String.eqb_spec |}.

#[export] Instance PyEq_nat : PyEq nat :=
  {| py_eq := Nat.eqb; py_eq_spec := Nat.eqb_spec |}.

#[export] Instance PyEq_bool : PyEq bool :=
  {| py_eq := Bool.eqb; py_eq_spec := Bool.eqb_spec |}.

Definition option_eqb {A} `{PyEq A} (x y : option A) : bool :=
  match x, y with
  | Some a, Some b => py_eq a b
  | None, None => true
  | _, _ => false
  end.

Lemma option_eqb_spec {A} `{PyEq A} (x y : option A) :
  reflect (x = y) (option_eqb x y).
Proof.
  destruct x as [a|], y as [b|]; simpl; try (constructor; congruence).
  destruct (py_eq_spec a b); constructor; congruence.
Qed.

#[export] Instance PyEq_option {A} `{PyEq A} : PyEq (option A) :=
  {| py_eq := option_eqb; py_eq_spec := option_eqb_spec |}.

(** A package name as the closures key it: [Node.name] is the name of the
    node's reference, and [None] for a node without one (the root of a
    consumer). *)
Definition Name := option string.

(** ** conans.model.ref.ConanFileReference

    Modelled from the spec: conans/model/ref.py is not among the sources.
    §3 Package Reference: "identity: name, version, optional user/channel
    qualifiers, optional revision".  It is a named tuple of these five
    fields, so [==] compares the five. *)

Record ConanFileReference := mkRef {
  name : string;
  version : string;
  user : option string;
  channel : option string;
  revision : option string
}.

Definition ref_eqb (a b : ConanFileReference) : bool :=
  py_eq (name a) (name b) && py_eq (version a) (version b) &&
  py_eq (user a) (user b) && py_eq (channel a) (channel b) &&
  py_eq (revision a) (revision b).

Lemma ref_eqb_spec (a b : ConanFileReference) : reflect (a = b) (ref_eqb a b).
Proof.
  unfold ref_eqb. destruct a as [n v u c r], b as [n' v' u' c' r']; simpl.
  destruct (String.eqb_spec n n'); simpl; [|constructor; congruence].
  destruct (String.eqb_spec v v'); simpl; [|constructor; congruence].
  destruct (option_eqb_spec u u'); simpl; [|constructor; congruence].
  destruct (option_eqb_spec c c'); simpl; [|constructor; congruence].
  destruct (option_eqb_spec r r'); simpl; constructor; congruence.
Qed.

#[export] Instance PyEq_ref : PyEq ConanFileReference :=
  {| py_eq := ref_eqb; py_eq_spec := ref_eqb_spec |}.

Definition copy_clear_rev (r : ConanFileReference) : ConanFileReference :=
  mkRef (name r) (version r) (user r) (channel r) None.

(** Truth value of an optional string in a Python condition: [None] and
    the empty string are false. *)
Definition truthy (o : option string) : bool :=
  match o with
  | Some s => negb (s =? "")
  | None => false
  end.

(** ** conans.model.requires.Requirement

    Modelled from the spec: conans/model/requires.py is not among the
    sources.  §3 Requirement: "target reference (mutable ...), and boolean
    flags private, buildRequire, override; an optional lockedId";
    [range_ref] is the reference as declared, which the range resolver
    reads. *)

Module Requirement.
Record t := mk {
  ref : ConanFileReference;
  range_ref : ConanFileReference;
  private : bool;
  build_require : bool;
  override : bool;
  locked_id : option nat
}.

(** [Requirement(ref)] *)
Definition init (r : ConanFileReference) : t := mk r r false false false None.

Definition set_ref (r : ConanFileReference) (q : t) : t :=
  mk r (range_ref q) (private q) (build_require q) (override q) (locked_id q).

Definition set_build_require (b : bool) (q : t) : t :=
  mk (ref q) (range_ref q) (private q) b (override q) (locked_id q).
End Requirement.

(** ** What the builder raises and what the conflict detector returns *)

(** [_conflicting_references] returns [False], [True] or, when it is told
    the consumer, the text of the conflict; the text is kept as the three
    references it is formatted from. *)
Inductive Conflict :=
| ConflictFalse
| ConflictTrue
| ConflictMessage (consumer_ref new_ref previous_ref : ConanFileReference).

(** [if conflict:] *)
Definition conflict_truthy (c : Conflict) : bool :=
  match c with
  | ConflictFalse => false
  | _ => true
  end.

Inductive Exception :=
(** "Loop detected: '%s' requires '%s' which is an ancestor too" *)
| LoopDetected (node_ref : option ConanFileReference) (require_ref : ConanFileReference)
(** [raise ConanException(conflict)] *)
| ReferenceConflict (conflict : Conflict)
(** "Conflict in %s\n    Different revisions of %s has been requested" *)
| RevisionConflict (consumer_ref new_ref : ConanFileReference)
(** "%s: Incompatible requirements obtained in different evaluations of
    'requirements'" with the previous and the new requirements *)
| RequirementsNondeterminism (scope : string) (previous new : list Requirement.t)
(** the proxy or the loader failed for the reference *)
| RecipeResolutionFailure (requirement_ref : ConanFileReference)
(** ConanExceptionInUserConanfileMethod out of a hook *)
| UserHookFailure (conanfile : string) (hook : string)
(** "%s: %s" % (ref or "Conanfile", str(e)) and ConanException(e) *)
| ConfigFailure (ref : option ConanFileReference) (message : string)
(** the range resolver failed *)
| RangeResolutionFailure (require_ref : ConanFileReference)
(** the lock does not know the requirement *)
| LockFailure (require_ref : ConanFileReference)
(** [raise ConanException(e)] for any other exception *)
| UnexpectedFailure (message : string)
(** an attribute read on [None], or an object that is not there *)
| AttributeError (what : string).

(** ** The conflict detector *)

Definition _conflicting_references
    (previous_ref new_ref : ConanFileReference)
    (consumer_ref : option ConanFileReference) : Exception + Conflict :=
  if py_ne (copy_clear_rev previous_ref) (copy_clear_rev new_ref) then
    match consumer_ref with
    | Some c => inr (ConflictMessage c new_ref previous_ref)
    | None => inr ConflictTrue
    end
  else if truthy (revision previous_ref) && truthy (revision new_ref) &&
          py_ne (revision previous_ref) (revision new_ref) then
    match consumer_ref with
    | Some c => inl (RevisionConflict c new_ref)
    | None => inr ConflictTrue
    end
  else inr ConflictFalse.

(** ** Python containers

    A [dict] (and an [OrderedDict]) is the list of its items in insertion
    order, each key once; a [set] is the list of its elements, each once.
    The builder iterates over sets only to apply updates that commute, so
    the order a set is listed in is not observable. *)

Section Containers.
Context {K V : Type} `{PyEq K}.

Definition dict := list (K * V).

(** [d.get(k)] *)
Fixpoint dict_get (d : dict) (k : K) : option V :=
  match d with
  | [] => None
  | (k', v) :: d' => if py_eq k' k then Some v else dict_get d' k
  end.

(** [d[k] = v]: an existing key keeps its place *)
Fixpoint dict_set (d : dict) (k : K) (v : V) : dict :=
  match d with
  | [] => [(k, v)]
  | (k', v') :: d' =>
      if py_eq k' k then (k', v) :: d' else (k', v') :: dict_set d' k v
  end.

(** [d.update(other)] *)
Definition dict_update (d other : dict) : dict :=
  fold_left (fun acc kv => dict_set acc (fst kv) (snd kv)) other d.

(** [OrderedDict(items)] *)
Definition dict_of_items (items : list (K * V)) : dict := dict_update [] items.

(** [d.pop(k, None)] *)
Definition dict_pop (d : dict) (k : K) : dict :=
  filter (fun kv => negb (py_eq (fst kv) k)) d.

Definition dict_keys (d : dict) : list K := map fst d.
Definition dict_values (d : dict) : list V := map snd d.

(** [k in s] *)
Definition set_mem (k : K) (s : list K) : bool := existsb (py_eq k) s.

(** [s.add(k)] *)
Definition set_add (k : K) (s : list K) : list K :=
  if set_mem k s then s else s ++ [k].

(** [s.update(other)], [s.union(other)] *)
Definition set_update (s other : list K) : list K :=
  fold_left (fun acc k => set_add k acc) other s.

End Containers.

Arguments dict K V : clear implicits.

(** [list.sort(key=...)] with a boolean key: a stable insertion sort,
    [False] before [True]. *)
Section Sort.
Context {A : Type} (key : A -> bool).

(** [x] goes before [y] unless its key is larger *)
Definition key_le (x y : A) : bool := implb (key x) (key y).

(** insert [x] after the elements already placed whose key is not larger *)
Fixpoint insert_last (x : A) (sorted : list A) : list A :=
  match sorted with
  | [] => [x]
  | y :: rest => if key_le y x then y :: insert_last x rest else x :: y :: rest
  end.

Definition sort_by_key (l : list A) : list A :=
  fold_left (fun sorted x => insert_last x sorted) l [].

End Sort.

(** ** The objects of the graph *)

(** Option values of one package, and the values a package sets for the
    packages it depends on. *)
Definition OptionValues := dict string string.
Definition DepsOptions := dict string OptionValues.

(** Modelled from the spec: conans.model.options is not among the sources.
    The manifest handle "exposes ... an option set with upstream-propagation
    and validation operations" (§6); [values] are the values configured on
    the package itself, [deps_package_values] what it propagates to its
    dependencies. *)
Module Options.
Record t := mk {
  values : OptionValues;
  deps_package_values : DepsOptions
}.

(** [getattr(options, option)]: an option the package does not have is an
    error *)
Definition getattr (o : t) (option : string) : Exception + string :=
  match dict_get (values o) option with
  | Some v => inr v
  | None => inl (AttributeError option)
  end.
End Options.

(** Modelled from the spec: the option values a node hands to its build
    requirements (§4.5), an object of conans.model.options; the builder
    clears the values without a package scope and reads [_reqs_options]. *)
Module OptionsValues.
Record t := mk {
  _package_values : OptionValues;
  _reqs_options : DepsOptions
}.

Definition clear_unscoped_options (o : t) : t := mk [] (_reqs_options o).
End OptionsValues.

(** [Requirements] (conans/model/requires.py): an OrderedDict from package
    name to Requirement object.  Copies are shallow, so two of them share
    their objects. *)
Definition Requirements := dict string nat.

(** Modelled from the spec: the conanfile object the loader returns, the
    "opaque handle to its loaded manifest/hook-object" of §3, which
    "exposes a mutable requirement set, option set, and callable lifecycle
    hooks"; the two [_conan_..._requires] attributes are the ones the
    builder sets on it. *)
Module ConanFile.
Record t := mk {
  display_name : string;
  alias : option ConanFileReference;
  requires : Requirements;
  options : Options.t;
  build_requires_options : OptionsValues.t;
  in_local_cache : bool;
  develop : bool;
  _conan_original_requires : option Requirements;
  _conan_evaluated_requires : option Requirements
}.

Definition set_requires (r : Requirements) (c : t) : t :=
  mk (display_name c) (alias c) r (options c) (build_requires_options c)
     (in_local_cache c) (develop c)
     (_conan_original_requires c) (_conan_evaluated_requires c).

Definition set_options (o : Options.t) (c : t) : t :=
  mk (display_name c) (alias c) (requires c) o (build_requires_options c)
     (in_local_cache c) (develop c)
     (_conan_original_requires c) (_conan_evaluated_requires c).

Definition set_build_requires_options (o : OptionsValues.t) (c : t) : t :=
  mk (display_name c) (alias c) (requires c) (options c) o
     (in_local_cache c) (develop c)
     (_conan_original_requires c) (_conan_evaluated_requires c).

Definition set_editable (c : t) : t :=
  mk (display_name c) (alias c) (requires c) (options c) (build_requires_options c)
     false true
     (_conan_original_requires c) (_conan_evaluated_requires c).

Definition set_original_requires (r : Requirements) (c : t) : t :=
  mk (display_name c) (alias c) (requires c) (options c) (build_requires_options c)
     (in_local_cache c) (develop c)
     (Some r) (_conan_evaluated_requires c).

Definition set_evaluated_requires (r : Requirements) (c : t) : t :=
  mk (display_name c) (alias c) (requires c) (options c) (build_requires_options c)
     (in_local_cache c) (develop c)
     (_conan_original_requires c) (Some r).
End ConanFile.

(** The recipe status the proxy returns; the builder tells
    [RECIPE_EDITABLE] apart. *)
Inductive RecipeStatus := RECIPE_EDITABLE | RECIPE_OTHER (status : string).

(** Modelled from the spec: conans.client.graph.graph.Node is not among the
    sources.  §3 Node, with the attributes the builder reads and writes:
    the reference ("absent for the synthetic root"), the conanfile, the
    ids, and the per-node visibility state [ancestors], [public_deps],
    [public_closure], [transitive_closure], [inverse_closure].  Closures
    map a package name to the address of a node. *)
Module Node.
Record t := mk {
  ref : option ConanFileReference;
  conanfile : ConanFile.t;
  package_id : option string;
  id : option nat;
  recipe : option RecipeStatus;
  remote : option string;
  revision_pinned : bool;
  public_deps : dict Name nat;
  public_closure : dict Name nat;
  transitive_closure : dict Name nat;
  inverse_closure : list nat;
  ancestors : list Name
}.

(** [Node(ref, conanfile)] *)
Definition init (r : option ConanFileReference) (c : ConanFile.t) : t :=
  mk r c None None None None false [] [] [] [] [].

(** the [name] property: the name of the reference, [None] without one *)
Definition name (n : t) : Name := option_map name (ref n).

Definition set_conanfile (c : ConanFile.t) (n : t) : t :=
  mk (ref n) c (package_id n) (id n) (recipe n) (remote n) (revision_pinned n)
     (public_deps n) (public_closure n) (transitive_closure n)
     (inverse_closure n) (ancestors n).

Definition set_id (i : nat) (n : t) : t :=
  mk (ref n) (conanfile n) (package_id n) (Some i) (recipe n) (remote n)
     (revision_pinned n) (public_deps n) (public_closure n)
     (transitive_closure n) (inverse_closure n) (ancestors n).

Definition set_origin (pinned : bool) (status : RecipeStatus)
    (rem : option string) (n : t) : t :=
  mk (ref n) (conanfile n) (package_id n) (id n) (Some status) rem pinned
     (public_deps n) (public_closure n) (transitive_closure n)
     (inverse_closure n) (ancestors n).

Definition set_public_deps (d : dict Name nat) (n : t) : t :=
  mk (ref n) (conanfile n) (package_id n) (id n) (recipe n) (remote n)
     (revision_pinned n) d (public_closure n) (transitive_closure n)
     (inverse_closure n) (ancestors n).

Definition set_public_closure (d : dict Name nat) (n : t) : t :=
  mk (ref n) (conanfile n) (package_id n) (id n) (recipe n) (remote n)
     (revision_pinned n) (public_deps n) d (transitive_closure n)
     (inverse_closure n) (ancestors n).

Definition set_transitive_closure (d : dict Name nat) (n : t) : t :=
  mk (ref n) (conanfile n) (package_id n) (id n) (recipe n) (remote n)
     (revision_pinned n) (public_deps n) (public_closure n) d
     (inverse_closure n) (ancestors n).

Definition set_inverse_closure (s : list nat) (n : t) : t :=
  mk (ref n) (conanfile n) (package_id n) (id n) (recipe n) (remote n)
     (revision_pinned n) (public_deps n) (public_closure n)
     (transitive_closure n) s (ancestors n).

Definition set_ancestors (s : list Name) (n : t) : t :=
  mk (ref n) (conanfile n) (package_id n) (id n) (recipe n) (remote n)
     (revision_pinned n) (public_deps n) (public_closure n)
     (transitive_closure n) (inverse_closure n) s.
End Node.

(** Modelled from the spec: conans.client.graph.graph.DepsGraph is not among
    the sources.  §3 Graph: "the set of all nodes, a multi-edge relation
    (parent node, child node, requirement) ..., an aliased mapping from
    version-agnostic reference to its resolved target ..., and a
    monotonically increasing id counter (or an externally supplied starting
    counter, for lock-continuation)".  [_node_counter] is the next id to
    hand out. *)
Module DepsGraph.
Record t := mk {
  nodes : list nat;
  edges : list (nat * nat * nat);
  aliased : dict ConanFileReference ConanFileReference;
  _node_counter : nat
}.

Definition init (initial_node_id : option nat) : t :=
  mk [] [] []
     match initial_node_id with
     | Some i => S i
     | None => 0
     end.

Definition set_aliased (a : dict ConanFileReference ConanFileReference) (g : t) : t :=
  mk (nodes g) (edges g) a (_node_counter g).
End DepsGraph.

(** The heap: node objects and requirement objects by address, the graph
    under construction, and the requests sent to the proxy so far. *)
Record State := mkState {
  node_objects : list Node.t;
  requirement_objects : list Requirement.t;
  dep_graph : DepsGraph.t;
  recipe_requests : list ConanFileReference
}.

Definition set_node_objects (l : list Node.t) (s : State) : State :=
  mkState l (requirement_objects s) (dep_graph s) (recipe_requests s).

Definition set_requirement_objects (l : list Requirement.t) (s : State) : State :=
  mkState (node_objects s) l (dep_graph s) (recipe_requests s).

Definition set_dep_graph (g : DepsGraph.t) (s : State) : State :=
  mkState (node_objects s) (requirement_objects s) g (recipe_requests s).

Definition log_recipe_request (r : ConanFileReference) (s : State) : State :=
  mkState (node_objects s) (requirement_objects s) (dep_graph s)
          (recipe_requests s ++ [r]).

(** ** Computations: state, exceptions, and fuel for the recursion *)

Inductive Outcome (A : Type) :=
| Ok (a : A) (s : State)
| Raise (e : Exception) (s : State)
| OutOfFuel.

Arguments Ok {A} a s.
Arguments Raise {A} e s.
Arguments OutOfFuel {A}.

Definition M (A : Type) := State -> Outcome A.

Definition ret {A} (a : A) : M A := fun s => Ok a s.

Definition bind {A B} (c : M A) (k : A -> M B) : M B :=
  fun s =>
    match c s with
    | Ok a s' => k a s'
    | Raise e s' => Raise e s'
    | OutOfFuel => OutOfFuel
    end.

Definition raise {A} (e : Exception) : M A := fun s => Raise e s.

Definition out_of_fuel {A} : M A := fun _ => OutOfFuel.

Definition get_state : M State := fun s => Ok s s.

Definition modify (f : State -> State) : M unit := fun s => Ok tt (f s).

Declare Scope monad_scope.
Delimit Scope monad_scope with M.
Notation "x <- c ;; k" := (bind c (fun x => k))
  (at level 61, c at next level, right associativity) : monad_scope.
Notation "c ;; k" := (bind c (fun _ => k))
  (at level 61, right associativity) : monad_scope.
Notation "' pat <- c ;; k" := (bind c (fun x => match x with pat => k end))
  (at level 61, pat pattern, c at next level, right associativity) : monad_scope.
Local Open Scope monad_scope.

(** a pure result or a raise *)
Definition lift {A} (r : Exception + A) : M A :=
  match r with
  | inl e => raise e
  | inr a => ret a
  end.

(** [for x in l: body(x)] over the items [l] held when the loop starts *)
Fixpoint for_each {A} (l : list A) (body : A -> M unit) : M unit :=
  match l with
  | [] => ret tt
  | x :: l' => body x ;; for_each l' body
  end.

(** a loop that returns [True] at the first item whose test holds *)
Fixpoint any_of {A} (l : list A) (test : A -> M bool) : M bool :=
  match l with
  | [] => ret false
  | x :: l' => b <- test x ;; if b then ret true else any_of l' test
  end.

Definition when (b : bool) (c : M unit) : M unit := if b then c else ret tt.

(** *** The store *)

Fixpoint list_set {A} (l : list A) (i : nat) (x : A) : list A :=
  match l, i with
  | [], _ => []
  | _ :: l', 0 => x :: l'
  | y :: l', S i' => y :: list_set l' i' x
  end.

Definition node_at (a : nat) : M Node.t :=
  fun s =>
    match nth_error (node_objects s) a with
    | Some n => Ok n s
    | None => Raise (AttributeError "node") s
    end.

Definition update_node (a : nat) (f : Node.t -> Node.t) : M unit :=
  n <- node_at a ;;
  modify (fun s => set_node_objects (list_set (node_objects s) a (f n)) s).

Definition new_node_object (n : Node.t) : M nat :=
  fun s => Ok (List.length (node_objects s)) (set_node_objects (node_objects s ++ [n]) s).

Definition requirement_at (a : nat) : M Requirement.t :=
  fun s =>
    match nth_error (requirement_objects s) a with
    | Some r => Ok r s
    | None => Raise (AttributeError "requirement") s
    end.

Definition update_requirement (a : nat) (f : Requirement.t -> Requirement.t) : M unit :=
  r <- requirement_at a ;;
  modify (fun s => set_requirement_objects (list_set (requirement_objects s) a (f r)) s).

Definition new_requirement_object (r : Requirement.t) : M nat :=
  fun s => Ok (List.length (requirement_objects s))
              (set_requirement_objects (requirement_objects s ++ [r]) s).

Definition graph : M DepsGraph.t := fun s => Ok (dep_graph s) s.

Definition update_graph (f : DepsGraph.t -> DepsGraph.t) : M unit :=
  modify (fun s => set_dep_graph (f (dep_graph s)) s).

(** [x.ref] where [x.ref] may be [None] and an attribute of it is read next *)
Definition ref_of (n : Node.t) : M ConanFileReference :=
  match Node.ref n with
  | Some r => ret r
  | None => raise (AttributeError "ref")
  end.

(** ** The parts of graph.py and requires.py the builder calls *)

(** Modelled from the spec: Node.connect_closure is in
    conans/client/graph/graph.py, which is not among the sources.  §4.3
    "Connect N's closure to the new node (adds it to N's reachable set)";
    §3 publicDeps is "the set of package names visible for
    conflict-checking from this node; used to detect diamonds", and
    inverseClosure "the set of nodes that already depend on this node":
    connecting N to a node records that node under its name in N's
    publicClosure and publicDeps (a diamond between siblings, Scenarios A
    and C, is found through N's publicDeps), and N among the node's
    dependents. *)
Definition connect_closure (self other_node : nat) : M unit :=
  o <- node_at other_node ;;
  update_node self (fun n =>
    Node.set_public_closure (dict_set (Node.public_closure n) (Node.name o) other_node) n) ;;
  update_node self (fun n =>
    Node.set_public_deps (dict_set (Node.public_deps n) (Node.name o) other_node) n) ;;
  update_node other_node (fun n =>
    Node.set_inverse_closure (set_add self (Node.inverse_closure n)) n).

(** Modelled from the spec: DepsGraph.add_node, see [DepsGraph]: a node
    without an id gets the next one of the counter. *)
Definition add_node (node : nat) : M unit :=
  n <- node_at node ;;
  g <- graph ;;
  match Node.id n with
  | Some _ => ret tt
  | None =>
      update_node node (Node.set_id (DepsGraph._node_counter g)) ;;
      update_graph (fun g =>
        DepsGraph.mk (DepsGraph.nodes g) (DepsGraph.edges g) (DepsGraph.aliased g)
                     (S (DepsGraph._node_counter g)))
  end ;;
  update_graph (fun g =>
    DepsGraph.mk (set_add node (DepsGraph.nodes g)) (DepsGraph.edges g)
                 (DepsGraph.aliased g) (DepsGraph._node_counter g)).

(** Modelled from the spec: DepsGraph.add_edge, one more (parent, child,
    requirement) in the multi-edge relation. *)
Definition add_edge (src dst require : nat) : M unit :=
  update_graph (fun g =>
    DepsGraph.mk (DepsGraph.nodes g) (DepsGraph.edges g ++ [(src, dst, require)])
                 (DepsGraph.aliased g) (DepsGraph._node_counter g)).

(** Modelled from the spec: Requirement.__eq__ is in conans/model/requires.py,
    which is not among the sources.  A requirement is its target reference
    and its flags (§3); two requirements are equal when they agree on the
    reference, on [private] and on [override]. *)
Definition requirement_eqb (a b : Requirement.t) : bool :=
  py_eq (Requirement.override a) (Requirement.override b) &&
  py_eq (Requirement.ref a) (Requirement.ref b) &&
  py_eq (Requirement.private a) (Requirement.private b).

(** the items of a [Requirements], each object read from the store *)
Fixpoint requirement_items (reqs : Requirements) : M (list (string * Requirement.t)) :=
  match reqs with
  | [] => ret []
  | (name, a) :: rest =>
      r <- requirement_at a ;;
      items <- requirement_items rest ;;
      ret ((name, r) :: items)
  end.

(** [==] of two ordered dicts: the same keys in the same order with equal
    values *)
Fixpoint items_eqb (a b : list (string * Requirement.t)) : bool :=
  match a, b with
  | [], [] => true
  | (k, r) :: a', (k', r') :: b' => py_eq k k' && requirement_eqb r r' && items_eqb a' b'
  | _, _ => false
  end.

(** [requires != other] *)
Definition requirements_ne (a b : Requirements) : M bool :=
  xs <- requirement_items a ;;
  ys <- requirement_items b ;;
  ret (negb (items_eqb xs ys)).

(** Modelled from the spec: Requirements.update is in conans/model/requires.py.
    §4.2 "Merge declared requirements with requirements propagated from
    downstream (override semantics: a downstream-propagated requirement for
    the same name supersedes the node's own declared version unless
    downstream provides no opinion)"; a private requirement is "excluded
    from public propagation" (glossary).  The result is what is propagated
    upstream; it shares the requirement objects. *)
Definition requires_update (self down_reqs : Requirements)
    (own_ref : option ConanFileReference) : M Requirements :=
  let start :=
    match own_ref with
    | Some r => dict_pop down_reqs (name r)
    | None => down_reqs
    end in
  let step (new_reqs : Requirements) (item : string * nat) : M Requirements :=
    let '(nm, a) := item in
    req <- requirement_at a ;;
    if Requirement.private req then ret new_reqs
    else
      match dict_get down_reqs nm with
      | Some other =>
          other_req <- requirement_at other ;;
          when (py_ne (Requirement.ref other_req) (Requirement.ref req))
               (update_requirement a (Requirement.set_ref (Requirement.ref other_req)))
      | None => ret tt
      end ;;
      ret (dict_set new_reqs nm a) in
  (fix loop (items : list (string * nat)) (new_reqs : Requirements) : M Requirements :=
     match items with
     | [] => ret new_reqs
     | item :: rest => new_reqs' <- step new_reqs item ;; loop rest new_reqs'
     end) self start.

(** ** The collaborators

    Modelled from the spec: the proxy, the loader, the range resolver and
    the hooks of the recipes are external (§6); each is a function of what
    the builder passes to it that gives what the builder uses of the
    answer, or a failure. *)

(** How a call into a collaborator fails, as [_config_node] tells the
    failures apart. *)
Inductive Failure :=
| InUserMethod
| ConanFailure (message : string)
| OtherFailure (message : string).

(** What the loader reads from a recipe; the builder gets a fresh
    conanfile object with fresh requirement objects for it. *)
Record Manifest := mkManifest {
  manifest_display_name : string;
  manifest_alias : option ConanFileReference;
  manifest_requires : list Requirement.t;
  manifest_options : Options.t;
  manifest_build_requires_options : OptionsValues.t
}.

Record Collaborators := mkCollaborators {
  (** [proxy.get_recipe(ref, ...)]: (path, status, remote, new_ref), or a failure *)
  get_recipe : ConanFileReference ->
               option (string * RecipeStatus * option string * ConanFileReference);
  (** [loader.load_conanfile(path, profile, ref=..., ...)] *)
  load_conanfile : string -> ConanFileReference -> option Manifest;
  (** [resolver.resolve(require, consumer, ...)]: the reference the
      requirement is rewritten to *)
  resolve : Requirement.t -> string -> option ConanFileReference;
  (** [hasattr(conanfile, "config")], [hasattr(conanfile, "requirements")] *)
  has_config : ConanFile.t -> bool;
  has_requirements : ConanFile.t -> bool;
  (** the hooks: what they leave in the options of the conanfile, and the
      requirements that [requirements()] declares *)
  config : ConanFile.t -> Failure + Options.t;
  config_options : ConanFile.t -> Failure + Options.t;
  configure : ConanFile.t -> Failure + Options.t;
  requirements : ConanFile.t -> Failure + list Requirement.t;
  (** [options.propagate_upstream(down_options, down_ref, ref)] *)
  propagate_upstream : Options.t -> option DepsOptions ->
                       option ConanFileReference -> option ConanFileReference ->
                       Failure + Options.t;
  (** [settings.validate()] and [options.validate()] *)
  validate_settings : ConanFile.t -> Failure + unit;
  validate_options : ConanFile.t -> Failure + unit
}.

(** Modelled from the spec: the lock (§6) "records/validates the pinned
    requirement set and id for a node"; [lock_requirement] gives the pinned
    form of one requirement of a node (its id, build-requires or not), or
    nothing when the lock does not know it. *)
Record GraphLock := mkGraphLock {
  initial_counter : nat;
  lock_requirement : option nat -> bool -> Requirement.t -> option Requirement.t
}.

(** [graph_lock.lock_node(node, requires, build_requires=...)] *)
Definition lock_node (graph_lock : GraphLock) (node : nat) (requires : list nat)
    (build_requires : bool) : M unit :=
  n <- node_at node ;;
  for_each requires (fun require =>
    r <- requirement_at require ;;
    match lock_requirement graph_lock (Node.id n) build_requires r with
    | Some locked => update_requirement require (fun _ => locked)
    | None => raise (LockFailure (Requirement.ref r))
    end).

(** ** DepsGraphBuilder

    [self] stands for the builder's collaborators.  The arguments
    [check_updates], [update], [remotes] and [profile_host] are only handed
    on to the proxy, the loader and the resolver, and [graph] is the one
    graph of the state; they are left out of the signatures. *)

Section DepsGraphBuilder.
Variable self : Collaborators.

Definition _resolve_cached_alias (requires : list nat) : M unit :=
  g <- graph ;;
  match DepsGraph.aliased g with
  | [] => ret tt
  | _ :: _ =>
      for_each requires (fun require =>
        r <- requirement_at require ;;
        g <- graph ;;
        match dict_get (DepsGraph.aliased g) (Requirement.ref r) with
        | Some alias => update_requirement require (Requirement.set_ref alias)
        | None => ret tt
        end)
  end.

Definition _resolve_ranges (requires : list nat) (consumer : string) : M unit :=
  for_each requires (fun require =>
    r <- requirement_at require ;;
    match resolve self r consumer with
    | Some new_ref => update_requirement require (Requirement.set_ref new_ref)
    | None => raise (RangeResolutionFailure (Requirement.ref r))
    end) ;;
  _resolve_cached_alias requires.

(** a hook of the conanfile of [node], run inside
    [conanfile_exception_formatter(str(conanfile), hook)] *)
Definition run_hook (node : nat) (hook : string)
    (body : ConanFile.t -> Failure + Options.t) : M unit :=
  n <- node_at node ;;
  match body (Node.conanfile n) with
  | inl _ => raise (UserHookFailure (ConanFile.display_name (Node.conanfile n)) hook)
  | inr opts =>
      update_node node (fun n => Node.set_conanfile (ConanFile.set_options opts (Node.conanfile n)) n)
  end.

(** the three [except] clauses of [_config_node] *)
Definition config_failure {A} (node : nat) (r : Failure + A) : M A :=
  n <- node_at node ;;
  match r with
  | inr a => ret a
  | inl InUserMethod => raise (UserHookFailure (ConanFile.display_name (Node.conanfile n)) "")
  | inl (ConanFailure message) => raise (ConfigFailure (Node.ref n) message)
  | inl (OtherFailure message) => raise (UnexpectedFailure message)
  end.

(** Modelled from the spec: [self.requires(...)] inside the hook adds to
    the "mutable requirement set" of the manifest handle (§6): a new
    requirement object under the name of its reference; declaring a name
    twice with two different requirements fails inside the hook. *)
Definition declare_requirement (node : nat) (declared : Requirement.t) : M unit :=
  n <- node_at node ;;
  let conanfile := Node.conanfile n in
  let nm := name (Requirement.ref declared) in
  clash <- match dict_get (ConanFile.requires conanfile) nm with
           | Some old => o <- requirement_at old ;; ret (negb (requirement_eqb o declared))
           | None => ret false
           end ;;
  if clash then raise (UserHookFailure (ConanFile.display_name conanfile) "requirements")
  else
    a <- new_requirement_object declared ;;
    update_node node (fun n =>
      Node.set_conanfile
        (ConanFile.set_requires (dict_set (ConanFile.requires (Node.conanfile n)) nm a)
                                (Node.conanfile n)) n).

Definition _config_node (node : nat) (down_ref : option ConanFileReference)
    (down_options : option DepsOptions) : M DepsOptions :=
  n <- node_at node ;;
  when (has_config self (Node.conanfile n)) (run_hook node "config" (config self)) ;;
  run_hook node "config_options" (config_options self) ;;
  n <- node_at node ;;
  opts <- config_failure node
            (propagate_upstream self (ConanFile.options (Node.conanfile n))
                                down_options down_ref (Node.ref n)) ;;
  update_node node (fun n => Node.set_conanfile (ConanFile.set_options opts (Node.conanfile n)) n) ;;
  n <- node_at node ;;
  when (has_config self (Node.conanfile n)) (run_hook node "config" (config self)) ;;
  run_hook node "configure" (configure self) ;;
  n <- node_at node ;;
  config_failure node (validate_settings self (Node.conanfile n)) ;;
  config_failure node (validate_options self (Node.conanfile n)) ;;
  when (has_requirements self (Node.conanfile n))
    (let conanfile := Node.conanfile n in
     match ConanFile._conan_original_requires conanfile with
     | None =>
         update_node node (fun n =>
           Node.set_conanfile
             (ConanFile.set_original_requires (ConanFile.requires (Node.conanfile n))
                                              (Node.conanfile n)) n)
     | Some original =>
         update_node node (fun n =>
           Node.set_conanfile (ConanFile.set_requires original (Node.conanfile n)) n)
     end ;;
     n <- node_at node ;;
     match requirements self (Node.conanfile n) with
     | inl _ => raise (UserHookFailure (ConanFile.display_name (Node.conanfile n)) "requirements")
     | inr declared => for_each declared (declare_requirement node)
     end) ;;
  n <- node_at node ;;
  ret (Options.deps_package_values (ConanFile.options (Node.conanfile n))).

(** The end of the unlocked branch of [_get_node_requirements]: the first
    time the requirements are kept (a shallow copy), any other time they
    are compared with what was kept. *)
Definition check_evaluated_requires (node : nat) (scope : string) : M unit :=
  n <- node_at node ;;
  let conanfile := Node.conanfile n in
  match ConanFile._conan_evaluated_requires conanfile with
  | None =>
      update_node node (fun n =>
        Node.set_conanfile
          (ConanFile.set_evaluated_requires (ConanFile.requires (Node.conanfile n))
                                           (Node.conanfile n)) n)
  | Some evaluated =>
      differ <- requirements_ne (ConanFile.requires conanfile) evaluated ;;
      if differ then
        previous <- requirement_items evaluated ;;
        new <- requirement_items (ConanFile.requires conanfile) ;;
        raise (RequirementsNondeterminism scope (map snd previous) (map snd new))
      else ret tt
  end.

Definition _get_node_requirements (node : nat) (down_ref : option ConanFileReference)
    (down_options : option DepsOptions) (down_reqs : option Requirements)
    (graph_lock : option GraphLock) : M (DepsOptions * option Requirements) :=
  (* basic node configuration: calling configure() and requirements() *)
  new_options <- _config_node node down_ref down_options ;;
  (* Alias that are cached should be replaced here *)
  n <- node_at node ;;
  _resolve_cached_alias (dict_values (ConanFile.requires (Node.conanfile n))) ;;
  new_reqs <-
    match graph_lock with
    | Some lock =>
        (* No need to evaluate, they are hardcoded in lockfile *)
        lock_node lock node (dict_values (ConanFile.requires (Node.conanfile n))) false ;;
        ret None
    | None =>
        (* propagation of requirements only necessary if not locked *)
        down <- match down_reqs with
                | Some d => ret d
                | None => raise (AttributeError "down_reqs")
                end ;;
        new_reqs <- requires_update (ConanFile.requires (Node.conanfile n)) down (Node.ref n) ;;
        let scope := ConanFile.display_name (Node.conanfile n) in
        _resolve_ranges (dict_values (ConanFile.requires (Node.conanfile n))) scope ;;
        check_evaluated_requires node scope ;;
        ret (Some new_reqs)
    end ;;
  ret (new_options, new_reqs).

Definition _recurse (closure : dict Name nat) (new_reqs : Requirements)
    (new_options : DepsOptions) : M bool :=
  found <- any_of (dict_values new_reqs) (fun req =>
    r <- requirement_at req ;;
    match dict_get closure (Some (name (Requirement.ref r))) with
    | Some n =>
        nd <- node_at n ;;
        n_ref <- ref_of nd ;;
        conflict <- lift (_conflicting_references n_ref (Requirement.ref r) None) ;;
        ret (conflict_truthy conflict)
    | None => ret false
    end) ;;
  if found then ret true
  else
    any_of new_options (fun item =>
      let '(pkg_name, options_values) := item in
      match dict_get closure (Some pkg_name) with
      | Some n =>
          nd <- node_at n ;;
          let options := ConanFile.options (Node.conanfile nd) in
          any_of options_values (fun ov =>
            let '(option, value) := ov in
            current <- lift (Options.getattr options option) ;;
            ret (py_ne current value))
      | None => ret false
      end).

(** [loader.load_conanfile] gives a new conanfile object: its declared
    requirements become new requirement objects. *)
Definition instantiate (m : Manifest) : M ConanFile.t :=
  requires <-
    (fix alloc (l : list Requirement.t) (acc : Requirements) : M Requirements :=
       match l with
       | [] => ret acc
       | r :: l' =>
           a <- new_requirement_object r ;;
           alloc l' (dict_set acc (name (Requirement.ref r)) a)
       end) (manifest_requires m) [] ;;
  ret (ConanFile.mk (manifest_display_name m) (manifest_alias m) requires
                    (manifest_options m) (manifest_build_requires_options m)
                    true false None None).

Definition Recipe : Type :=
  ConanFileReference * ConanFile.t * RecipeStatus * option string * option nat.

Fixpoint _resolve_recipe (fuel : nat) (current_node requirement : nat)
    (graph_lock : option GraphLock) (original_ref : option ConanFileReference)
    : M Recipe :=
  match fuel with
  | 0 => out_of_fuel
  | S fuel' =>
      r <- requirement_at requirement ;;
      modify (log_recipe_request (Requirement.ref r)) ;;
      match get_recipe self (Requirement.ref r) with
      | None => raise (RecipeResolutionFailure (Requirement.ref r))
      | Some (conanfile_path, recipe_status, remote, new_ref) =>
          let locked_id := Requirement.locked_id r in
          match locked_id, graph_lock with
          | Some _, None => raise (AttributeError "python_requires")
          | _, _ => ret tt
          end ;;
          match load_conanfile self conanfile_path (Requirement.ref r) with
          | None => raise (RecipeResolutionFailure (Requirement.ref r))
          | Some manifest =>
              loaded <- instantiate manifest ;;
              let dep_conanfile :=
                match recipe_status with
                | RECIPE_EDITABLE => ConanFile.set_editable loaded
                | _ => loaded
                end in
              match ConanFile.alias dep_conanfile with
              | Some pointed_ref =>
                  let new_ref_norev := copy_clear_rev new_ref in
                  update_graph (fun g =>
                    DepsGraph.set_aliased
                      (dict_set (DepsGraph.aliased g) new_ref_norev pointed_ref) g) ;;
                  update_requirement requirement (Requirement.set_ref pointed_ref) ;;
                  match original_ref with
                  | Some original =>
                      update_graph (fun g =>
                        DepsGraph.set_aliased
                          (dict_set (DepsGraph.aliased g) original pointed_ref) g)
                  | None => ret tt
                  end ;;
                  _resolve_recipe fuel' current_node requirement graph_lock original_ref
              | None => ret (new_ref, dep_conanfile, recipe_status, remote, locked_id)
              end
          end
      end
  end.

Definition is_some {A} (o : option A) : bool :=
  match o with
  | Some _ => true
  | None => false
  end.

Definition _create_new_node (fuel : nat) (current_node requirement : nat)
    (graph_lock : option GraphLock) : M nat :=
  ' (new_ref, dep_conanfile, recipe_status, remote, locked_id) <-
    _resolve_recipe fuel current_node requirement graph_lock None ;;
  r <- requirement_at requirement ;;
  cur <- node_at current_node ;;
  let created := Node.init (Some new_ref) dep_conanfile in
  let created :=
    Node.set_origin (is_some (revision (Requirement.ref r))) recipe_status remote created in
  (* Ancestors are a copy of the parent, plus the parent itself *)
  let created := Node.set_ancestors (set_add (Node.name cur) (Node.ancestors cur)) created in
  let created :=
    match locked_id with
    | Some i => Node.set_id i created
    | None => created
    end in
  new_node <- new_node_object created ;;
  add_node new_node ;;
  add_edge current_node new_node requirement ;;
  ret new_node.

(** The two halves of [_expand_require], with the recursive call to
    [_expand_node] as [expand_node]. *)
Section ExpandRequire.
Variable fuel : nat.
Variable expand_node :
  nat -> option Requirements -> option ConanFileReference -> option DepsOptions ->
  option GraphLock -> M unit.

(** node -(require)-> new_node *)
Definition expand_new_node (node require : nat) (name : Name)
    (new_reqs : option Requirements) (new_options : DepsOptions)
    (graph_lock : option GraphLock) : M unit :=
  new_node <- _create_new_node fuel node require graph_lock ;;
  (* The closure of a new node starts with just itself *)
  update_node new_node (Node.set_public_closure [(name, new_node)]) ;;
  update_node new_node (Node.set_transitive_closure [(name, new_node)]) ;;
  (* The new created node is connected to the parent one *)
  connect_closure node new_node ;;
  r <- requirement_at require ;;
  (if Requirement.private r || Requirement.build_require r then
     n <- node_at node ;;
     update_node new_node (Node.set_public_deps (Node.public_closure n)) ;;
     update_node new_node (fun m =>
       Node.set_public_deps (dict_set (Node.public_deps m) name new_node) m)
   else
     update_node node (fun m =>
       Node.set_transitive_closure (dict_set (Node.transitive_closure m) name new_node) m) ;;
     n <- node_at node ;;
     update_node new_node (Node.set_public_deps (Node.public_deps n)) ;;
     update_node new_node (fun m =>
       Node.set_public_deps (dict_set (Node.public_deps m) name new_node) m) ;;
     (* All the dependents of "node" are also connected now to "new_node" *)
     n <- node_at node ;;
     for_each (Node.inverse_closure n) (fun dep_node =>
       connect_closure dep_node new_node)) ;;
  (* RECURSION, keep expanding (depth-first) the new node *)
  n <- node_at node ;;
  expand_node new_node new_reqs (Node.ref n) (Some new_options) graph_lock ;;
  r <- requirement_at require ;;
  when (negb (Requirement.private r) && negb (Requirement.build_require r))
    (created <- node_at new_node ;;
     update_node node (fun m =>
       Node.set_transitive_closure
         (dict_update (Node.transitive_closure m) (Node.transitive_closure created)) m)).

(** As we are closing a diamond, there can be conflicts. *)
Definition check_conflicts (node require previous : nat)
    (graph_lock : option GraphLock) : M unit :=
  r <- requirement_at require ;;
  n <- node_at node ;;
  p <- node_at previous ;;
  previous_ref <- ref_of p ;;
  conflict <- lift (_conflicting_references previous_ref (Requirement.ref r) (Node.ref n)) ;;
  if conflict_truthy conflict then
    (* It is possible to get conflict from alias, try to resolve it *)
    let conflicting_ref := Requirement.ref r in
    _resolve_recipe fuel node require graph_lock None ;;
    r <- requirement_at require ;;
    if py_eq conflicting_ref (Requirement.ref r) then
      raise (ReferenceConflict conflict)
    else
      (* if require.ref has changed, it was an ALIAS, so we can check conflict again *)
      n <- node_at node ;;
      p <- node_at previous ;;
      previous_ref <- ref_of p ;;
      conflict <- lift (_conflicting_references previous_ref (Requirement.ref r) (Node.ref n)) ;;
      if conflict_truthy conflict then raise (ReferenceConflict conflict) else ret tt
  else ret tt.

(** Add current ancestors to the previous node and upstream deps *)
Definition add_ancestors (node previous : nat) : M unit :=
  n <- node_at node ;;
  let union := set_update (Node.ancestors n) [Node.name n] in
  p <- node_at previous ;;
  for_each (dict_values (Node.public_closure p)) (fun m =>
    update_node m (fun o => Node.set_ancestors (set_update (Node.ancestors o) union) o)).

(** [not graph_lock and self._recurse(previous.public_closure, new_reqs,
    new_options)] *)
Definition need_recurse (previous : nat) (new_reqs : option Requirements)
    (new_options : DepsOptions) (graph_lock : option GraphLock) : M bool :=
  match graph_lock with
  | Some _ => ret false
  | None =>
      p <- node_at previous ;;
      match new_reqs with
      | Some reqs => _recurse (Node.public_closure p) reqs new_options
      | None => raise (AttributeError "values")
      end
  end.

(** node -(require)-> previous: a public node already exists with this name *)
Definition close_diamond (node require previous : nat)
    (new_reqs : option Requirements) (new_options : DepsOptions)
    (graph_lock : option GraphLock) : M unit :=
  _resolve_cached_alias [require] ;;
  check_conflicts node require previous graph_lock ;;
  add_ancestors node previous ;;
  connect_closure node previous ;;
  add_edge node previous require ;;
  r <- requirement_at require ;;
  when (negb (Requirement.private r) && negb (Requirement.build_require r))
    (p <- node_at previous ;;
     update_node node (fun m =>
       Node.set_transitive_closure
         (dict_update (Node.transitive_closure m) (Node.transitive_closure p)) m) ;;
     (* All the upstream dependencies of the previously existing node now
        will be also connected to the node and to all its dependants *)
     p <- node_at previous ;;
     for_each (dict_values (Node.transitive_closure p)) (fun m =>
       connect_closure node m ;;
       n <- node_at node ;;
       for_each (Node.inverse_closure n) (fun dep_node => connect_closure dep_node m))) ;;
  (* Recursion is only necessary if the inputs conflict with the current
     "previous" configuration of upstream versions and options *)
  again <- need_recurse previous new_reqs new_options graph_lock ;;
  when again
    (n <- node_at node ;;
     expand_node previous new_reqs (Node.ref n) (Some new_options) graph_lock).

Definition _expand_require (node require : nat) (new_reqs : option Requirements)
    (new_options : DepsOptions) (graph_lock : option GraphLock) : M unit :=
  r <- requirement_at require ;;
  n <- node_at node ;;
  (* If the required is found in the node ancestors a loop is being closed *)
  let name : Name := Some (name (Requirement.ref r)) in
  if set_mem name (Node.ancestors n) || py_eq name (Node.name n) then
    raise (LoopDetected (Node.ref n) (Requirement.ref r))
  else
    (* If the requirement is found in the node public dependencies, it is a diamond *)
    let previous := dict_get (Node.public_deps n) name in
    let previous_closure := dict_get (Node.public_closure n) name in
    (* build_requires and private will create a new node if it is not in the
       current closure *)
    match previous with
    | None => expand_new_node node require name new_reqs new_options graph_lock
    | Some previous_node =>
        if (Requirement.build_require r || Requirement.private r) &&
           negb (is_some previous_closure)
        then expand_new_node node require name new_reqs new_options graph_lock
        else close_diamond node require previous_node new_reqs new_options graph_lock
    end.

End ExpandRequire.

Fixpoint _expand_node (fuel : nat) (node : nat) (down_reqs : option Requirements)
    (down_ref : option ConanFileReference) (down_options : option DepsOptions)
    (graph_lock : option GraphLock) : M unit :=
  match fuel with
  | 0 => out_of_fuel
  | S fuel' =>
      (* basic node configuration: calling configure() and requirements() and
         version-ranges *)
      ' (new_options, new_reqs) <-
        _get_node_requirements node down_ref down_options down_reqs graph_lock ;;
      (* Expand each one of the current requirements *)
      n <- node_at node ;;
      for_each (dict_values (ConanFile.requires (Node.conanfile n))) (fun require =>
        r <- requirement_at require ;;
        if Requirement.override r then ret tt
        else _expand_require fuel' (_expand_node fuel') node require
                             new_reqs new_options graph_lock)
  end.

Definition load_graph (fuel : nat) (root_node : nat) (graph_lock : option GraphLock)
    : M DepsGraph.t :=
  let initial := option_map initial_counter graph_lock in
  modify (set_dep_graph (DepsGraph.init initial)) ;;
  (* compute the conanfile entry point for this dependency graph *)
  root <- node_at root_node ;;
  let name := Node.name root in
  update_node root_node (Node.set_public_closure [(name, root_node)]) ;;
  update_node root_node (Node.set_transitive_closure [(name, root_node)]) ;;
  update_node root_node (Node.set_public_deps [(name, root_node)]) ;;
  update_node root_node (Node.set_ancestors []) ;;
  add_node root_node ;;
  (* enter recursive computation *)
  _expand_node fuel root_node (Some []) None None graph_lock ;;
  graph.

(** [set(n for n in graph.nodes if n.package_id is None)] *)
Definition nodes_without_package_id : M (list nat) :=
  g <- graph ;;
  s <- get_state ;;
  ret (filter (fun a =>
                 match nth_error (node_objects s) a with
                 | Some n => negb (is_some (Node.package_id n))
                 | None => false
                 end) (DepsGraph.nodes g)).

(** This is to make sure that build_requires have precedence over the normal
    requires *)
Definition reorder_closure (new_nodes : list nat) (public_closure : dict Name nat)
    : dict Name nat :=
  let ordered_closure := public_closure in
  let ordered_closure :=
    sort_by_key (fun x : Name * nat => negb (set_mem (snd x) new_nodes)) ordered_closure in
  dict_of_items ordered_closure.

(** [extend_build_requires] up to the expansion of the requirements made
    from [build_requires_refs] *)
Definition expand_build_requires (fuel : nat) (node : nat)
    (build_requires_refs : list ConanFileReference) (graph_lock : option GraphLock)
    : M unit :=
  update_node node (fun n =>
    Node.set_conanfile
      (ConanFile.set_build_requires_options
         (OptionsValues.clear_unscoped_options
            (ConanFile.build_requires_options (Node.conanfile n)))
         (Node.conanfile n)) n) ;;
  n <- node_at node ;;
  let new_options :=
    OptionsValues._reqs_options (ConanFile.build_requires_options (Node.conanfile n)) in
  let new_reqs : Requirements := [] in
  let conanfile := Node.conanfile n in
  let scope := ConanFile.display_name conanfile in
  requires <-
    (fix alloc (refs : list ConanFileReference) : M (list nat) :=
       match refs with
       | [] => ret []
       | ref :: refs' =>
           a <- new_requirement_object
                  (Requirement.set_build_require true (Requirement.init ref)) ;;
           rest <- alloc refs' ;;
           ret (a :: rest)
       end) build_requires_refs ;;
  match graph_lock with
  | Some lock => lock_node lock node requires true
  | None => ret tt
  end ;;
  _resolve_ranges requires scope ;;
  for_each requires (fun require =>
    _expand_require fuel (_expand_node fuel) node require
                    (Some new_reqs) new_options graph_lock).

(** the end of [extend_build_requires]: the new nodes first *)
Definition order_closure (node : nat) : M (list nat) :=
  new_nodes <- nodes_without_package_id ;;
  update_node node (fun n =>
    Node.set_public_closure (reorder_closure new_nodes (Node.public_closure n)) n) ;;
  ret new_nodes.

Definition extend_build_requires (fuel : nat) (node : nat)
    (build_requires_refs : list ConanFileReference) (graph_lock : option GraphLock)
    : M (list nat) :=
  expand_build_requires fuel node build_requires_refs graph_lock ;;
  order_closure node.

End DepsGraphBuilder.

(** ** Concrete graphs

    A recipe cache given as a table from reference to manifest: the proxy
    finds exactly the references of the table, there are no version ranges
    and the recipes have no hooks. *)

Module Scenario.

Definition pkg (n v : string) : ConanFileReference := mkRef n v None None None.

Definition pkg_rev (n v r : string) : ConanFileReference := mkRef n v None None (Some r).

Definition no_options : Options.t := Options.mk [] [].

Definition no_build_options : OptionsValues.t := OptionsValues.mk [] [].

Definition recipe (display : string) (requires : list Requirement.t) : Manifest :=
  mkManifest display None requires no_options no_build_options.

Definition alias_to (display : string) (target : ConanFileReference) : Manifest :=
  mkManifest display (Some target) [] no_options no_build_options.

Definition public (r : ConanFileReference) : Requirement.t := Requirement.init r.

Definition private (r : ConanFileReference) : Requirement.t :=
  Requirement.mk r r true false false None.

Definition Cache := list (ConanFileReference * Manifest).

Fixpoint lookup (db : Cache) (r : ConanFileReference) : option Manifest :=
  match db with
  | [] => None
  | (k, m) :: db' => if py_eq k r then Some m else lookup db' r
  end.

Definition cache (db : Cache) : Collaborators :=
  {| get_recipe := fun r =>
       match lookup db r with
       | Some _ => Some (name r, RECIPE_OTHER "Cache", None, r)
       | None => None
       end;
     load_conanfile := fun _ r => lookup db r;
     resolve := fun r _ => Some (Requirement.ref r);
     has_config := fun _ => false;
     has_requirements := fun _ => false;
     config := fun c => inr (ConanFile.options c);
     config_options := fun c => inr (ConanFile.options c);
     configure := fun c => inr (ConanFile.options c);
     requirements := fun _ => inr [];
     propagate_upstream := fun o _ _ _ => inr o;
     validate_settings := fun _ => inr tt;
     validate_options := fun _ => inr tt |}.

Definition empty_state : State := mkState [] [] (DepsGraph.init None) [].

(** a conanfile object with the given requirements and nothing else *)
Definition conanfile (display : string) (requires : Requirements) : ConanFile.t :=
  ConanFile.mk display None requires no_options no_build_options true false None None.

Definition no_node : Node.t := Node.init None (conanfile "" []).

(** the root node for a consumer: its conanfile is loaded, the node is
    created, and the graph is built from it *)
Definition build (self : Collaborators) (root_ref : option ConanFileReference)
    (root : Manifest) (fuel : nat) : Outcome DepsGraph.t :=
  (conanfile <- instantiate root ;;
   root_node <- new_node_object (Node.init root_ref conanfile) ;;
   load_graph self fuel root_node None) empty_state.

Definition final_state {A} (o : Outcome A) : option State :=
  match o with
  | Ok _ s => Some s
  | Raise _ s => Some s
  | OutOfFuel => None
  end.

Definition raised {A} (o : Outcome A) : option Exception :=
  match o with
  | Raise e _ => Some e
  | _ => None
  end.

(** the nodes of a state: reference, ancestors, publicDeps *)
Definition node_table (s : State) :=
  map (fun n => (Node.ref n, Node.ancestors n, Node.public_deps n)) (node_objects s).

End Scenario.

Unset Implicit Arguments.
Local Open Scope list_scope.
(** ** Vocabulary of the properties *)

(** a reference carries a revision: the field is set, as a Python
    condition reads it *)
Definition has_revision (r : ConanFileReference) : bool := truthy (revision r).


(** a property of the state that a computation keeps, however it ends *)
Definition preserves {A} (P : State -> Prop) (c : M A) : Prop :=
  forall s, P s ->
    match c s with
    | Ok _ s' => P s'
    | Raise _ s' => P s'
    | OutOfFuel => True
    end.

(** Graphs the properties are tried on. *)
Module Examples.
Import Scenario.

Definition A := pkg "A" "1.0".
Definition B := pkg "B" "1.0".
Definition C1 := pkg "C" "1.0".
Definition C2 := pkg "C" "2.0".

(** Scenario A: root requires A and B; A requires C/1.0, B requires C/2.0 *)
Definition diamond_cache : Cache :=
  [(A, recipe "A/1.0" [public C1]); (B, recipe "B/1.0" [public C2]);
   (C1, recipe "C/1.0" []); (C2, recipe "C/2.0" [])].

Definition scenario_A : Outcome DepsGraph.t :=
  build (cache diamond_cache) None (recipe "root" [public A; public B]) 5.

(** Scenario D: as Scenario A, A being a private requirement of the root *)
Definition scenario_D : Outcome DepsGraph.t :=
  build (cache diamond_cache) None (recipe "root" [private A; public B]) 5.

(** a consumer without a reference requires gazelle, which requires
    grass/0.1, and privately grass/0.2 *)
Definition gazelle := pkg "gazelle" "0.1".
Definition grass01 := pkg "grass" "0.1".
Definition grass02 := pkg "grass" "0.2".

Definition savanna : Cache :=
  [(gazelle, recipe "gazelle/0.1" [public grass01]);
   (grass01, recipe "grass/0.1" []); (grass02, recipe "grass/0.2" [])].

Definition consumer_conflict : Outcome DepsGraph.t :=
  build (cache savanna) None (recipe "conanfile.txt" [public gazelle; private grass02]) 5.

(** A requires C/1.0#r1; B requires C/latest, an alias of C/1.0#r2 *)
Definition C1r1 := pkg_rev "C" "1.0" "r1".
Definition C1r2 := pkg_rev "C" "1.0" "r2".
Definition Clatest := pkg "C" "latest".

Definition revisions_cache : Cache :=
  [(A, recipe "A/1.0" [public C1r1]); (B, recipe "B/1.0" [public Clatest]);
   (C1r1, recipe "C/1.0" []); (C1r2, recipe "C/1.0" []);
   (Clatest, alias_to "C/latest" C1r2)].

Definition alias_to_other_revision : Outcome DepsGraph.t :=
  build (cache revisions_cache) None (recipe "root" [public A; public B]) 5.

End Examples.

(** B, about to close a diamond on the node of C/1.0 with its requirement
    of C/2.0 *)
Module ClosingDiamond.
Import Scenario.

Definition consumer : Node.t := Node.init (Some Examples.B) (conanfile "B/1.0" [("C", 0)]).

Definition pinned : Node.t := Node.init (Some Examples.C1) (conanfile "C/1.0" []).

Definition state : State :=
  mkState [consumer; pinned] [public Examples.C2] (DepsGraph.init None) [].

Definition self : Collaborators := cache Examples.diamond_cache.

Definition resolution : Outcome Recipe := _resolve_recipe self 2 0 0 None None state.

Definition state_after : State :=
  match resolution with
  | Ok _ s => s
  | _ => state
  end.

Definition resolved : Recipe :=
  match resolution with
  | Ok rec _ => rec
  | _ => (Examples.C2, conanfile "" [], RECIPE_EDITABLE, None, None)
  end.

End ClosingDiamond.

(** what [_resolve_cached_alias] leaves in a requirement: the cached
    target of its reference when there is one *)
Definition cached_alias (aliased : dict ConanFileReference ConanFileReference)
    (r : Requirement.t) : Requirement.t :=
  match dict_get aliased (Requirement.ref r) with
  | Some alias => Requirement.set_ref alias r
  | None => r
  end.

Module AliasChain.
Import Scenario.

Definition La := pkg "L" "a".
Definition Lb := pkg "L" "b".
Definition Lc := pkg "L" "c".

(** L/a is an alias of L/b, which is an alias of L/c *)
Definition aliases : Cache :=
  [(La, alias_to "L/a" Lb); (Lb, alias_to "L/b" Lc); (Lc, recipe "L/c" [])].

Definition built : Outcome DepsGraph.t :=
  build (cache aliases) None (recipe "root" [public La]) 5.

(** the state the build ends in, and one more requirement of L/a in it *)
Definition state : State :=
  match built with
  | Ok _ s => set_requirement_objects (requirement_objects s ++ [public La]) s
  | _ => empty_state
  end.

Definition again : nat := List.length (requirement_objects state) - 1.

End AliasChain.

(** every closure of every node holds a name once *)
Definition closure_keyed_once (n : Node.t) : Prop :=
  NoDup (dict_keys (Node.public_closure n)).

Definition closures_keyed_once (s : State) : Prop :=
  Forall closure_keyed_once (node_objects s).

(** the closure entries that [extend_build_requires] takes for new *)
Definition is_new (new_nodes : list nat) (entry : Name * nat) : bool :=
  set_mem (snd entry) new_nodes.

Definition is_old (new_nodes : list nat) (entry : Name * nat) : bool :=
  negb (is_new new_nodes entry).

(** a node of the graph that has no package id yet *)
Definition newly_added (s : State) (a : nat) : Prop :=
  In a (DepsGraph.nodes (dep_graph s)) /\
  exists n, nth_error (node_objects s) a = Some n /\ Node.package_id n = None.

(** Scenario E: a node whose closure holds X and Y, all with a package id,
    receives the build requirement Z *)
Module BuildRequires.
Import Scenario.

Definition X := pkg "X" "1.0".
Definition Y := pkg "Y" "1.0".
Definition Z := pkg "Z" "1.0".

Definition tools : Cache :=
  [(X, recipe "X/1.0" []); (Y, recipe "Y/1.0" []); (Z, recipe "Z/1.0" [])].

Definition with_package_id (n : Node.t) : Node.t :=
  Node.mk (Node.ref n) (Node.conanfile n) (Some "package_id") (Node.id n) (Node.recipe n)
          (Node.remote n) (Node.revision_pinned n) (Node.public_deps n)
          (Node.public_closure n) (Node.transitive_closure n) (Node.inverse_closure n)
          (Node.ancestors n).

(** the graph of a consumer of X and Y, once the package ids are computed *)
Definition state : State :=
  match build (cache tools) None (recipe "root" [public X; public Y]) 5 with
  | Ok _ s => set_node_objects (map with_package_id (node_objects s)) s
  | _ => empty_state
  end.

Definition expanded : State :=
  match expand_build_requires (cache tools) 5 0 [Z] None state with
  | Ok _ s => s
  | _ => state
  end.

Definition root : Node.t := nth 0 (node_objects expanded) no_node.

End BuildRequires.

(** [new_ref] cannot stand where [previous_ref] is: another version, or
    another revision when both carry one *)
Definition incompatible (previous_ref new_ref : ConanFileReference) : Prop :=
  copy_clear_rev previous_ref <> copy_clear_rev new_ref
  \/ (has_revision previous_ref = true /\ has_revision new_ref = true /\
      revision previous_ref <> revision new_ref).

(** a requirement of [new_reqs] names a package of the closure whose node
    has an incompatible reference *)
Definition requirement_conflicts (st : State) (closure : dict Name nat)
    (new_reqs : Requirements) : Prop :=
  exists nm a r n nd n_ref,
    In (nm, a) new_reqs
    /\ nth_error (requirement_objects st) a = Some r
    /\ dict_get closure (Some (name (Requirement.ref r))) = Some n
    /\ nth_error (node_objects st) n = Some nd
    /\ Node.ref nd = Some n_ref
    /\ incompatible n_ref (Requirement.ref r).

(** [new_options] gives a package of the closure a value for an option
    that is not the value configured on its node *)
Definition option_differs (st : State) (closure : dict Name nat)
    (new_options : DepsOptions) : Prop :=
  exists pkg_name options_values n nd option value current,
    In (pkg_name, options_values) new_options
    /\ dict_get closure (Some pkg_name) = Some n
    /\ nth_error (node_objects st) n = Some nd
    /\ In (option, value) options_values
    /\ dict_get (Options.values (ConanFile.options (Node.conanfile nd))) option = Some current
    /\ current <> value.

(** what [_recurse] reads is there: the requirement objects, the nodes of
    the closure it looks up with their references, and the options it
    compares *)
Definition recurse_defined (st : State) (closure : dict Name nat)
    (new_reqs : Requirements) (new_options : DepsOptions) : Prop :=
  (forall nm a, In (nm, a) new_reqs ->
     exists r, nth_error (requirement_objects st) a = Some r
       /\ forall n, dict_get closure (Some (name (Requirement.ref r))) = Some n ->
            exists nd n_ref, nth_error (node_objects st) n = Some nd /\ Node.ref nd = Some n_ref)
  /\
  (forall pkg_name options_values n,
     In (pkg_name, options_values) new_options ->
     dict_get closure (Some pkg_name) = Some n ->
     exists nd, nth_error (node_objects st) n = Some nd
       /\ forall option value, In (option, value) options_values ->
            exists current,
              dict_get (Options.values (ConanFile.options (Node.conanfile nd))) option =
                Some current).

(** the unlocked branch of [_get_node_requirements] up to the comparison
    with the requirements of the first evaluation: configuration and
    hooks, cached aliases, requirements from downstream, version ranges *)
Definition requirements_before_check (self : Collaborators) (node : nat)
    (down_ref : option ConanFileReference) (down_options : option DepsOptions)
    (down_reqs : Requirements) : M (DepsOptions * Requirements * string) :=
  (new_options <- _config_node self node down_ref down_options ;;
   n <- node_at node ;;
   _resolve_cached_alias (dict_values (ConanFile.requires (Node.conanfile n))) ;;
   new_reqs <- requires_update (ConanFile.requires (Node.conanfile n)) down_reqs (Node.ref n) ;;
   let scope := ConanFile.display_name (Node.conanfile n) in
   _resolve_ranges self (dict_values (ConanFile.requires (Node.conanfile n))) scope ;;
   ret (new_options, new_reqs, scope))%M.

(** A/1.0 declares its requirement of C/1.0 in [requirements()]; it is
    evaluated once with nothing from downstream, and then again with
    C/2.0 required downstream *)
Module Reevaluation.
Import Scenario.

Definition hooks : Collaborators :=
  mkCollaborators
    (get_recipe (cache Examples.diamond_cache))
    (load_conanfile (cache Examples.diamond_cache))
    (fun r _ => Some (Requirement.ref r))
    (fun _ => false)
    (fun c => py_eq (ConanFile.display_name c) "A/1.0")
    (fun c => inr (ConanFile.options c))
    (fun c => inr (ConanFile.options c))
    (fun c => inr (ConanFile.options c))
    (fun _ => inr [public Examples.C1])
    (fun o _ _ _ => inr o)
    (fun _ => inr tt)
    (fun _ => inr tt).

Definition node_A : Node.t :=
  Node.init (Some Examples.A) (Scenario.conanfile "A/1.0" []).

Definition first : State :=
  match _get_node_requirements hooks 0 None None (Some []) None
          (mkState [node_A] [] (DepsGraph.init None) []) with
  | Ok _ s => s
  | _ => empty_state
  end.

(** the requirement of C/2.0 that comes from downstream the second time *)
Definition state : State :=
  set_requirement_objects (requirement_objects first ++ [public Examples.C2]) first.

Definition down_reqs : Requirements := [("C", List.length (requirement_objects first))].

Definition before_check : Outcome (DepsOptions * Requirements * string) :=
  requirements_before_check hooks 0 None None down_reqs state.


Definition new_reqs : Requirements :=
  match before_check with
  | Ok (_, reqs, _) _ => reqs
  | _ => []
  end.


End Reevaluation.

(** P requires X/1.0 privately; the root requires P and, privately,
    X/2.0, and X/2.0 requires P *)
Module OwnName.
Import Scenario.

Definition P := pkg "P" "1.0".
Definition X1 := pkg "X" "1.0".
Definition X2 := pkg "X" "2.0".

Definition recipes : Cache :=
  [(P, recipe "P/1.0" [private X1]); (X1, recipe "X/1.0" []);
   (X2, recipe "X/2.0" [public P])].

Definition built : Outcome DepsGraph.t :=
  build (cache recipes) None (recipe "root" [public P; private X2]) 5.

End OwnName.

Module OwnNameState.

Definition state : State :=
  match OwnName.built with
  | Ok _ s => s
  | _ => Scenario.empty_state
  end.

Definition requesting : Node.t := nth 3 (node_objects state) Scenario.no_node.

Definition previous : Node.t := nth 1 (node_objects state) Scenario.no_node.

End OwnNameState.

(** the node objects after [update_node a f] *)
Definition updated (l : list Node.t) (a : nat) (f : Node.t -> Node.t) : list Node.t :=
  match nth_error l a with
  | Some n => list_set l a (f n)
  | None => l
  end.

(** the root requires X, which requires C/2.0, and N, which requires A
    privately; A requires C/1.0 *)
Module Isolation.
Import Scenario.

Definition X := pkg "X" "1.0".
Definition N := pkg "N" "1.0".

Definition recipes : Cache :=
  [(X, recipe "X/1.0" [public Examples.C2]); (N, recipe "N/1.0" [private Examples.A]);
   (Examples.A, recipe "A/1.0" [public Examples.C1]);
   (Examples.C1, recipe "C/1.0" []); (Examples.C2, recipe "C/2.0" [])].

Definition built : Outcome DepsGraph.t :=
  build (cache recipes) None (recipe "root" [public X; public N]) 6.

(** a root about to expand its private requirement of A *)
Definition root : Node.t :=
  Node.set_public_deps [(None, 0)]
    (Node.set_public_closure [(None, 0)]
       (Node.init None (Scenario.conanfile "root" [("A", 0)]))).

Definition state : State :=
  mkState [root] [private Examples.A] (DepsGraph.init None) [].

Definition self : Collaborators := cache Examples.diamond_cache.

Definition state_created : State :=
  match _create_new_node self 3 0 0 None state with
  | Ok _ s => s
  | _ => state
  end.

Definition no_expansion (_ : nat) (_ : option Requirements)
    (_ : option ConanFileReference) (_ : option DepsOptions) (_ : option GraphLock)
    : M unit := ret tt.

End Isolation.

(** B closes a diamond on the node of C/1.0#r1 with a requirement of
    C/1.0#r2 *)
Module TwoRevisions.
Import Scenario.

Definition pinned : Node.t :=
  Node.init (Some Examples.C1r1) (Scenario.conanfile "C/1.0" []).

Definition state : State :=
  mkState [ClosingDiamond.consumer; pinned] [public Examples.C1r2] (DepsGraph.init None) [].

End TwoRevisions.

(** the flags of a requirement object *)
Definition flags_are (require : nat) (private build_require : bool) (s : State) : Prop :=
  exists r, nth_error (requirement_objects s) require = Some r
    /\ Requirement.private r = private
    /\ Requirement.build_require r = build_require.

(** the detector reports a conflict: it returns a true value or raises *)
Definition reports_conflict (result : Exception + Conflict) : bool :=
  match result with
  | inl _ => true
  | inr conflict => conflict_truthy conflict
  end.

(** ** Vocabulary of the properties of the other parts of the builder *)

(** a computation that reads the state: it ends, and the state it ends in
    is the state it started from *)
Definition reads_only {A} (c : M A) : Prop :=
  forall st,
    match c st with
    | Ok _ st' => st' = st
    | Raise _ st' => st' = st
    | OutOfFuel => False
    end.

(** the detector finds nothing between two references: the same
    reference with the revisions ignored, and not two different
    revisions *)
Definition compatible (previous_ref new_ref : ConanFileReference) : Prop :=
  copy_clear_rev previous_ref = copy_clear_rev new_ref
  /\ (has_revision previous_ref = false \/ has_revision new_ref = false \/
      revision previous_ref = revision new_ref).

(** a node whose ancestors hold the package C, and its requirement of
    C/2.0 *)
Module Loop.
Import Scenario.

Definition consumer : Node.t := Node.set_ancestors [None; Some "C"] ClosingDiamond.consumer.

Definition state : State :=
  mkState [consumer] [public Examples.C2] (DepsGraph.init None) [].

Definition no_expansion (_ : nat) (_ : option Requirements)
    (_ : option ConanFileReference) (_ : option DepsOptions) (_ : option GraphLock)
    : M unit := ret tt.

End Loop.

(** B closes a diamond on the node of C/1.0#r1 with a requirement of
    C/1.0 that names no revision *)
Module AnyRevision.
Import Scenario.

Definition state : State :=
  mkState [ClosingDiamond.consumer; TwoRevisions.pinned] [public Examples.C1]
          (DepsGraph.init None) [].

End AnyRevision.

(** the reference the recipe of [x] is an alias of, as [_resolve_recipe]
    finds it: the proxy gives the recipe, the loader loads it, and the
    conanfile has an [alias] attribute *)
Definition alias_target (self : Collaborators) (x : ConanFileReference)
    : option ConanFileReference :=
  match get_recipe self x with
  | Some (conanfile_path, _, _, _) =>
      match load_conanfile self conanfile_path x with
      | Some manifest => manifest_alias manifest
      | None => None
      end
  | None => None
  end.

(** the state in which [_resolve_recipe] goes on after an alias *)
Definition after_alias (requirement : nat) (r : Requirement.t) (m : Manifest)
    (new_ref pointed_ref : ConanFileReference) (original_ref : option ConanFileReference)
    (st : State) : State :=
  let aliased := dict_set (DepsGraph.aliased (dep_graph st)) (copy_clear_rev new_ref) pointed_ref in
  let aliased :=
    match original_ref with
    | Some original => dict_set aliased original pointed_ref
    | None => aliased
    end in
  mkState (node_objects st)
          (list_set (requirement_objects st ++ manifest_requires m) requirement
                    (Requirement.set_ref pointed_ref r))
          (DepsGraph.set_aliased aliased (dep_graph st))
          (recipe_requests st ++ [Requirement.ref r]).

(** between [st] and [s] no node was touched, and of the requirement
    objects of [st] only [requirement] was, in its reference *)
Definition only_ref_rewritten (requirement : nat) (st s : State) : Prop :=
  node_objects s = node_objects st
  /\ forall a r0, nth_error (requirement_objects st) a = Some r0 ->
       exists x, nth_error (requirement_objects s) a = Some (Requirement.set_ref x r0)
                 /\ (a <> requirement -> x = Requirement.ref r0).

(** what a computation leaves of the state it starts in, however it ends *)
Definition leaves {A} (R : State -> State -> Prop) (c : M A) : Prop :=
  forall st,
    match c st with
    | Ok _ st' => R st st'
    | Raise _ st' => R st st'
    | OutOfFuel => True
    end.

(** L/a and L/b are aliases of each other *)
Module AliasCycle.
Import Scenario.

Definition aliases : Cache :=
  [(AliasChain.La, alias_to "L/a" AliasChain.Lb);
   (AliasChain.Lb, alias_to "L/b" AliasChain.La)].

Definition in_cycle (x : ConanFileReference) : Prop :=
  x = AliasChain.La \/ x = AliasChain.Lb.

Definition state : State :=
  mkState [ClosingDiamond.consumer] [public AliasChain.La] (DepsGraph.init None) [].

End AliasCycle.

(** a requirement of L/a, with the recipes of [AliasChain], resolved for a
    consumer *)
Module Resolution.
Import Scenario.

Definition self : Collaborators := cache AliasChain.aliases.

Definition state : State :=
  mkState [ClosingDiamond.consumer] [public AliasChain.La] (DepsGraph.init None) [].

Definition run (original_ref : option ConanFileReference) : Outcome Recipe :=
  _resolve_recipe self 3 0 0 None original_ref state.

Definition state_after (original_ref : option ConanFileReference) : State :=
  match run original_ref with
  | Ok _ s => s
  | _ => state
  end.

Definition resolved (original_ref : option ConanFileReference) : Recipe :=
  match run original_ref with
  | Ok rec _ => rec
  | _ => (AliasChain.La, conanfile "" [], RECIPE_EDITABLE, None, None)
  end.

(** the same recipes, found in editable mode *)
Definition editable : Collaborators :=
  mkCollaborators
    (fun r => match lookup AliasChain.aliases r with
              | Some _ => Some (name r, RECIPE_EDITABLE, None, r)
              | None => None
              end)
    (load_conanfile self) (resolve self) (has_config self) (has_requirements self)
    (config self) (config_options self) (configure self) (requirements self)
    (propagate_upstream self) (validate_settings self) (validate_options self).

Definition run_editable : Outcome Recipe := _resolve_recipe editable 3 0 0 None None state.

Definition state_editable : State :=
  match run_editable with
  | Ok _ s => s
  | _ => state
  end.

Definition resolved_editable : Recipe :=
  match run_editable with
  | Ok rec _ => rec
  | _ => (AliasChain.La, conanfile "" [], RECIPE_OTHER "", None, None)
  end.

End Resolution.

(** a root about to create the node of its requirement of C/latest, an
    alias of C/1.0#r2 *)
Module Creation.
Import Scenario.

Definition root : Node.t := Node.init None (conanfile "root" [("C", 0)]).

Definition state : State :=
  mkState [root] [public Examples.Clatest] (DepsGraph.init None) [].

Definition self : Collaborators := cache Examples.revisions_cache.

Definition state_created : State :=
  match _create_new_node self 3 0 0 None state with
  | Ok _ s => s
  | _ => state
  end.

Definition created : Node.t := nth 1 (node_objects state_created) no_node.

End Creation.

(** [load_graph] up to the recursive computation: the graph is new, and
    the root node is its entry point *)
Definition root_entry (root_node : nat) (graph_lock : option GraphLock) : M unit :=
  (let initial := option_map initial_counter graph_lock in
   modify (set_dep_graph (DepsGraph.init initial)) ;;
   root <- node_at root_node ;;
   let name := Node.name root in
   update_node root_node (Node.set_public_closure [(name, root_node)]) ;;
   update_node root_node (Node.set_transitive_closure [(name, root_node)]) ;;
   update_node root_node (Node.set_public_deps [(name, root_node)]) ;;
   update_node root_node (Node.set_ancestors []) ;;
   add_node root_node)%M.

(** every requirement of the conanfile of [n] is an override *)
Definition only_overrides (s : State) (n : Node.t) : Prop :=
  forall a, In a (dict_values (ConanFile.requires (Node.conanfile n))) ->
    exists r, nth_error (requirement_objects s) a = Some r /\ Requirement.override r = true.

(** a consumer whose only requirement is an override of C/2.0 *)
Module Overrides.
Import Scenario.

Definition override (r : ConanFileReference) : Requirement.t :=
  Requirement.mk r r false false true None.

Definition root : Node.t := Node.init None (conanfile "root" [("C", 0)]).

Definition state : State :=
  mkState [root] [override Examples.C2] (DepsGraph.init None) [].

Definition self : Collaborators := cache Examples.diamond_cache.

Definition entered : State :=
  match root_entry 0 None state with
  | Ok _ s => s
  | _ => state
  end.

Definition evaluated : State :=
  match _get_node_requirements self 0 None None (Some []) None entered with
  | Ok _ s => s
  | _ => state
  end.

Definition evaluated_root : Node.t := nth 0 (node_objects evaluated) no_node.

End Overrides.

(** the graph of the state is [g] *)
Definition graph_is (g : DepsGraph.t) (s : State) : Prop := dep_graph s = g.

(** what the range resolver leaves in a requirement: the reference it
    answers for it *)
Definition resolved_range (self : Collaborators) (consumer : string) (r : Requirement.t)
    : option Requirement.t :=
  option_map (fun new_ref => Requirement.set_ref new_ref r) (resolve self r consumer).

(** one round of the loop of [_resolve_ranges] *)
Definition resolve_range (self : Collaborators) (consumer : string) (require : nat) : M unit :=
  (r <- requirement_at require ;;
   match resolve self r consumer with
   | Some new_ref => update_requirement require (Requirement.set_ref new_ref)
   | None => raise (RangeResolutionFailure (Requirement.ref r))
   end)%M.

(** a resolver that knows the versions of C only: [C/[>1.0]] is C/2.0 *)
Module Ranges.
Import Scenario.

Definition Crange := pkg "C" "[>1.0]".

Definition self : Collaborators :=
  mkCollaborators
    (get_recipe (cache Examples.diamond_cache))
    (load_conanfile (cache Examples.diamond_cache))
    (fun r _ => if py_eq (name (Requirement.ref r)) "C" then Some Examples.C2 else None)
    (fun _ => false) (fun _ => false)
    (fun c => inr (ConanFile.options c))
    (fun c => inr (ConanFile.options c))
    (fun c => inr (ConanFile.options c))
    (fun _ => inr [])
    (fun o _ _ _ => inr o)
    (fun _ => inr tt)
    (fun _ => inr tt).

(** C/2.0 is cached as an alias of C/1.0 *)
Definition graph : DepsGraph.t :=
  DepsGraph.set_aliased [(Examples.C2, Examples.C1)] (DepsGraph.init None).

Definition state : State :=
  mkState [ClosingDiamond.consumer] [public Crange; public Examples.A] graph [].

Definition state_failed : State :=
  mkState [ClosingDiamond.consumer]
          [Requirement.set_ref Examples.C2 (public Crange); public Examples.A] graph [].

End Ranges.

(** the node [extend_build_requires] leaves when there is nothing to
    expand: the options without a package are cleared, and the closure is
    put in the order that has the nodes [new_nodes] first *)
Definition without_build_requires (new_nodes : list nat) (n : Node.t) : Node.t :=
  Node.set_public_closure (reorder_closure new_nodes (Node.public_closure n))
    (Node.set_conanfile
       (ConanFile.set_build_requires_options
          (OptionsValues.clear_unscoped_options
             (ConanFile.build_requires_options (Node.conanfile n)))
          (Node.conanfile n)) n).

(** what the expansion of the graph keeps of a node there is: what the
    node is, the id it was given, and the ancestors and the dependents it
    has got so far *)
Record node_kept (n0 n : Node.t) : Prop := {
  kept_ref : Node.ref n = Node.ref n0;
  kept_package_id : Node.package_id n = Node.package_id n0;
  kept_recipe : Node.recipe n = Node.recipe n0;
  kept_remote : Node.remote n = Node.remote n0;
  kept_revision_pinned : Node.revision_pinned n = Node.revision_pinned n0;
  kept_id : forall i, Node.id n0 = Some i -> Node.id n = Some i;
  kept_ancestors : incl (Node.ancestors n0) (Node.ancestors n);
  kept_inverse_closure : incl (Node.inverse_closure n0) (Node.inverse_closure n);
  kept_display_name :
    ConanFile.display_name (Node.conanfile n) = ConanFile.display_name (Node.conanfile n0);
  kept_alias : ConanFile.alias (Node.conanfile n) = ConanFile.alias (Node.conanfile n0)
}.

Definition nodes_kept (st s : State) : Prop :=
  forall a n0, nth_error (node_objects st) a = Some n0 ->
    exists n, nth_error (node_objects s) a = Some n /\ node_kept n0 n.

(** what stays of a requirement whose reference is rewritten *)
Record requirement_kept (r0 r : Requirement.t) : Prop := {
  kept_range_ref : Requirement.range_ref r = Requirement.range_ref r0;
  kept_private : Requirement.private r = Requirement.private r0;
  kept_build_require : Requirement.build_require r = Requirement.build_require r0;
  kept_override : Requirement.override r = Requirement.override r0;
  kept_locked_id : Requirement.locked_id r = Requirement.locked_id r0
}.

Definition requirements_kept (st s : State) : Prop :=
  forall a r0, nth_error (requirement_objects st) a = Some r0 ->
    exists r, nth_error (requirement_objects s) a = Some r /\ requirement_kept r0 r.

Definition requirements_stay (st s : State) : Prop :=
  List.length (requirement_objects st) <= List.length (requirement_objects s).

(** a graph that got nodes, edges and cached aliases, and lost none *)
Record graph_grows (g0 g : DepsGraph.t) : Prop := {
  nodes_stay : incl (DepsGraph.nodes g0) (DepsGraph.nodes g);
  edges_stay : exists more, DepsGraph.edges g = DepsGraph.edges g0 ++ more;
  aliases_stay : forall k, dict_get (DepsGraph.aliased g0) k <> None ->
                           dict_get (DepsGraph.aliased g) k <> None;
  counter_grows : DepsGraph._node_counter g0 <= DepsGraph._node_counter g
}.

Definition graph_only_grows (st s : State) : Prop := graph_grows (dep_graph st) (dep_graph s).

(** the three together; under a lock the requirements are replaced by
    their locked form, and all that is kept of them is that they are
    there *)
Definition grows (locked : bool) (st s : State) : Prop :=
  nodes_kept st s
  /\ (if locked then requirements_stay st s else requirements_kept st s)
  /\ graph_only_grows st s.

(** the requirements of a conanfile once [requirements()] has declared
    [declared] over the set [base]: every declared requirement is a new
    object, the first of them at the address [first], under the name of
    its reference *)
Definition declared_over (base : Requirements) (declared : list Requirement.t) (first : nat)
    : Requirements :=
  dict_update base
    (combine (map (fun r => name (Requirement.ref r)) declared)
             (seq first (List.length declared))).

(** the set [requirements()] is evaluated over: the one saved at the
    first evaluation, or, at the first evaluation, the one the conanfile
    holds *)
Definition evaluation_base (c : ConanFile.t) : Requirements :=
  match ConanFile._conan_original_requires c with
  | Some original => original
  | None => ConanFile.requires c
  end.

(** up to [requirements()], [_config_node] leaves the requirements of the
    node, the saved set and the name of the conanfile as they are *)
Definition before_requirements (node : nat) (st : State) (n : Node.t) (s : State) : Prop :=
  requirement_objects s = requirement_objects st
  /\ exists m, nth_error (node_objects s) node = Some m
       /\ ConanFile.requires (Node.conanfile m) = ConanFile.requires (Node.conanfile n)
       /\ ConanFile._conan_original_requires (Node.conanfile m) =
            ConanFile._conan_original_requires (Node.conanfile n)
       /\ ConanFile.display_name (Node.conanfile m) = ConanFile.display_name (Node.conanfile n).

(** the second evaluation of the requirements of A/1.0, see
    [Reevaluation] *)
Module SecondEvaluation.

Definition node_A : Node.t := nth 0 (node_objects Reevaluation.state) Scenario.no_node.

Definition configured : State :=
  match _config_node Reevaluation.hooks 0 None None Reevaluation.state with
  | Ok _ s => s
  | _ => Reevaluation.state
  end.

End SecondEvaluation.

(** between [st] and [s] the graph, the requests to the proxy and every
    node but [node] are left as they are *)
Definition only_node_touched (node : nat) (st s : State) : Prop :=
  dep_graph s = dep_graph st
  /\ recipe_requests s = recipe_requests st
  /\ forall b, b <> node -> nth_error (node_objects s) b = nth_error (node_objects st) b.

(** a computation that, when it raises, has added no node: neither a node
    object nor a node or an edge of the graph *)
Definition adds_nothing_when_it_raises {A} (c : M A) : Prop :=
  forall st,
    match c st with
    | Raise _ st' =>
        node_objects st' = node_objects st
        /\ DepsGraph.nodes (dep_graph st') = DepsGraph.nodes (dep_graph st)
        /\ DepsGraph.edges (dep_graph st') = DepsGraph.edges (dep_graph st)
    | _ => True
    end.

(** the nodes and the edges of the graph are [nodes] and [edges] *)
Definition graph_holds (nodes : list nat) (edges : list (nat * nat * nat)) (s : State)
    : Prop :=
  DepsGraph.nodes (dep_graph s) = nodes /\ DepsGraph.edges (dep_graph s) = edges.

(** the requirement [extend_build_requires] makes of a reference *)
Definition build_requirement (ref : ConanFileReference) : Requirement.t :=
  Requirement.set_build_require true (Requirement.init ref).

(** there are [k] node objects *)
Definition node_count_is (k : nat) (s : State) : Prop := List.length (node_objects s) = k.

(** the node [m] once it is connected to the node [other], whose name is
    [key]: [other] is in its closure and in its public dependencies *)
Definition connected (key : Name) (other : nat) (m : Node.t) : Node.t :=
  Node.set_public_deps (dict_set (Node.public_deps m) key other)
    (Node.set_public_closure (dict_set (Node.public_closure m) key other) m).

(** the new node of [expand_new_node] when the requesting node is
    connected to it: it is its own closure, under the name required, and
    the requesting node depends on it *)
Definition entered (node new_node : nat) (key : Name) (c : Node.t) : Node.t :=
  Node.set_inverse_closure (set_add node (Node.inverse_closure c))
    (Node.set_transitive_closure [(key, new_node)]
       (Node.set_public_closure [(key, new_node)] c)).

(** what [expand_new_node] does once the requesting node is connected to
    the new node *)
Definition after_connection (self : Collaborators) (fuel : nat)
    (expand_node : nat -> option Requirements -> option ConanFileReference ->
                   option DepsOptions -> option GraphLock -> M unit)
    (node require new_node : nat) (name : Name)
    (new_reqs : option Requirements) (new_options : DepsOptions)
    (graph_lock : option GraphLock) : M unit :=
  (r <- requirement_at require ;;
   (if Requirement.private r || Requirement.build_require r then
      n <- node_at node ;;
      update_node new_node (Node.set_public_deps (Node.public_closure n)) ;;
      update_node new_node (fun m =>
        Node.set_public_deps (dict_set (Node.public_deps m) name new_node) m)
    else
      update_node node (fun m =>
        Node.set_transitive_closure (dict_set (Node.transitive_closure m) name new_node) m) ;;
      n <- node_at node ;;
      update_node new_node (Node.set_public_deps (Node.public_deps n)) ;;
      update_node new_node (fun m =>
        Node.set_public_deps (dict_set (Node.public_deps m) name new_node) m) ;;
      n <- node_at node ;;
      for_each (Node.inverse_closure n) (fun dep_node =>
        connect_closure dep_node new_node)) ;;
   n <- node_at node ;;
   expand_node new_node new_reqs (Node.ref n) (Some new_options) graph_lock ;;
   r <- requirement_at require ;;
   when (negb (Requirement.private r) && negb (Requirement.build_require r))
     (created <- node_at new_node ;;
      update_node node (fun m =>
        Node.set_transitive_closure
          (dict_update (Node.transitive_closure m) (Node.transitive_closure created)) m)))%M.

(** what [expand_new_node] ends with: the expansion of the new node, and
    its transitive closure added to the one of the requesting node *)
Definition expansion_of_new_node
    (expand_node : nat -> option Requirements -> option ConanFileReference ->
                   option DepsOptions -> option GraphLock -> M unit)
    (node require new_node : nat) (down_ref : option ConanFileReference)
    (new_reqs : option Requirements) (new_options : DepsOptions)
    (graph_lock : option GraphLock) : M unit :=
  (expand_node new_node new_reqs down_ref (Some new_options) graph_lock ;;
   r <- requirement_at require ;;
   when (negb (Requirement.private r) && negb (Requirement.build_require r))
     (created <- node_at new_node ;;
      update_node node (fun m =>
        Node.set_transitive_closure
          (dict_update (Node.transitive_closure m) (Node.transitive_closure created)) m)))%M.

(** a root about to expand its public requirement of A: the consumer
    "app" depends on it already *)
Module PublicRequirement.
Import Scenario.

Definition lib : Node.t :=
  Node.set_inverse_closure [1]
    (Node.set_public_deps [(Some "lib", 0)]
       (Node.set_public_closure [(Some "lib", 0)]
          (Node.init (Some (pkg "lib" "1.0")) (conanfile "lib/1.0" [("A", 0)])))).

Definition app : Node.t :=
  Node.set_public_deps [(Some "app", 1); (Some "lib", 0)]
    (Node.set_public_closure [(Some "app", 1); (Some "lib", 0)]
       (Node.init (Some (pkg "app" "1.0")) (conanfile "app/1.0" []))).

Definition state : State :=
  mkState [lib; app] [public Examples.A] (DepsGraph.init None) [].

Definition self : Collaborators := cache Examples.diamond_cache.

Definition state_created : State :=
  match _create_new_node self 3 0 0 None state with
  | Ok _ s => s
  | _ => state
  end.

End PublicRequirement.

(** the requirement [require] of [node] is an edge of the graph, to a
    node that has [node] among its dependents *)
Definition recorded (node require : nat) (s : State) : Prop :=
  exists target t,
    In (node, target, require) (DepsGraph.edges (dep_graph s))
    /\ nth_error (node_objects s) target = Some t
    /\ In node (Node.inverse_closure t).

(** the root of Scenario A, entered in a new graph *)
Module Expansion.
Import Scenario.

Definition root : Node.t := Node.init None (conanfile "root" [("A", 0); ("B", 1)]).

Definition initial : State :=
  mkState [root] [public Examples.A; public Examples.B] (DepsGraph.init None) [].

Definition state : State :=
  match root_entry 0 None initial with
  | Ok _ s => s
  | _ => empty_state
  end.

(** the recipes of Scenario A with one version of C: the graph is built *)
Definition recipes : Cache :=
  [(Examples.A, recipe "A/1.0" [public Examples.C1]);
   (Examples.B, recipe "B/1.0" [public Examples.C1]);
   (Examples.C1, recipe "C/1.0" [])].

Definition self : Collaborators := cache recipes.

Definition evaluated : State :=
  match _get_node_requirements self 0 None None (Some []) None state with
  | Ok _ s => s
  | _ => state
  end.

Definition evaluated_root : Node.t := nth 0 (node_objects evaluated) no_node.

Definition built : State :=
  match _expand_node self 5 0 (Some []) None None None state with
  | Ok _ s => s
  | _ => state
  end.

End Expansion.

(** a computation that raises none of the exceptions [bad] *)
Definition never_raises {A} (bad : Exception -> Prop) (c : M A) : Prop :=
  forall st,
    match c st with
    | Raise e _ => ~ bad e
    | _ => True
    end.

(** the failure of reading the requirements from downstream where there
    are none ([None] under a lock): in [requires.update(down_reqs, ...)]
    and in [new_reqs.values()] *)
Definition missing_requirements (e : Exception) : Prop :=
  e = AttributeError "values" \/ e = AttributeError "down_reqs".

(** B closes a diamond on the node of C/1.0 with a requirement of
    C/latest, which is cached as an alias of C/1.0 *)
Module CachedDiamond.
Import Scenario.

Definition graph : DepsGraph.t :=
  DepsGraph.set_aliased [(Examples.Clatest, Examples.C1)] (DepsGraph.init None).

Definition state : State :=
  mkState [ClosingDiamond.consumer; ClosingDiamond.pinned] [public Examples.Clatest] graph [].

End CachedDiamond.

(** the flags of a requirement and its locked id, which nothing rewrites
    without a lock *)
Record flags_kept (r0 r : Requirement.t) : Prop := {
  flag_private : Requirement.private r = Requirement.private r0;
  flag_build_require : Requirement.build_require r = Requirement.build_require r0;
  flag_override : Requirement.override r = Requirement.override r0;
  flag_locked_id : Requirement.locked_id r = Requirement.locked_id r0
}.

Definition requirement_flags_kept (st s : State) : Prop :=
  forall a r0, nth_error (requirement_objects st) a = Some r0 ->
    exists r, nth_error (requirement_objects s) a = Some r /\ flags_kept r0 r.

(** ** Closing a diamond, up to the new expansion *)

(** the branch of [_expand_require] that closes a diamond is taken: the
    name required is no ancestor of [node] nor [node] itself, [previous]
    is the public dependency of [node] with that name, and the
    requirement is public or the name is in the closure of [node] *)
Definition closes_diamond (st : State) (node require previous : nat) : Prop :=
  exists r n,
    nth_error (requirement_objects st) require = Some r
    /\ nth_error (node_objects st) node = Some n
    /\ set_mem (Some (name (Requirement.ref r))) (Node.ancestors n)
       || py_eq (Some (name (Requirement.ref r))) (Node.name n) = false
    /\ dict_get (Node.public_deps n) (Some (name (Requirement.ref r))) = Some previous
    /\ (Requirement.build_require r || Requirement.private r)
       && negb (is_some (dict_get (Node.public_closure n) (Some (name (Requirement.ref r)))))
       = false.

(** [close_diamond] up to the test for a new expansion of the previous
    node: the cached alias, the conflict check, the ancestors, the
    closures that are connected and the edge *)
Definition connect_to_previous (self : Collaborators) (fuel : nat)
    (node require previous : nat) (graph_lock : option GraphLock) : M unit :=
  _resolve_cached_alias [require] ;;
  check_conflicts self fuel node require previous graph_lock ;;
  add_ancestors node previous ;;
  connect_closure node previous ;;
  add_edge node previous require ;;
  r <- requirement_at require ;;
  when (negb (Requirement.private r) && negb (Requirement.build_require r))
    (p <- node_at previous ;;
     update_node node (fun m =>
       Node.set_transitive_closure
         (dict_update (Node.transitive_closure m) (Node.transitive_closure p)) m) ;;
     p <- node_at previous ;;
     for_each (dict_values (Node.transitive_closure p)) (fun m =>
       connect_closure node m ;;
       n <- node_at node ;;
       for_each (Node.inverse_closure n) (fun dep_node => connect_closure dep_node m))).

(** the requirements from downstream name a package of the closure whose
    node has an incompatible reference, or the options from downstream
    give a package of the closure a value it is not configured with *)
Definition inputs_conflict (s : State) (closure : dict Name nat)
    (new_reqs : option Requirements) (new_options : DepsOptions) : Prop :=
  exists reqs,
    new_reqs = Some reqs
    /\ (requirement_conflicts s closure reqs \/ option_differs s closure new_options).

(** B requires D/1.0, which is a public dependency of B already; the
    node of D/1.0 has C/1.0 in its closure, and C/2.0 is required
    downstream of B *)
Module DiamondAgain.
Import Scenario.

Definition D := pkg "D" "1.0".

Definition consumer : Node.t :=
  Node.set_public_deps [(Some "D", 1)]
    (Node.init (Some Examples.B) (conanfile "B/1.0" [("D", 0)])).

Definition previous : Node.t :=
  Node.set_public_closure [(Some "D", 1); (Some "C", 2)]
    (Node.init (Some D) (conanfile "D/1.0" [])).

Definition state : State :=
  mkState [consumer; previous; ClosingDiamond.pinned]
          [public D; public Examples.C2] (DepsGraph.init None) [].

Definition new_reqs : Requirements := [("C", 1)].

Definition self : Collaborators := cache Examples.diamond_cache.

Definition connected : State :=
  match connect_to_previous self 1 0 0 1 None state with
  | Ok _ s => s
  | _ => state
  end.

Definition consumer_connected : Node.t := nth 0 (node_objects connected) no_node.

Definition previous_connected : Node.t := nth 1 (node_objects connected) no_node.

End DiamondAgain.

(** * Properties *)

(** ** The conflict detector *)

Lemma has_revision_some (r : ConanFileReference) (rev : string) :
  revision r = Some rev -> rev <> "" -> has_revision r = true.
Proof.
  unfold has_revision, truthy. intros -> Hne.
  destruct (String.eqb_spec rev ""); [contradiction | reflexivity].
Qed.

Lemma has_revision_none (r : ConanFileReference) :
  revision r = None -> has_revision r = false.
Proof. unfold has_revision. now intros ->. Qed.

Lemma version_equal_eqb (a b : ConanFileReference) :
  copy_clear_rev a = copy_clear_rev b ->
  py_ne (copy_clear_rev a) (copy_clear_rev b) = false.
Proof. intros ->. unfold py_ne. now rewrite py_eq_refl. Qed.

Lemma version_unequal_eqb (a b : ConanFileReference) :
  copy_clear_rev a <> copy_clear_rev b ->
  py_ne (copy_clear_rev a) (copy_clear_rev b) = true.
Proof. intros H. now apply py_ne_true. Qed.

Lemma conflict_when_versions_differ
    (previous_ref new_ref : ConanFileReference)
    (consumer_ref : option ConanFileReference) :
  copy_clear_rev previous_ref <> copy_clear_rev new_ref ->
  _conflicting_references previous_ref new_ref consumer_ref =
    inr match consumer_ref with
        | Some consumer => ConflictMessage consumer new_ref previous_ref
        | None => ConflictTrue
        end.
Proof.
  intros Hne. unfold _conflicting_references.
  rewrite (version_unequal_eqb _ _ Hne). now destruct consumer_ref.
Qed.

Lemma conflict_when_revisions_differ
    (previous_ref new_ref : ConanFileReference)
    (consumer_ref : option ConanFileReference) :
  copy_clear_rev previous_ref = copy_clear_rev new_ref ->
  has_revision previous_ref = true -> has_revision new_ref = true ->
  revision previous_ref <> revision new_ref ->
  _conflicting_references previous_ref new_ref consumer_ref =
    match consumer_ref with
    | Some consumer => inl (RevisionConflict consumer new_ref)
    | None => inr ConflictTrue
    end.
Proof.
  unfold _conflicting_references, has_revision. intros Heq Hp Hn Hrev.
  rewrite (version_equal_eqb _ _ Heq), Hp, Hn. simpl.
  apply py_ne_true in Hrev. now rewrite Hrev.
Qed.

Lemma no_conflict_without_revision
    (previous_ref new_ref : ConanFileReference)
    (consumer_ref : option ConanFileReference) :
  copy_clear_rev previous_ref = copy_clear_rev new_ref ->
  has_revision previous_ref = false \/ has_revision new_ref = false ->
  _conflicting_references previous_ref new_ref consumer_ref = inr ConflictFalse.
Proof.
  unfold _conflicting_references, has_revision.
  intros Heq [H | H]; rewrite (version_equal_eqb _ _ Heq), H; simpl;
    [reflexivity | now rewrite andb_false_r].
Qed.

(** C4, as stated, fails when the detector is not told the consumer, as
    in [_recurse]: two revisions of one version give the plain [True],
    the very result two versions give, and no conflict of its own. *)
Lemma revision_conflict_is_not_distinct_without_consumer :
  copy_clear_rev (Scenario.pkg_rev "C" "1.0" "r1") =
    copy_clear_rev (Scenario.pkg_rev "C" "1.0" "r2")
  /\ revision (Scenario.pkg_rev "C" "1.0" "r1") = Some "r1"
  /\ revision (Scenario.pkg_rev "C" "1.0" "r2") = Some "r2"
  /\ copy_clear_rev (Scenario.pkg "C" "1.0") <> copy_clear_rev (Scenario.pkg "C" "2.0")
  /\ _conflicting_references (Scenario.pkg_rev "C" "1.0" "r1")
                             (Scenario.pkg_rev "C" "1.0" "r2") None = inr ConflictTrue
  /\ _conflicting_references (Scenario.pkg "C" "1.0") (Scenario.pkg "C" "2.0") None =
       inr ConflictTrue.
Proof. repeat split; try reflexivity. discriminate. Qed.

(** C4 (amended): references that differ with the revisions ignored are
    a conflict; version-equal references that both carry a revision, and
    not the same one, are a conflict too: an error of its own, the
    revision conflict, when the detector is told the consumer, and the
    plain [True], as for two versions, when it is not; version-equal
    references one of which has no revision are no conflict. *)
Theorem conflicting_references_cases
    (previous_ref new_ref : ConanFileReference)
    (consumer_ref : option ConanFileReference) :
  (copy_clear_rev previous_ref <> copy_clear_rev new_ref ->
   reports_conflict (_conflicting_references previous_ref new_ref consumer_ref) = true
   /\ _conflicting_references previous_ref new_ref consumer_ref =
        inr match consumer_ref with
            | Some consumer => ConflictMessage consumer new_ref previous_ref
            | None => ConflictTrue
            end)
  /\
  (copy_clear_rev previous_ref = copy_clear_rev new_ref ->
   has_revision previous_ref = true -> has_revision new_ref = true ->
   revision previous_ref <> revision new_ref ->
   reports_conflict (_conflicting_references previous_ref new_ref consumer_ref) = true
   /\ _conflicting_references previous_ref new_ref consumer_ref =
        match consumer_ref with
        | Some consumer => inl (RevisionConflict consumer new_ref)
        | None => inr ConflictTrue
        end)
  /\
  (copy_clear_rev previous_ref = copy_clear_rev new_ref ->
   revision previous_ref = None \/ revision new_ref = None ->
   reports_conflict (_conflicting_references previous_ref new_ref consumer_ref) = false
   /\ _conflicting_references previous_ref new_ref consumer_ref = inr ConflictFalse).
Proof.
  split; [|split].
  - intros Hne. rewrite (conflict_when_versions_differ _ _ _ Hne).
    split; [|reflexivity]. now destruct consumer_ref.
  - intros Heq Hp Hn Hrev. rewrite (conflict_when_revisions_differ _ _ _ Heq Hp Hn Hrev).
    split; [|reflexivity]. now destruct consumer_ref.
  - intros Heq Hnone. rewrite (no_conflict_without_revision _ _ _ Heq).
    + split; reflexivity.
    + destruct Hnone as [H | H]; [left | right]; now apply has_revision_none.
Qed.

Lemma conflicting_references_cases_witness :
  _conflicting_references (Scenario.pkg "C" "1.0") (Scenario.pkg "C" "2.0")
                          (Some (Scenario.pkg "B" "1.0")) =
    inr (ConflictMessage (Scenario.pkg "B" "1.0") (Scenario.pkg "C" "2.0")
                         (Scenario.pkg "C" "1.0"))
  /\ _conflicting_references (Scenario.pkg_rev "C" "1.0" "r1")
                             (Scenario.pkg_rev "C" "1.0" "r2")
                             (Some (Scenario.pkg "B" "1.0")) =
       inl (RevisionConflict (Scenario.pkg "B" "1.0") (Scenario.pkg_rev "C" "1.0" "r2"))
  /\ _conflicting_references (Scenario.pkg_rev "C" "1.0" "r1") (Scenario.pkg "C" "1.0")
                             (Some (Scenario.pkg "B" "1.0")) = inr ConflictFalse.
Proof.
  split; [|split].
  - apply (proj1 (conflicting_references_cases
                    (Scenario.pkg "C" "1.0") (Scenario.pkg "C" "2.0")
                    (Some (Scenario.pkg "B" "1.0")))).
    discriminate.
  - apply (proj1 (proj2 (conflicting_references_cases
                           (Scenario.pkg_rev "C" "1.0" "r1")
                           (Scenario.pkg_rev "C" "1.0" "r2")
                           (Some (Scenario.pkg "B" "1.0")))));
      [reflexivity | reflexivity | reflexivity | discriminate].
  - apply (proj2 (proj2 (conflicting_references_cases
                           (Scenario.pkg_rev "C" "1.0" "r1") (Scenario.pkg "C" "1.0")
                           (Some (Scenario.pkg "B" "1.0")))));
      [reflexivity | right; reflexivity].
Defined.

(** ** Reading the store *)

Lemma node_at_ok (st : State) (a : nat) (n : Node.t) :
  nth_error (node_objects st) a = Some n -> node_at a st = Ok n st.
Proof. unfold node_at. now intros ->. Qed.

Lemma requirement_at_ok (st : State) (a : nat) (r : Requirement.t) :
  nth_error (requirement_objects st) a = Some r -> requirement_at a st = Ok r st.
Proof. unfold requirement_at. now intros ->. Qed.

Lemma bind_ok {A B} (c : M A) (k : A -> M B) (st st' : State) (a : A) :
  c st = Ok a st' -> bind c k st = k a st'.
Proof. unfold bind. now intros ->. Qed.


(** the conflict block of [_expand_require], once the three objects it
    reads are known *)
Lemma check_conflicts_start
    (self : Collaborators) (fuel node require previous : nat)
    (graph_lock : option GraphLock) (st : State) (n p : Node.t) (r : Requirement.t)
    (previous_ref : ConanFileReference) :
  nth_error (node_objects st) node = Some n ->
  nth_error (node_objects st) previous = Some p ->
  nth_error (requirement_objects st) require = Some r ->
  Node.ref p = Some previous_ref ->
  check_conflicts self fuel node require previous graph_lock st =
    match _conflicting_references previous_ref (Requirement.ref r) (Node.ref n) with
    | inl e => Raise e st
    | inr conflict =>
        if conflict_truthy conflict then
          match _resolve_recipe self fuel node require graph_lock None st with
          | Ok _ st2 =>
              (r' <- requirement_at require ;;
               if py_eq (Requirement.ref r) (Requirement.ref r') then
                 raise (ReferenceConflict conflict)
               else
                 n' <- node_at node ;;
                 p' <- node_at previous ;;
                 previous_ref' <- ref_of p' ;;
                 conflict' <- lift (_conflicting_references previous_ref' (Requirement.ref r')
                                                            (Node.ref n')) ;;
                 if conflict_truthy conflict' then raise (ReferenceConflict conflict')
                 else ret tt)%M st2
          | Raise e st2 => Raise e st2
          | OutOfFuel => OutOfFuel
          end
        else Ok tt st
    end.
Proof.
  intros Hn Hp Hr Hpr. unfold check_conflicts.
  rewrite (bind_ok _ _ _ _ _ (requirement_at_ok _ _ _ Hr)).
  rewrite (bind_ok _ _ _ _ _ (node_at_ok _ _ _ Hn)).
  rewrite (bind_ok _ _ _ _ _ (node_at_ok _ _ _ Hp)).
  unfold ref_of at 1. rewrite Hpr. unfold bind at 1, ret at 1.
  destruct (_conflicting_references previous_ref (Requirement.ref r) (Node.ref n))
    as [e | conflict]; simpl; [reflexivity|].
  unfold bind at 1, ret at 1.
  destruct (conflict_truthy conflict); [|reflexivity].
  unfold bind at 1. reflexivity.
Qed.


(** ** Properties kept by the computations *)

Section Preserves.
Variable P : State -> Prop.

Lemma preserves_ret {A} (a : A) : preserves P (ret a).
Proof. intros s H. exact H. Qed.

Lemma preserves_raise {A} (e : Exception) : preserves P (@raise A e).
Proof. intros s H. exact H. Qed.

Lemma preserves_out_of_fuel {A} : preserves P (@out_of_fuel A).
Proof. intros s H. exact I. Qed.

Lemma preserves_bind {A B} (c : M A) (k : A -> M B) :
  preserves P c -> (forall a, preserves P (k a)) -> preserves P (bind c k).
Proof.
  intros Hc Hk s H. unfold bind. specialize (Hc s H).
  destruct (c s) as [a s' | e s' |]; auto. now apply Hk.
Qed.

Lemma preserves_lift {A} (r : Exception + A) : preserves P (lift r).
Proof. destruct r; [apply preserves_raise | apply preserves_ret]. Qed.

Lemma preserves_for_each {A} (l : list A) (body : A -> M unit) :
  (forall x, preserves P (body x)) -> preserves P (for_each l body).
Proof.
  intros Hb. induction l as [|x l IH]; simpl.
  - apply preserves_ret.
  - apply preserves_bind; auto.
Qed.

Lemma preserves_any_of {A} (l : list A) (test : A -> M bool) :
  (forall x, preserves P (test x)) -> preserves P (any_of l test).
Proof.
  intros Hb. induction l as [|x l IH]; simpl.
  - apply preserves_ret.
  - apply preserves_bind; auto. intros [|]; auto. apply preserves_ret.
Qed.

Lemma preserves_when (b : bool) (c : M unit) :
  preserves P c -> preserves P (when b c).
Proof. intros H. destruct b; simpl; auto. apply preserves_ret. Qed.

Lemma preserves_modify (f : State -> State) :
  (forall s, P s -> P (f s)) -> preserves P (modify f).
Proof. intros Hf s H. simpl. auto. Qed.

Lemma preserves_node_at (a : nat) : preserves P (node_at a).
Proof. intros s H. unfold node_at. now destruct (nth_error (node_objects s) a). Qed.

Lemma preserves_requirement_at (a : nat) : preserves P (requirement_at a).
Proof.
  intros s H. unfold requirement_at. now destruct (nth_error (requirement_objects s) a).
Qed.

Lemma preserves_graph : preserves P graph.
Proof. intros s H. exact H. Qed.

Lemma preserves_get_state : preserves P get_state.
Proof. intros s H. exact H. Qed.

Lemma preserves_ref_of (n : Node.t) : preserves P (ref_of n).
Proof. unfold ref_of. destruct (Node.ref n); [apply preserves_ret | apply preserves_raise]. Qed.

End Preserves.

(** the structural steps of a proof that [P] is kept *)
Ltac preserve_step :=
  lazymatch goal with
  | |- preserves _ (ret _) => apply preserves_ret
  | |- preserves _ (raise _) => apply preserves_raise
  | |- preserves _ out_of_fuel => apply preserves_out_of_fuel
  | |- preserves _ (lift _) => apply preserves_lift
  | |- preserves _ (node_at _) => apply preserves_node_at
  | |- preserves _ (requirement_at _) => apply preserves_requirement_at
  | |- preserves _ graph => apply preserves_graph
  | |- preserves _ get_state => apply preserves_get_state
  | |- preserves _ (ref_of _) => apply preserves_ref_of
  | |- preserves _ (when _ _) => apply preserves_when
  | |- preserves _ (for_each _ _) => apply preserves_for_each; intros
  | |- preserves _ (any_of _ _) => apply preserves_any_of; intros
  | |- preserves _ (bind _ _) => apply preserves_bind; [|intros]
  | |- preserves _ (match ?x with _ => _ end) => destruct x
  end.

Ltac preserve := repeat preserve_step.

(** *** What does not touch the nodes *)

Definition nodes_are (l : list Node.t) (s : State) : Prop := node_objects s = l.

Lemma update_requirement_nodes (l : list Node.t) (a : nat)
    (f : Requirement.t -> Requirement.t) :
  preserves (nodes_are l) (update_requirement a f).
Proof.
  unfold update_requirement. preserve. apply preserves_modify. now intros s H.
Qed.

Lemma new_requirement_nodes (l : list Node.t) (r : Requirement.t) :
  preserves (nodes_are l) (new_requirement_object r).
Proof. intros s H. exact H. Qed.

Lemma update_graph_nodes (l : list Node.t) (f : DepsGraph.t -> DepsGraph.t) :
  preserves (nodes_are l) (update_graph f).
Proof. apply preserves_modify. now intros s H. Qed.

Lemma instantiate_nodes (l : list Node.t) (m : Manifest) :
  preserves (nodes_are l) (instantiate m).
Proof.
  unfold instantiate. apply preserves_bind; [|intros; apply preserves_ret].
  generalize (@nil (string * nat)). induction (manifest_requires m) as [|r rs IH]; intros acc.
  - apply preserves_ret.
  - apply preserves_bind; [apply new_requirement_nodes | intros; apply IH].
Qed.

Lemma resolve_recipe_nodes (self : Collaborators) (l : list Node.t) (fuel : nat) :
  forall current_node requirement graph_lock original_ref,
    preserves (nodes_are l)
      (_resolve_recipe self fuel current_node requirement graph_lock original_ref).
Proof.
  induction fuel as [|fuel IH]; intros; simpl.
  - apply preserves_out_of_fuel.
  - apply preserves_bind; [apply preserves_requirement_at | intros r].
    apply preserves_bind; [apply preserves_modify; now intros s H | intros _].
    destruct (get_recipe self (Requirement.ref r)) as [[[[path status] remote] new_ref]|];
      [|apply preserves_raise].
    apply preserves_bind; [preserve | intros _].
    destruct (load_conanfile self path (Requirement.ref r)) as [manifest|];
      [|apply preserves_raise].
    apply preserves_bind; [apply instantiate_nodes | intros loaded].
    match goal with
    | |- preserves _ (match ConanFile.alias ?c with _ => _ end) =>
        destruct (ConanFile.alias c)
    end; [|apply preserves_ret].
    apply preserves_bind; [apply update_graph_nodes | intros _].
    apply preserves_bind; [apply update_requirement_nodes | intros _].
    apply preserves_bind; [|intros _; apply IH].
    destruct original_ref; [apply update_graph_nodes | apply preserves_ret].
Qed.

(** ** Closing a diamond: conflicts *)

(** C1, as stated, fails for a consumer without a reference: what is
    raised then is [ConanException(True)], which names nothing; and when
    the alias points at another revision of the pinned version, the
    recheck raises the revision conflict, which does not name the pinned
    reference. *)
Lemma conflict_error_does_not_always_name_references :
  Scenario.raised Examples.consumer_conflict = Some (ReferenceConflict ConflictTrue)
  /\ Scenario.raised Examples.alias_to_other_revision =
       Some (RevisionConflict Examples.B Examples.C1r2).
Proof. split; vm_compute; reflexivity. Qed.

(** ** Cached aliases *)

Lemma nth_error_list_set_eq {A} (l : list A) (i : nat) (x y : A) :
  nth_error l i = Some y -> nth_error (list_set l i x) i = Some x.
Proof.
  revert i. induction l as [|z l IH]; intros [|i]; simpl; try discriminate; auto.
Qed.

Lemma nth_error_list_set_neq {A} (l : list A) (i j : nat) (x : A) :
  i <> j -> nth_error (list_set l i x) j = nth_error l j.
Proof.
  revert i j. induction l as [|z l IH]; intros [|i] [|j] H; simpl; auto; try congruence.
Qed.

Lemma length_list_set {A} (l : list A) (i : nat) (x : A) :
  List.length (list_set l i x) = List.length l.
Proof. revert i. induction l as [|z l IH]; intros [|i]; simpl; auto. Qed.

Lemma list_set_same {A} (l : list A) (i : nat) (x : A) :
  nth_error l i = Some x -> list_set l i x = l.
Proof.
  revert i. induction l as [|z l IH]; intros [|i]; simpl; try discriminate.
  - now intros [= ->].
  - intros H. f_equal. now apply IH.
Qed.

(** one round of the loop of [_resolve_cached_alias] *)
Lemma resolve_cached_alias_step (st : State) (require : nat) (r : Requirement.t) :
  nth_error (requirement_objects st) require = Some r ->
  (r <- requirement_at require ;;
   g <- graph ;;
   match dict_get (DepsGraph.aliased g) (Requirement.ref r) with
   | Some alias => update_requirement require (Requirement.set_ref alias)
   | None => ret tt
   end)%M st =
  Ok tt (set_requirement_objects
           (list_set (requirement_objects st) require
                     (cached_alias (DepsGraph.aliased (dep_graph st)) r)) st).
Proof.
  intros Hr. rewrite (bind_ok _ _ _ _ _ (requirement_at_ok _ _ _ Hr)). cbv beta.
  unfold graph at 1, bind at 1, cached_alias.
  destruct (dict_get (DepsGraph.aliased (dep_graph st)) (Requirement.ref r)) as [alias|].
  - unfold update_requirement.
    rewrite (bind_ok _ _ _ _ _ (requirement_at_ok _ _ _ Hr)). reflexivity.
  - unfold ret, set_requirement_objects. rewrite (list_set_same _ _ _ Hr).
    now destruct st.
Qed.

(** the loop, over requirement objects that are all different *)
Lemma resolve_cached_alias_loop (requires : list nat) :
  NoDup requires ->
  forall st,
    (forall a, In a requires -> a < List.length (requirement_objects st)) ->
    exists st',
      for_each requires (fun require =>
        r <- requirement_at require ;;
        g <- graph ;;
        match dict_get (DepsGraph.aliased g) (Requirement.ref r) with
        | Some alias => update_requirement require (Requirement.set_ref alias)
        | None => ret tt
        end)%M st = Ok tt st'
      /\ dep_graph st' = dep_graph st
      /\ node_objects st' = node_objects st
      /\ recipe_requests st' = recipe_requests st
      /\ List.length (requirement_objects st') = List.length (requirement_objects st)
      /\ (forall a r, In a requires -> nth_error (requirement_objects st) a = Some r ->
            nth_error (requirement_objects st') a =
              Some (cached_alias (DepsGraph.aliased (dep_graph st)) r))
      /\ (forall a, ~ In a requires ->
            nth_error (requirement_objects st') a = nth_error (requirement_objects st) a).
Proof.
  induction 1 as [|a requires Hnotin Hnodup IH]; intros st Hvalid.
  - exists st. simpl. repeat split; auto. intros a r [].
  - assert (Ha : a < List.length (requirement_objects st)) by (apply Hvalid; now left).
    destruct (nth_error (requirement_objects st) a) as [r|] eqn:Hr;
      [|apply nth_error_None in Hr; lia].
    simpl for_each.
    set (st1 := set_requirement_objects
                  (list_set (requirement_objects st) a
                            (cached_alias (DepsGraph.aliased (dep_graph st)) r)) st).
    destruct (IH st1) as (st' & Hrun & Hg & Hn & Hlog & Hlen & Hin & Hout).
    { intros b Hb. unfold st1. simpl. rewrite length_list_set. apply Hvalid. now right. }
    exists st'. split.
    { rewrite (bind_ok _ _ _ _ _ (resolve_cached_alias_step st a r Hr)). exact Hrun. }
    unfold st1 in *. simpl in *. rewrite length_list_set in Hlen.
    repeat split; auto.
    + intros b rb [<- | Hb] Hrb.
      * rewrite Hout by assumption.
        rewrite Hr in Hrb. injection Hrb as <-.
        now apply nth_error_list_set_eq with (y := r).
      * rewrite (Hin b rb Hb); [reflexivity|].
        rewrite nth_error_list_set_neq; [assumption|]. intros ->. contradiction.
    + intros b Hb. rewrite Hout by tauto.
      apply nth_error_list_set_neq. intros ->. apply Hb. now left.
Qed.

(** C6, as stated, fails: with L/a cached as an alias of L/b and L/b as
    an alias of L/c (the table a build through that chain ends with), a
    requirement of L/a is rewritten to L/b, which still has a cached
    target. *)
Lemma cached_alias_is_one_lookup :
  DepsGraph.aliased (dep_graph AliasChain.state) =
    [(AliasChain.La, AliasChain.Lb); (AliasChain.Lb, AliasChain.Lc)]
  /\ exists st',
       _resolve_cached_alias [AliasChain.again] AliasChain.state = Ok tt st'
       /\ option_map Requirement.ref (nth_error (requirement_objects st') AliasChain.again) =
            Some AliasChain.Lb
       /\ dict_get (DepsGraph.aliased (dep_graph st')) AliasChain.Lb = Some AliasChain.Lc.
Proof.
  split; [vm_compute; reflexivity|].
  eexists. split; [vm_compute; reflexivity|]. split; vm_compute; reflexivity.
Qed.

(** C6 (amended): the cached-alias step looks every requirement up in the
    alias table once: a requirement whose reference has a cached target
    is rewritten to that target, the others and the table are left as
    they are; the rewritten reference has no cached target left whenever
    the target is not itself a key of the table. *)
Theorem resolve_cached_alias_rewrites_once
    (st : State) (requires : list nat) :
  NoDup requires ->
  (forall a, In a requires -> a < List.length (requirement_objects st)) ->
  exists st',
    _resolve_cached_alias requires st = Ok tt st'
    /\ dep_graph st' = dep_graph st
    /\ (forall a r target,
          In a requires ->
          nth_error (requirement_objects st) a = Some r ->
          dict_get (DepsGraph.aliased (dep_graph st)) (Requirement.ref r) = Some target ->
          nth_error (requirement_objects st') a = Some (Requirement.set_ref target r)
          /\ (dict_get (DepsGraph.aliased (dep_graph st)) target = None ->
              forall r', nth_error (requirement_objects st') a = Some r' ->
                dict_get (DepsGraph.aliased (dep_graph st')) (Requirement.ref r') = None))
    /\ (forall a r,
          nth_error (requirement_objects st) a = Some r ->
          ~ In a requires \/
          dict_get (DepsGraph.aliased (dep_graph st)) (Requirement.ref r) = None ->
          nth_error (requirement_objects st') a = Some r).
Proof.
  intros Hnodup Hvalid. unfold _resolve_cached_alias, graph at 1, bind at 1.
  destruct (DepsGraph.aliased (dep_graph st)) as [|entry table] eqn:Htable.
  - exists st. split; [reflexivity|]. split; [reflexivity|]. split.
    + intros a r target _ _ Hget. discriminate.
    + intros a r Hr _. exact Hr.
  - rewrite <- Htable.
    destruct (resolve_cached_alias_loop requires Hnodup st Hvalid)
      as (st' & Hrun & Hg & _ & _ & _ & Hin & Hout).
    exists st'. split; [exact Hrun|]. split; [exact Hg|]. split.
    + intros a r target Ha Hr Hget.
      pose proof (Hin a r Ha Hr) as Hnew. unfold cached_alias in Hnew. rewrite Hget in Hnew.
      split; [exact Hnew|].
      intros Hleaf r' Hr'. rewrite Hnew in Hr'. injection Hr' as <-.
      rewrite Hg. exact Hleaf.
    + intros a r Hr [Ha | Hget].
      * now rewrite Hout.
      * destruct (in_dec Nat.eq_dec a requires) as [Ha | Ha].
        -- rewrite (Hin a r Ha Hr). unfold cached_alias. now rewrite Hget.
        -- now rewrite Hout.
Qed.

Lemma resolve_cached_alias_rewrites_once_witness :
  exists st',
    _resolve_cached_alias [AliasChain.again] AliasChain.state = Ok tt st'
    /\ nth_error (requirement_objects st') AliasChain.again =
         Some (Requirement.set_ref AliasChain.Lb (Scenario.public AliasChain.La)).
Proof.
  destruct (resolve_cached_alias_rewrites_once AliasChain.state [AliasChain.again])
    as (st' & Hrun & _ & Hin & _).
  - repeat constructor. intros [].
  - intros a [<- | []]. vm_compute. lia.
  - exists st'. split; [exact Hrun|].
    apply (Hin AliasChain.again (Scenario.public AliasChain.La) AliasChain.Lb).
    + now left.
    + vm_compute. reflexivity.
    + vm_compute. reflexivity.
Defined.

(** ** Sorting on a boolean key *)

Section SortFacts.
Context {A : Type} (key : A -> bool).

Lemma insert_last_false (x : A) (F T : list A) :
  key x = false ->
  (forall y, In y F -> key y = false) ->
  (forall y, In y T -> key y = true) ->
  insert_last key x (F ++ T) = (F ++ [x]) ++ T.
Proof.
  intros Hx HF HT. induction F as [|y F IH]; simpl.
  - destruct T as [|t T]; simpl; [reflexivity|].
    unfold key_le. rewrite (HT t (or_introl eq_refl)), Hx. reflexivity.
  - unfold key_le at 1. rewrite (HF y (or_introl eq_refl)). simpl.
    f_equal. apply IH. intros z Hz. apply HF. now right.
Qed.

Lemma insert_last_true (x : A) (l : list A) :
  key x = true -> insert_last key x l = l ++ [x].
Proof.
  intros Hx. induction l as [|y l IH]; simpl; [reflexivity|].
  unfold key_le at 1. rewrite Hx. destruct (key y); simpl; now rewrite IH.
Qed.

Lemma fold_insert_last (l F T : list A) :
  (forall y, In y F -> key y = false) ->
  (forall y, In y T -> key y = true) ->
  fold_left (fun sorted x => insert_last key x sorted) l (F ++ T) =
    (F ++ filter (fun x => negb (key x)) l) ++ (T ++ filter key l).
Proof.
  revert F T. induction l as [|x l IH]; intros F T HF HT; simpl.
  - now rewrite !app_nil_r.
  - destruct (key x) eqn:Hx; simpl.
    + rewrite insert_last_true by assumption. rewrite <- app_assoc.
      rewrite IH; auto.
      * f_equal. rewrite <- app_assoc. reflexivity.
      * intros y Hy. apply in_app_or in Hy as [Hy | [<- | []]]; auto.
    + rewrite insert_last_false by assumption.
      rewrite IH; auto.
      * rewrite <- (app_assoc F). reflexivity.
      * intros y Hy. apply in_app_or in Hy as [Hy | [<- | []]]; auto.
Qed.

(** the stable sort puts the items with key [False] first and keeps the
    order within each of the two groups *)
Lemma sort_by_key_partition (l : list A) :
  sort_by_key key l = filter (fun x => negb (key x)) l ++ filter key l.
Proof.
  unfold sort_by_key.
  apply (fold_insert_last l [] []); intros y [].
Qed.

Lemma partition_permutation (f : A -> bool) (l : list A) :
  Permutation l (filter f l ++ filter (fun x => negb (f x)) l).
Proof.
  induction l as [|x l IH]; simpl; [constructor|].
  destruct (f x); simpl.
  - now constructor.
  - now apply Permutation_cons_app.
Qed.

End SortFacts.

(** ** Dicts *)

Section DictFacts.
Context {K V : Type} `{PyEq K}.

Lemma dict_get_none (d : dict K V) (k : K) :
  ~ In k (dict_keys d) -> dict_get d k = None.
Proof.
  induction d as [|[k' v'] d IH]; simpl; [reflexivity|]. intros Hk.
  destruct (py_eq_spec k' k) as [-> | Hne]; [tauto|]. apply IH. tauto.
Qed.

Lemma dict_set_fresh (d : dict K V) (k : K) (v : V) :
  ~ In k (dict_keys d) -> dict_set d k v = d ++ [(k, v)].
Proof.
  induction d as [|[k' v'] d IH]; simpl; [reflexivity|]. intros Hk.
  destruct (py_eq_spec k' k) as [-> | Hne]; [tauto|]. f_equal. apply IH. tauto.
Qed.

Lemma dict_keys_set (d : dict K V) (k : K) (v : V) :
  dict_keys (dict_set d k v) =
    if set_mem k (dict_keys d) then dict_keys d else dict_keys d ++ [k].
Proof.
  unfold set_mem. induction d as [|[k' v'] d IH]; simpl; [reflexivity|].
  destruct (py_eq_spec k' k) as [-> | Hne].
  - now rewrite py_eq_refl.
  - destruct (py_eq_spec k k') as [-> | _]; [congruence|]. simpl. rewrite IH.
    now destruct (existsb (py_eq k) (dict_keys d)).
Qed.

Lemma set_mem_in (k : K) (s : list K) : set_mem k s = true <-> In k s.
Proof.
  unfold set_mem. rewrite existsb_exists. split.
  - intros (x & Hx & Heq). apply (proj1 (py_eq_true k x)) in Heq. now subst.
  - intros Hk. exists k. split; [assumption | apply py_eq_refl].
Qed.

Lemma set_mem_not_in (k : K) (s : list K) : set_mem k s = false <-> ~ In k s.
Proof.
  rewrite <- set_mem_in. destruct (set_mem k s); split; congruence.
Qed.

Lemma dict_set_keyed_once (d : dict K V) (k : K) (v : V) :
  NoDup (dict_keys d) -> NoDup (dict_keys (dict_set d k v)).
Proof.
  intros Hd. rewrite dict_keys_set. destruct (set_mem k (dict_keys d)) eqn:Hk; [assumption|].
  apply set_mem_not_in in Hk.
  apply NoDup_app; [assumption | repeat constructor; intros [] | ].
  intros x Hx [<- | []]. contradiction.
Qed.

Lemma dict_update_fresh (l d : dict K V) :
  NoDup (dict_keys (d ++ l)) -> dict_update d l = d ++ l.
Proof.
  unfold dict_update. revert d. induction l as [|[k v] l IH]; intros d Hd; simpl.
  - now rewrite app_nil_r.
  - assert (Hk : ~ In k (dict_keys d)).
    { unfold dict_keys in *. rewrite map_app in Hd. simpl in Hd.
      apply NoDup_remove_2 in Hd. intros Hin. apply Hd. apply in_or_app. now left. }
    rewrite (dict_set_fresh d k v Hk).
    rewrite IH; rewrite <- app_assoc; [reflexivity | assumption].
Qed.

(** [OrderedDict(items)] of items with different keys is these items *)
Lemma dict_of_items_keyed_once (items : list (K * V)) :
  NoDup (dict_keys items) -> dict_of_items items = items.
Proof. intros Hd. unfold dict_of_items. now rewrite dict_update_fresh. Qed.

End DictFacts.

(** the closure after the reordering of [extend_build_requires] *)
Lemma reorder_closure_partition (new_nodes : list nat) (closure : dict Name nat) :
  NoDup (dict_keys closure) ->
  reorder_closure new_nodes closure =
    filter (is_new new_nodes) closure ++ filter (is_old new_nodes) closure.
Proof.
  intros Hd. unfold reorder_closure. rewrite sort_by_key_partition.
  assert (Hnew : filter (fun x : Name * nat => negb (negb (set_mem (snd x) new_nodes))) closure
                 = filter (is_new new_nodes) closure).
  { apply filter_ext. intros x. unfold is_new. now rewrite negb_involutive. }
  rewrite Hnew. fold (is_old new_nodes).
  change (fun x : Name * nat => negb (set_mem (snd x) new_nodes)) with (is_old new_nodes).
  apply dict_of_items_keyed_once.
  unfold dict_keys.
  apply (Permutation_NoDup (l := map fst closure)); [|exact Hd].
  apply Permutation_map. apply (partition_permutation (is_new new_nodes)).
Qed.

(** ** Every closure holds each name once, throughout a build *)

Create HintDb closures.

Lemma Forall_list_set {A} (Q : A -> Prop) (l : list A) (i : nat) (x : A) :
  Forall Q l -> Q x -> Forall Q (list_set l i x).
Proof.
  intros Hl Hx. revert i. induction Hl as [|y l Hy Hl IH]; intros [|i]; simpl;
    constructor; auto.
Qed.

Lemma update_node_closures (a : nat) (f : Node.t -> Node.t) :
  (forall n, closure_keyed_once n -> closure_keyed_once (f n)) ->
  preserves closures_keyed_once (update_node a f).
Proof.
  intros Hf s Hs. unfold update_node, bind, node_at.
  destruct (nth_error (node_objects s) a) as [n|] eqn:Hn; [|exact Hs].
  simpl. apply Forall_list_set; [exact Hs|].
  apply Hf. unfold closures_keyed_once in Hs. rewrite Forall_forall in Hs.
  apply Hs. now apply nth_error_In with a.
Qed.

Lemma new_node_closures (n : Node.t) :
  closure_keyed_once n -> preserves closures_keyed_once (new_node_object n).
Proof.
  intros Hn s Hs. simpl. unfold closures_keyed_once. simpl.
  apply Forall_app. split; [exact Hs | now constructor].
Qed.

Lemma update_requirement_closures (a : nat) (f : Requirement.t -> Requirement.t) :
  preserves closures_keyed_once (update_requirement a f).
Proof.
  unfold update_requirement. preserve. apply preserves_modify. now intros s H.
Qed.

Lemma new_requirement_closures (r : Requirement.t) :
  preserves closures_keyed_once (new_requirement_object r).
Proof. intros s H. exact H. Qed.

Lemma update_graph_closures (f : DepsGraph.t -> DepsGraph.t) :
  preserves closures_keyed_once (update_graph f).
Proof. apply preserves_modify. now intros s H. Qed.

Lemma log_request_closures (r : ConanFileReference) :
  preserves closures_keyed_once (modify (log_recipe_request r)).
Proof. apply preserves_modify. now intros s H. Qed.

#[local] Hint Resolve update_requirement_closures new_requirement_closures
  update_graph_closures log_request_closures : closures.

(** a node update that leaves the public closure as it is, or adds an
    entry to it *)
Ltac closure_update :=
  apply update_node_closures;
  let n := fresh "n" in
  let Hn := fresh "Hn" in
  intros n Hn; unfold closure_keyed_once in *; simpl;
  first [ exact Hn
        | apply dict_set_keyed_once; exact Hn
        | repeat constructor; intros [] ].

Ltac closures :=
  preserve;
  try solve [ auto with closures | closure_update ].

Lemma connect_closure_closures (self other_node : nat) :
  preserves closures_keyed_once (connect_closure self other_node).
Proof. unfold connect_closure. closures. Qed.

Lemma add_node_closures (node : nat) :
  preserves closures_keyed_once (add_node node).
Proof. unfold add_node. closures. Qed.

Lemma add_edge_closures (src dst require : nat) :
  preserves closures_keyed_once (add_edge src dst require).
Proof. unfold add_edge. closures. Qed.

#[local] Hint Resolve connect_closure_closures add_node_closures add_edge_closures : closures.

Lemma requirement_items_closures (reqs : Requirements) :
  preserves closures_keyed_once (requirement_items reqs).
Proof. induction reqs as [|[nm a] reqs IH]; simpl; closures. Qed.

#[local] Hint Resolve requirement_items_closures : closures.

Lemma requirements_ne_closures (a b : Requirements) :
  preserves closures_keyed_once (requirements_ne a b).
Proof. unfold requirements_ne. closures. Qed.

Lemma requires_update_closures (self down_reqs : Requirements)
    (own_ref : option ConanFileReference) :
  preserves closures_keyed_once (requires_update self down_reqs own_ref).
Proof.
  unfold requires_update.
  generalize (match own_ref with
              | Some r => dict_pop down_reqs (name r)
              | None => down_reqs
              end).
  induction self as [|[nm a] self IH]; intros start; [closures|].
  apply preserves_bind; [closures | intros new_reqs'; apply IH].
Qed.

Lemma lock_node_closures (graph_lock : GraphLock) (node : nat) (requires : list nat)
    (build_requires : bool) :
  preserves closures_keyed_once (lock_node graph_lock node requires build_requires).
Proof. unfold lock_node. closures. Qed.

#[local] Hint Resolve requirements_ne_closures requires_update_closures
  lock_node_closures : closures.

Section BuilderClosures.
Variable self : Collaborators.

Lemma resolve_cached_alias_closures (requires : list nat) :
  preserves closures_keyed_once (_resolve_cached_alias requires).
Proof. unfold _resolve_cached_alias. closures. Qed.

Hint Resolve resolve_cached_alias_closures : closures.

Lemma resolve_ranges_closures (requires : list nat) (consumer : string) :
  preserves closures_keyed_once (_resolve_ranges self requires consumer).
Proof. unfold _resolve_ranges. closures. Qed.

Lemma run_hook_closures (node : nat) (hook : string)
    (body : ConanFile.t -> Failure + Options.t) :
  preserves closures_keyed_once (run_hook node hook body).
Proof. unfold run_hook. closures. Qed.

Lemma config_failure_closures {A} (node : nat) (r : Failure + A) :
  preserves closures_keyed_once (config_failure node r).
Proof. unfold config_failure. closures. Qed.

Lemma declare_requirement_closures (node : nat) (declared : Requirement.t) :
  preserves closures_keyed_once (declare_requirement node declared).
Proof. unfold declare_requirement. closures. Qed.

Hint Resolve resolve_ranges_closures run_hook_closures config_failure_closures
  declare_requirement_closures : closures.

Lemma config_node_closures (node : nat) (down_ref : option ConanFileReference)
    (down_options : option DepsOptions) :
  preserves closures_keyed_once (_config_node self node down_ref down_options).
Proof. unfold _config_node. closures. Qed.

Lemma check_evaluated_requires_closures (node : nat) (scope : string) :
  preserves closures_keyed_once (check_evaluated_requires node scope).
Proof. unfold check_evaluated_requires. closures. Qed.

Hint Resolve config_node_closures check_evaluated_requires_closures : closures.

Lemma get_node_requirements_closures (node : nat) (down_ref : option ConanFileReference)
    (down_options : option DepsOptions) (down_reqs : option Requirements)
    (graph_lock : option GraphLock) :
  preserves closures_keyed_once
    (_get_node_requirements self node down_ref down_options down_reqs graph_lock).
Proof. unfold _get_node_requirements. closures. Qed.

Lemma recurse_closures (closure : dict Name nat) (new_reqs : Requirements)
    (new_options : DepsOptions) :
  preserves closures_keyed_once (_recurse closure new_reqs new_options).
Proof. unfold _recurse. closures. Qed.

Lemma instantiate_closures (m : Manifest) :
  preserves closures_keyed_once (instantiate m).
Proof.
  unfold instantiate. apply preserves_bind; [|intros; apply preserves_ret].
  generalize (@nil (string * nat)). induction (manifest_requires m) as [|r rs IH]; intros acc.
  - apply preserves_ret.
  - apply preserves_bind; [apply new_requirement_closures | intros; apply IH].
Qed.

Hint Resolve get_node_requirements_closures recurse_closures instantiate_closures : closures.

Lemma resolve_recipe_closures (fuel : nat) :
  forall current_node requirement graph_lock original_ref,
    preserves closures_keyed_once
      (_resolve_recipe self fuel current_node requirement graph_lock original_ref).
Proof.
  induction fuel as [|fuel IH]; intros; simpl; closures.
Qed.

Hint Resolve resolve_recipe_closures : closures.

Lemma create_new_node_closures (fuel current_node requirement : nat)
    (graph_lock : option GraphLock) :
  preserves closures_keyed_once
    (_create_new_node self fuel current_node requirement graph_lock).
Proof.
  unfold _create_new_node. closures.
  all: apply new_node_closures; unfold closure_keyed_once;
    match goal with
    | |- context [match ?locked_id with Some _ => _ | None => _ end] => destruct locked_id
    end; simpl; constructor.
Qed.

Lemma check_conflicts_closures (fuel node require previous : nat)
    (graph_lock : option GraphLock) :
  preserves closures_keyed_once
    (check_conflicts self fuel node require previous graph_lock).
Proof. unfold check_conflicts. closures. Qed.

Lemma add_ancestors_closures (node previous : nat) :
  preserves closures_keyed_once (add_ancestors node previous).
Proof. unfold add_ancestors. closures. Qed.

Lemma need_recurse_closures (previous : nat) (new_reqs : option Requirements)
    (new_options : DepsOptions) (graph_lock : option GraphLock) :
  preserves closures_keyed_once (need_recurse previous new_reqs new_options graph_lock).
Proof. unfold need_recurse. closures. Qed.

Hint Resolve create_new_node_closures check_conflicts_closures add_ancestors_closures
  need_recurse_closures : closures.

Section ExpandRequireClosures.
Variable fuel : nat.
Variable expand_node :
  nat -> option Requirements -> option ConanFileReference -> option DepsOptions ->
  option GraphLock -> M unit.
Hypothesis expand_node_keeps_closures :
  forall node down_reqs down_ref down_options graph_lock,
    preserves closures_keyed_once
      (expand_node node down_reqs down_ref down_options graph_lock).

Hint Resolve expand_node_keeps_closures : closures.

Lemma expand_new_node_closures (node require : nat) (name : Name)
    (new_reqs : option Requirements) (new_options : DepsOptions)
    (graph_lock : option GraphLock) :
  preserves closures_keyed_once
    (expand_new_node self fuel expand_node node require name new_reqs new_options
                     graph_lock).
Proof. unfold expand_new_node. closures. Qed.

Lemma close_diamond_closures (node require previous : nat)
    (new_reqs : option Requirements) (new_options : DepsOptions)
    (graph_lock : option GraphLock) :
  preserves closures_keyed_once
    (close_diamond self fuel expand_node node require previous new_reqs new_options
                   graph_lock).
Proof. unfold close_diamond. closures. Qed.

Hint Resolve expand_new_node_closures close_diamond_closures : closures.

Lemma expand_require_closures (node require : nat) (new_reqs : option Requirements)
    (new_options : DepsOptions) (graph_lock : option GraphLock) :
  preserves closures_keyed_once
    (_expand_require self fuel expand_node node require new_reqs new_options graph_lock).
Proof. unfold _expand_require. closures. Qed.

End ExpandRequireClosures.

Lemma expand_node_closures (fuel : nat) :
  forall node down_reqs down_ref down_options graph_lock,
    preserves closures_keyed_once
      (_expand_node self fuel node down_reqs down_ref down_options graph_lock).
Proof.
  induction fuel as [|fuel IH]; intros; simpl; closures.
  apply expand_require_closures. exact IH.
Qed.

Lemma expand_build_requires_closures (fuel node : nat)
    (build_requires_refs : list ConanFileReference) (graph_lock : option GraphLock) :
  preserves closures_keyed_once
    (expand_build_requires self fuel node build_requires_refs graph_lock).
Proof.
  unfold expand_build_requires. closures.
  - induction build_requires_refs as [|ref refs IH]; closures.
  - apply expand_require_closures. apply expand_node_closures.
Qed.

End BuilderClosures.

(** ** Build requires come first in the closure *)

Lemma nodes_without_package_id_spec (st : State) :
  exists new_nodes,
    nodes_without_package_id st = Ok new_nodes st
    /\ forall a, In a new_nodes <-> newly_added st a.
Proof.
  eexists. split; [reflexivity|]. intros a. rewrite filter_In. unfold newly_added.
  split.
  - intros [Hin Hid]. split; [exact Hin|].
    destruct (nth_error (node_objects st) a) as [n|]; [|discriminate].
    exists n. split; [reflexivity|]. now destruct (Node.package_id n).
  - intros [Hin (n & Hn & Hid)]. split; [exact Hin|]. now rewrite Hn, Hid.
Qed.

Lemma update_node_ok (st : State) (a : nat) (f : Node.t -> Node.t) (n : Node.t) :
  nth_error (node_objects st) a = Some n ->
  update_node a f st = Ok tt (set_node_objects (list_set (node_objects st) a (f n)) st).
Proof.
  intros Hn. unfold update_node. now rewrite (bind_ok _ _ _ _ _ (node_at_ok _ _ _ Hn)).
Qed.

Lemma nth_error_partition {A} (f : A -> bool) (l : list A) (i j : nat) (x y : A) :
  nth_error (filter f l ++ filter (fun e => negb (f e)) l) i = Some x ->
  nth_error (filter f l ++ filter (fun e => negb (f e)) l) j = Some y ->
  f x = true -> f y = false -> i < j.
Proof.
  intros Hx Hy Hfx Hfy.
  destruct (Nat.lt_ge_cases i (List.length (filter f l))) as [Hi | Hi].
  - destruct (Nat.lt_ge_cases j (List.length (filter f l))) as [Hj | Hj]; [|lia].
    rewrite nth_error_app1 in Hy by assumption.
    apply nth_error_In, filter_In in Hy. destruct Hy as [_ Hy]. congruence.
  - rewrite nth_error_app2 in Hx by assumption.
    apply nth_error_In, filter_In in Hx. destruct Hx as [_ Hx].
    rewrite Hfx in Hx. discriminate.
Qed.

(** C8: once the build requirements of a node are expanded,
    [extend_build_requires] returns the nodes of the graph without a
    package id and leaves the closure of the node with the entries of
    these nodes first, then the other entries, each group in the order
    it had: a stable sort on "is not new". *)
Theorem build_requires_come_first
    (self : Collaborators) (fuel node : nat) (build_requires_refs : list ConanFileReference)
    (graph_lock : option GraphLock) (st expanded : State) (n : Node.t) :
  closures_keyed_once st ->
  expand_build_requires self fuel node build_requires_refs graph_lock st = Ok tt expanded ->
  nth_error (node_objects expanded) node = Some n ->
  exists new_nodes st' n',
    extend_build_requires self fuel node build_requires_refs graph_lock st = Ok new_nodes st'
    /\ (forall a, In a new_nodes <-> newly_added expanded a)
    /\ nth_error (node_objects st') node = Some n'
    /\ Node.public_closure n' =
         filter (is_new new_nodes) (Node.public_closure n) ++
         filter (is_old new_nodes) (Node.public_closure n)
    /\ (forall i j new old,
          nth_error (Node.public_closure n') i = Some new ->
          nth_error (Node.public_closure n') j = Some old ->
          is_new new_nodes new = true -> is_new new_nodes old = false -> i < j).
Proof.
  intros Hst Hexpand Hn.
  destruct (nodes_without_package_id_spec expanded) as (new_nodes & Hnew & Hspec).
  assert (Hkeys : closure_keyed_once n).
  { pose proof (expand_build_requires_closures self fuel node build_requires_refs graph_lock
                  st Hst) as H.
    rewrite Hexpand in H. unfold closures_keyed_once in H. rewrite Forall_forall in H.
    apply H. now apply nth_error_In with node. }
  set (n' := Node.set_public_closure (reorder_closure new_nodes (Node.public_closure n)) n).
  exists new_nodes, (set_node_objects (list_set (node_objects expanded) node n') expanded), n'.
  assert (Hclosure : Node.public_closure n' =
            filter (is_new new_nodes) (Node.public_closure n) ++
            filter (is_old new_nodes) (Node.public_closure n)).
  { unfold n'. simpl. now apply reorder_closure_partition. }
  split; [|split; [exact Hspec | split; [|split; [exact Hclosure|]]]].
  - unfold extend_build_requires.
    rewrite (bind_ok _ _ _ _ _ Hexpand). cbv beta. unfold order_closure.
    rewrite (bind_ok _ _ _ _ _ Hnew). cbv beta.
    rewrite (bind_ok _ _ _ _ _ (update_node_ok _ _ _ _ Hn)). reflexivity.
  - simpl. now apply nth_error_list_set_eq with (y := n).
  - intros i j new old Hi Hj Hnew_e Hold_e. rewrite Hclosure in Hi, Hj.
    now apply (nth_error_partition (is_new new_nodes) (Node.public_closure n) i j new old).
Qed.

Lemma build_requires_come_first_witness :
  exists new_nodes st' n',
    extend_build_requires (Scenario.cache BuildRequires.tools) 5 0 [BuildRequires.Z] None
                          BuildRequires.state = Ok new_nodes st'
    /\ nth_error (node_objects st') 0 = Some n'
    /\ dict_keys (Node.public_closure n') = [Some "Z"; None; Some "X"; Some "Y"].
Proof.
  destruct (build_requires_come_first
              (Scenario.cache BuildRequires.tools) 5 0 [BuildRequires.Z] None
              BuildRequires.state BuildRequires.expanded BuildRequires.root)
    as (new_nodes & st' & n' & Hrun & _ & Hn' & _ & _).
  - vm_compute. repeat constructor; simpl; intuition discriminate.
  - vm_compute. reflexivity.
  - vm_compute. reflexivity.
  - exists new_nodes, st', n'. split; [exact Hrun|]. split; [exact Hn'|].
    revert Hrun Hn'. vm_compute. intros [= <- <-] [= <-]. reflexivity.
Defined.

(** ** When the previous node is expanded again *)

(** a loop of tests that read the state and leave it as it is *)
Lemma any_of_pure {A} (l : list A) (test : A -> M bool) (st : State) :
  (forall x, In x l -> exists b, test x st = Ok b st) ->
  exists b, any_of l test st = Ok b st
    /\ (b = true <-> exists x, In x l /\ test x st = Ok true st).
Proof.
  induction l as [|x l IH]; intros Hpure; simpl.
  - exists false. split; [reflexivity|]. split; [discriminate | intros (x & [] & _)].
  - destruct (Hpure x (or_introl eq_refl)) as (bx & Hx).
    rewrite (bind_ok _ _ _ _ _ Hx). destruct bx.
    + exists true. split; [reflexivity|]. split; [|reflexivity].
      intros _. exists x. split; [now left | exact Hx].
    + destruct IH as (b & Hrun & Hb); [intros y Hy; apply Hpure; now right|].
      exists b. split; [exact Hrun|]. rewrite Hb. split.
      * intros (y & Hy & Hty). exists y. split; [now right | exact Hty].
      * intros (y & [<- | Hy] & Hty); [congruence|]. exists y. split; assumption.
Qed.

Lemma conflicting_references_without_consumer (previous_ref new_ref : ConanFileReference) :
  exists conflict,
    _conflicting_references previous_ref new_ref None = inr conflict
    /\ (conflict_truthy conflict = true <-> incompatible previous_ref new_ref).
Proof.
  unfold _conflicting_references, incompatible, has_revision.
  destruct (py_eq_spec (copy_clear_rev previous_ref) (copy_clear_rev new_ref)) as [Heq | Hne].
  - rewrite (version_equal_eqb _ _ Heq).
    destruct (truthy (revision previous_ref)), (truthy (revision new_ref)); simpl;
      try (exists ConflictFalse; split; [reflexivity|]; split; [discriminate|];
           intros [H | (H1 & H2 & _)]; [contradiction | discriminate]).
    destruct (py_eq_spec (revision previous_ref) (revision new_ref)) as [Hrev | Hrev];
      unfold py_ne.
    + rewrite (proj2 (py_eq_true _ _) Hrev). simpl. exists ConflictFalse.
      split; [reflexivity|]. split; [discriminate|].
      intros [H | (_ & _ & H)]; contradiction.
    + rewrite (proj2 (py_eq_false _ _) Hrev). simpl. exists ConflictTrue.
      split; [reflexivity|]. split; [|reflexivity]. intros _. right. auto.
  - rewrite (version_unequal_eqb _ _ Hne). exists ConflictTrue.
    split; [reflexivity|]. split; [|reflexivity]. intros _. now left.
Qed.

(** the test of the first loop of [_recurse] *)
Lemma recurse_requirement_test (st : State) (closure : dict Name nat) (req : nat)
    (r : Requirement.t) :
  nth_error (requirement_objects st) req = Some r ->
  (forall n, dict_get closure (Some (name (Requirement.ref r))) = Some n ->
     exists nd n_ref, nth_error (node_objects st) n = Some nd /\ Node.ref nd = Some n_ref) ->
  exists b,
    (r <- requirement_at req ;;
     match dict_get closure (Some (name (Requirement.ref r))) with
     | Some n =>
         nd <- node_at n ;;
         n_ref <- ref_of nd ;;
         conflict <- lift (_conflicting_references n_ref (Requirement.ref r) None) ;;
         ret (conflict_truthy conflict)
     | None => ret false
     end)%M st = Ok b st
    /\ (b = true <->
        exists n nd n_ref,
          dict_get closure (Some (name (Requirement.ref r))) = Some n
          /\ nth_error (node_objects st) n = Some nd
          /\ Node.ref nd = Some n_ref
          /\ incompatible n_ref (Requirement.ref r)).
Proof.
  intros Hr Hdefined. rewrite (bind_ok _ _ _ _ _ (requirement_at_ok _ _ _ Hr)). cbv beta.
  destruct (dict_get closure (Some (name (Requirement.ref r)))) as [n|].
  - destruct (Hdefined n eq_refl) as (nd & n_ref & Hnd & Href).
    rewrite (bind_ok _ _ _ _ _ (node_at_ok _ _ _ Hnd)). cbv beta.
    unfold ref_of. rewrite Href. unfold bind at 1, ret at 1.
    destruct (conflicting_references_without_consumer n_ref (Requirement.ref r))
      as (conflict & Hconflict & Htruthy).
    rewrite Hconflict. exists (conflict_truthy conflict). split; [reflexivity|].
    rewrite Htruthy. split.
    + intros H. exists n, nd, n_ref. auto.
    + intros (n' & nd' & n_ref' & [= <-] & Hnd' & Href' & H).
      rewrite Hnd in Hnd'. injection Hnd' as <-. rewrite Href in Href'.
      now injection Href' as <-.
  - exists false. split; [reflexivity|]. split; [discriminate|].
    intros (n & _ & _ & [=] & _).
Qed.

(** the test of the second loop of [_recurse], for one package *)
Lemma recurse_option_test (st : State) (closure : dict Name nat) (pkg_name : string)
    (options_values : OptionValues) :
  (forall n, dict_get closure (Some pkg_name) = Some n ->
     exists nd, nth_error (node_objects st) n = Some nd
       /\ forall option value, In (option, value) options_values ->
            exists current,
              dict_get (Options.values (ConanFile.options (Node.conanfile nd))) option =
                Some current) ->
  exists b,
    match dict_get closure (Some pkg_name) with
    | Some n =>
        (nd <- node_at n ;;
         let options := ConanFile.options (Node.conanfile nd) in
         any_of options_values (fun ov =>
           let '(option, value) := ov in
           current <- lift (Options.getattr options option) ;;
           ret (py_ne current value)))%M
    | None => ret false
    end st = Ok b st
    /\ (b = true <->
        exists n nd option value current,
          dict_get closure (Some pkg_name) = Some n
          /\ nth_error (node_objects st) n = Some nd
          /\ In (option, value) options_values
          /\ dict_get (Options.values (ConanFile.options (Node.conanfile nd))) option =
               Some current
          /\ current <> value).
Proof.
  intros Hdefined. destruct (dict_get closure (Some pkg_name)) as [n|].
  - destruct (Hdefined n eq_refl) as (nd & Hnd & Hoptions).
    rewrite (bind_ok _ _ _ _ _ (node_at_ok _ _ _ Hnd)). cbv beta zeta.
    assert (Htest : forall option value, In (option, value) options_values ->
              forall current,
                dict_get (Options.values (ConanFile.options (Node.conanfile nd))) option =
                  Some current ->
                (current <- lift (Options.getattr (ConanFile.options (Node.conanfile nd)) option) ;;
                 ret (py_ne current value))%M st = Ok (py_ne current value) st).
    { intros option value _ current Hcurrent. unfold Options.getattr. now rewrite Hcurrent. }
    destruct (any_of_pure options_values
                (fun ov => let '(option, value) := ov in
                   (current <- lift (Options.getattr (ConanFile.options (Node.conanfile nd)) option) ;;
                    ret (py_ne current value))%M) st) as (b & Hrun & Hb).
    { intros [option value] Hin. destruct (Hoptions option value Hin) as (current & Hcurrent).
      eexists. now apply Htest with (current := current). }
    exists b. split; [exact Hrun|]. rewrite Hb. split.
    + intros ([option value] & Hin & Hov).
      destruct (Hoptions option value Hin) as (current & Hcurrent).
      rewrite (Htest option value Hin current Hcurrent) in Hov. injection Hov as Hov.
      exists n, nd, option, value, current. repeat split; auto.
      now apply py_ne_true.
    + intros (n' & nd' & option & value & current & [= <-] & Hnd' & Hin & Hcurrent & Hne).
      rewrite Hnd in Hnd'. injection Hnd' as <-.
      exists (option, value). split; [exact Hin|].
      rewrite (Htest option value Hin current Hcurrent). f_equal. now apply py_ne_true.
  - exists false. split; [reflexivity|]. split; [discriminate|].
    intros (n & _ & _ & _ & _ & [=] & _).
Qed.

Lemma recurse_spec (st : State) (closure : dict Name nat) (new_reqs : Requirements)
    (new_options : DepsOptions) :
  recurse_defined st closure new_reqs new_options ->
  exists b,
    _recurse closure new_reqs new_options st = Ok b st
    /\ (b = true <->
        requirement_conflicts st closure new_reqs \/ option_differs st closure new_options).
Proof.
  intros [Hreqs Hoptions]. unfold _recurse.
  assert (Hvalues : forall a, In a (dict_values new_reqs) -> exists nm, In (nm, a) new_reqs).
  { intros a Ha. unfold dict_values in Ha. apply in_map_iff in Ha as ([nm a'] & <- & Hin).
    now exists nm. }
  destruct (any_of_pure (dict_values new_reqs)
              (fun req =>
                 (r <- requirement_at req ;;
                  match dict_get closure (Some (name (Requirement.ref r))) with
                  | Some n =>
                      nd <- node_at n ;;
                      n_ref <- ref_of nd ;;
                      conflict <- lift (_conflicting_references n_ref (Requirement.ref r) None) ;;
                      ret (conflict_truthy conflict)
                  | None => ret false
                  end)%M) st) as (found & Hfound & Hfound_iff).
  { intros a Ha. destruct (Hvalues a Ha) as (nm & Hin).
    destruct (Hreqs nm a Hin) as (r & Hr & Hnodes).
    destruct (recurse_requirement_test st closure a r Hr Hnodes) as (b & Hb & _).
    now exists b. }
  rewrite (bind_ok _ _ _ _ _ Hfound). cbv beta.
  assert (Hconflicts : found = true <-> requirement_conflicts st closure new_reqs).
  { rewrite Hfound_iff. unfold requirement_conflicts. split.
    - intros (a & Ha & Hrun). destruct (Hvalues a Ha) as (nm & Hin).
      destruct (Hreqs nm a Hin) as (r & Hr & Hnodes).
      destruct (recurse_requirement_test st closure a r Hr Hnodes) as (b & Hb & Hb_iff).
      rewrite Hb in Hrun. injection Hrun as ->.
      destruct (proj1 Hb_iff eq_refl) as (n & nd & n_ref & H1 & H2 & H3 & H4).
      exists nm, a, r, n, nd, n_ref. auto 10.
    - intros (nm & a & r & n & nd & n_ref & Hin & Hr & H1 & H2 & H3 & H4).
      exists a. split; [unfold dict_values; apply in_map_iff; now exists (nm, a)|].
      destruct (Hreqs nm a Hin) as (r' & Hr' & Hnodes).
      rewrite Hr in Hr'. injection Hr' as <-.
      destruct (recurse_requirement_test st closure a r Hr Hnodes) as (b & Hb & Hb_iff).
      rewrite Hb. f_equal. apply Hb_iff. exists n, nd, n_ref. auto. }
  destruct found.
  - exists true. split; [reflexivity|]. split; [|reflexivity]. intros _. left.
    now apply Hconflicts.
  - destruct (any_of_pure new_options
                (fun item =>
                   let '(pkg_name, options_values) := item in
                   match dict_get closure (Some pkg_name) with
                   | Some n =>
                       (nd <- node_at n ;;
                        let options := ConanFile.options (Node.conanfile nd) in
                        any_of options_values (fun ov =>
                          let '(option, value) := ov in
                          current <- lift (Options.getattr options option) ;;
                          ret (py_ne current value)))%M
                   | None => ret false
                   end) st) as (b & Hrun & Hb).
    { intros [pkg_name options_values] Hin.
      destruct (recurse_option_test st closure pkg_name options_values) as (b & Hb & _).
      - intros n Hn. apply (Hoptions pkg_name options_values n Hin Hn).
      - now exists b. }
    exists b. split; [exact Hrun|]. rewrite Hb. unfold option_differs. split.
    + intros ([pkg_name options_values] & Hin & Hitem). right.
      destruct (recurse_option_test st closure pkg_name options_values) as (b' & Hb' & Hb'_iff).
      { intros n Hn. apply (Hoptions pkg_name options_values n Hin Hn). }
      cbv beta iota zeta in Hitem, Hb'. rewrite Hb' in Hitem. injection Hitem as ->.
      destruct (proj1 Hb'_iff eq_refl) as (n & nd & option & value & current & H).
      exists pkg_name, options_values, n, nd, option, value, current. intuition.
    + intros [Hreq | (pkg_name & options_values & n & nd & option & value & current & Hin & H)].
      { apply Hconflicts in Hreq. discriminate. }
      exists (pkg_name, options_values). split; [exact Hin|].
      destruct (recurse_option_test st closure pkg_name options_values) as (b' & Hb' & Hb'_iff).
      { intros n' Hn'. apply (Hoptions pkg_name options_values n' Hin Hn'). }
      cbv beta iota zeta in Hb' |- *. rewrite Hb'. f_equal. apply Hb'_iff.
      exists n, nd, option, value, current. intuition.
Qed.

(** ** Requirements that differ between two evaluations *)





(** ** Creating a node *)

Lemma bind_inv_ok {A B} (c : M A) (k : A -> M B) (st st' : State) (b : B) :
  bind c k st = Ok b st' -> exists a s1, c st = Ok a s1 /\ k a s1 = Ok b st'.
Proof.
  unfold bind. destruct (c st) as [a s1 | e s1 |]; try discriminate.
  intros H. now exists a, s1.
Qed.

Lemma nth_error_list_set {A} (l : list A) (i j : nat) (x y : A) :
  nth_error l j = Some y ->
  nth_error (list_set l i x) j = Some (if Nat.eqb i j then x else y).
Proof.
  intros Hy. destruct (Nat.eqb_spec i j) as [-> | Hne].
  - now apply nth_error_list_set_eq with (y := y).
  - now rewrite nth_error_list_set_neq.
Qed.

Lemma set_ref_flags (require : nat) (pv br : bool) (a : nat) (x : ConanFileReference) :
  preserves (flags_are require pv br) (update_requirement a (Requirement.set_ref x)).
Proof.
  intros s (r & Hr & Hpv & Hbr). unfold update_requirement, bind, requirement_at.
  destruct (nth_error (requirement_objects s) a) as [ra|] eqn:Ha; [|now exists r].
  simpl. unfold flags_are. simpl.
  rewrite (nth_error_list_set _ a require _ r Hr).
  destruct (Nat.eqb_spec a require) as [-> | Hne].
  - rewrite Hr in Ha. injection Ha as <-. eexists. split; [reflexivity|]. now split.
  - exists r. now split.
Qed.

Lemma new_requirement_flags (require : nat) (pv br : bool) (r : Requirement.t) :
  preserves (flags_are require pv br) (new_requirement_object r).
Proof.
  intros s (r0 & Hr & Hpv & Hbr). simpl. exists r0. split; [|now split].
  simpl. rewrite nth_error_app1; [assumption|]. apply nth_error_Some. congruence.
Qed.

Lemma update_graph_flags (require : nat) (pv br : bool) (f : DepsGraph.t -> DepsGraph.t) :
  preserves (flags_are require pv br) (update_graph f).
Proof. apply preserves_modify. now intros s H. Qed.

Lemma instantiate_flags (require : nat) (pv br : bool) (m : Manifest) :
  preserves (flags_are require pv br) (instantiate m).
Proof.
  unfold instantiate. apply preserves_bind; [|intros; apply preserves_ret].
  generalize (@nil (string * nat)). induction (manifest_requires m) as [|r rs IH]; intros acc.
  - apply preserves_ret.
  - apply preserves_bind; [apply new_requirement_flags | intros; apply IH].
Qed.

Lemma resolve_recipe_flags (self : Collaborators) (require : nat) (pv br : bool)
    (fuel : nat) :
  forall current_node requirement graph_lock original_ref,
    preserves (flags_are require pv br)
      (_resolve_recipe self fuel current_node requirement graph_lock original_ref).
Proof.
  induction fuel as [|fuel IH]; intros; simpl; preserve;
    try solve [ apply preserves_modify; now intros s H
              | apply instantiate_flags
              | apply update_graph_flags
              | apply set_ref_flags
              | apply IH ].
Qed.

Lemma add_node_new (st : State) (l : list Node.t) (created : Node.t) :
  node_objects st = l ++ [created] ->
  exists st' i,
    add_node (List.length l) st = Ok tt st'
    /\ node_objects st' = l ++ [match Node.id created with
                                | Some _ => created
                                | None => Node.set_id i created
                                end]
    /\ requirement_objects st' = requirement_objects st.
Proof.
  intros Hnodes. unfold add_node.
  assert (Hat : nth_error (node_objects st) (List.length l) = Some created).
  { rewrite Hnodes, nth_error_app2, Nat.sub_diag; [reflexivity | lia]. }
  rewrite (bind_ok _ _ _ _ _ (node_at_ok _ _ _ Hat)). cbv beta.
  unfold graph at 1, bind at 1.
  assert (Hset : forall x, list_set (l ++ [created]) (List.length l) x = l ++ [x]).
  { intros x. clear. induction l as [|y l IH]; simpl; [reflexivity | now rewrite IH]. }
  destruct (Node.id created) as [i|].
  - eexists. exists 0. split; [reflexivity|]. simpl. now split.
  - unfold bind. rewrite (update_node_ok _ _ _ _ Hat). unfold update_graph, modify.
    eexists. exists (DepsGraph._node_counter (dep_graph st)).
    split; [reflexivity|]. simpl. rewrite Hnodes, Hset. now split.
Qed.

(** [_create_new_node]: the nodes there were are left as they are, and one
    node is added, whose ancestors are the ancestors of the requesting
    node plus the name of that node *)
Lemma create_new_node_spec (self : Collaborators) (fuel current_node requirement : nat)
    (graph_lock : option GraphLock) (st st' : State) (new_node : nat) (cur : Node.t)
    (r : Requirement.t) :
  nth_error (node_objects st) current_node = Some cur ->
  nth_error (requirement_objects st) requirement = Some r ->
  _create_new_node self fuel current_node requirement graph_lock st = Ok new_node st' ->
  exists created r',
    new_node = List.length (node_objects st)
    /\ node_objects st' = node_objects st ++ [created]
    /\ Node.ancestors created = set_add (Node.name cur) (Node.ancestors cur)
    /\ Node.public_deps created = []
    /\ Node.public_closure created = []
    /\ Node.inverse_closure created = []
    /\ nth_error (requirement_objects st') requirement = Some r'
    /\ Requirement.private r' = Requirement.private r
    /\ Requirement.build_require r' = Requirement.build_require r.
Proof.
  intros Hcur Hr Hrun. unfold _create_new_node in Hrun.
  apply bind_inv_ok in Hrun as (resolved & s1 & Hresolve & Hrun).
  destruct resolved as [[[[new_ref dep_conanfile] recipe_status] remote] locked_id].
  assert (Hnodes : node_objects s1 = node_objects st).
  { pose proof (resolve_recipe_nodes self (node_objects st) fuel current_node requirement
                  graph_lock None st eq_refl) as H.
    now rewrite Hresolve in H. }
  assert (Hflags : flags_are requirement (Requirement.private r) (Requirement.build_require r) s1).
  { pose proof (resolve_recipe_flags self requirement (Requirement.private r)
                  (Requirement.build_require r) fuel current_node requirement graph_lock None
                  st) as H.
    rewrite Hresolve in H. apply H. exists r. auto. }
  destruct Hflags as (r1 & Hr1 & Hpv & Hbr).
  rewrite (bind_ok _ _ _ _ _ (requirement_at_ok _ _ _ Hr1)) in Hrun. cbv beta in Hrun.
  rewrite <- Hnodes in Hcur.
  rewrite (bind_ok _ _ _ _ _ (node_at_ok _ _ _ Hcur)) in Hrun. cbv beta zeta in Hrun.
  unfold new_node_object at 1, bind at 1 in Hrun.
  match type of Hrun with
  | context [node_objects s1 ++ [?c]] => set (created := c) in *
  end.
  set (s2 := set_node_objects (node_objects s1 ++ [created]) s1) in *.
  destruct (add_node_new s2 (node_objects s1) created eq_refl) as (s3 & i & Hadd & Hnodes3 & Hreqs3).
  rewrite (bind_ok _ _ _ _ _ Hadd) in Hrun. cbv beta in Hrun.
  unfold add_edge, update_graph, modify, bind, ret in Hrun. injection Hrun as <- <-.
  exists (match Node.id created with Some _ => created | None => Node.set_id i created end), r1.
  simpl. rewrite Hnodes3, Hreqs3, Hnodes. simpl.
  repeat split; auto;
    unfold created; destruct locked_id; reflexivity.
Qed.

(** ** Ancestors *)

Section SetFacts.
Context {K : Type} `{PyEq K}.

Lemma set_add_in (k x : K) (s : list K) : In x (set_add k s) <-> In x s \/ x = k.
Proof.
  unfold set_add. destruct (set_mem k s) eqn:Hk.
  - apply set_mem_in in Hk. split; [auto | intros [Hx | ->]; assumption].
  - rewrite in_app_iff. simpl. intuition.
Qed.

Lemma set_update_in (s other : list K) (x : K) :
  In x (set_update s other) <-> In x s \/ In x other.
Proof.
  unfold set_update. revert s. induction other as [|k other IH]; intros s; simpl.
  - tauto.
  - rewrite IH, set_add_in. intuition.
Qed.

End SetFacts.

Lemma set_ancestors_twice (a b : list Name) (m : Node.t) :
  Node.set_ancestors a (Node.set_ancestors b m) = Node.set_ancestors a m.
Proof. reflexivity. Qed.

Lemma set_ancestors_same (m : Node.t) : Node.set_ancestors (Node.ancestors m) m = m.
Proof. now destruct m. Qed.

(** the loop of [add_ancestors] *)
Lemma add_ancestors_loop (union : list Name) (closure : list nat) :
  forall st,
    (forall a, In a closure -> a < List.length (node_objects st)) ->
    exists st',
      for_each closure (fun m =>
        update_node m (fun o =>
          Node.set_ancestors (set_update (Node.ancestors o) union) o)) st = Ok tt st'
      /\ List.length (node_objects st') = List.length (node_objects st)
      /\ requirement_objects st' = requirement_objects st
      /\ dep_graph st' = dep_graph st
      /\ forall a m, nth_error (node_objects st) a = Some m ->
           exists ancestors,
             nth_error (node_objects st') a = Some (Node.set_ancestors ancestors m)
             /\ (In a closure ->
                 forall x, In x ancestors <-> In x (Node.ancestors m) \/ In x union)
             /\ (~ In a closure -> ancestors = Node.ancestors m).
Proof.
  induction closure as [|a0 closure IH]; intros st Hvalid.
  - exists st. simpl. do 4 (split; [reflexivity|]). intros a m Hm.
    exists (Node.ancestors m). rewrite set_ancestors_same.
    split; [exact Hm|]. split; [intros [] | reflexivity].
  - assert (Ha0 : a0 < List.length (node_objects st)) by (apply Hvalid; now left).
    destruct (nth_error (node_objects st) a0) as [m0|] eqn:Hm0;
      [|apply nth_error_None in Hm0; lia].
    simpl for_each.
    rewrite (bind_ok _ _ _ _ _ (update_node_ok _ _ _ _ Hm0)).
    set (m0' := Node.set_ancestors (set_update (Node.ancestors m0) union) m0).
    set (st1 := set_node_objects (list_set (node_objects st) a0 m0') st).
    destruct (IH st1) as (st' & Hrun & Hlen & Hreqs & Hgraph & Hnodes).
    { intros a Ha. unfold st1. simpl. rewrite length_list_set. apply Hvalid. now right. }
    exists st'. split; [exact Hrun|]. unfold st1 in Hlen, Hreqs, Hgraph. simpl in Hlen, Hreqs, Hgraph.
    rewrite length_list_set in Hlen. do 3 (split; [assumption|]).
    intros a m Hm.
    pose proof (nth_error_list_set (node_objects st) a0 a m0' m Hm) as Hm1.
    destruct (Nat.eqb_spec a0 a) as [<- | Hne].
    + rewrite Hm0 in Hm. injection Hm as <-.
      destruct (Hnodes a0 m0' Hm1) as (ancestors & Hfinal & Hin & Hout).
      exists ancestors. split; [exact Hfinal|].
      split; [|intros Hnot; exfalso; apply Hnot; now left].
      intros _ x. destruct (in_dec Nat.eq_dec a0 closure) as [Hc | Hc].
      * rewrite (Hin Hc x). unfold m0'. simpl. rewrite set_update_in.
        split; [intros [[Hx | Hx] | Hx] | intros [Hx | Hx]]; auto.
      * rewrite (Hout Hc). unfold m0'. simpl. apply set_update_in.
    + destruct (Hnodes a m Hm1) as (ancestors & Hfinal & Hin & Hout).
      exists ancestors. split; [exact Hfinal|]. split.
      * intros [Heq | Hc]; [contradiction|]. exact (Hin Hc).
      * intros Hnot. apply Hout. intros Hc. apply Hnot. now right.
Qed.

(** C5, as stated, fails: P requires X/1.0 privately, and the root
    requires P and then, privately, X/2.0, which requires P.  Closing that diamond
    adds the ancestors and the name of the node of X/2.0 to the closure
    of P, where the node of X/1.0 is: it ends with its own name among
    its ancestors. *)
Lemma node_among_its_own_ancestors :
  exists s n,
    Scenario.final_state OwnName.built = Some s
    /\ Scenario.raised OwnName.built = None
    /\ nth_error (node_objects s) 2 = Some n
    /\ Node.ref n = Some OwnName.X1
    /\ In (Node.name n) (Node.ancestors n).
Proof.
  eexists. eexists. split; [vm_compute; reflexivity|].
  split; [vm_compute; reflexivity|].
  split; [vm_compute; reflexivity|].
  split; [reflexivity|].
  vm_compute. auto.
Qed.

(** C5 (amended): a node is created with the ancestors of the requesting
    node plus the name of that node, which do not hold its own name when
    its reference keeps the name that passed the cycle check; closing a
    diamond adds the ancestors and the name of the requesting node to
    every node of the closure of the previous node, so that afterwards
    such a node has its own name among its ancestors exactly when it had
    before, or its name is the name of the requesting node or of one of
    its ancestors; the other nodes keep their ancestors. *)
Theorem ancestors_of_created_and_reached_nodes :
  (forall (self : Collaborators) (fuel node require : nat) (graph_lock : option GraphLock)
          (st st' : State) (n : Node.t) (r : Requirement.t) (new_node : nat),
     nth_error (node_objects st) node = Some n ->
     nth_error (requirement_objects st) require = Some r ->
     set_mem (Some (name (Requirement.ref r))) (Node.ancestors n)
       || py_eq (Some (name (Requirement.ref r))) (Node.name n) = false ->
     _create_new_node self fuel node require graph_lock st = Ok new_node st' ->
     exists created,
       nth_error (node_objects st') new_node = Some created
       /\ (forall x, In x (Node.ancestors created) <-> In x (Node.ancestors n) \/ x = Node.name n)
       /\ (Node.name created = Some (name (Requirement.ref r)) ->
           ~ In (Node.name created) (Node.ancestors created)))
  /\
  (forall (node previous : nat) (st : State) (n p : Node.t),
     nth_error (node_objects st) node = Some n ->
     nth_error (node_objects st) previous = Some p ->
     (forall a, In a (dict_values (Node.public_closure p)) ->
        a < List.length (node_objects st)) ->
     exists st',
       add_ancestors node previous st = Ok tt st'
       /\ forall a m, nth_error (node_objects st) a = Some m ->
            exists m',
              nth_error (node_objects st') a = Some m'
              /\ Node.name m' = Node.name m
              /\ (In a (dict_values (Node.public_closure p)) ->
                  (forall x, In x (Node.ancestors m') <->
                             In x (Node.ancestors m) \/ In x (Node.ancestors n)
                             \/ x = Node.name n)
                  /\ (In (Node.name m') (Node.ancestors m') <->
                      In (Node.name m) (Node.ancestors m)
                      \/ In (Node.name m) (Node.ancestors n)
                      \/ Node.name m = Node.name n))
              /\ (~ In a (dict_values (Node.public_closure p)) -> m' = m)).
Proof.
  split.
  - intros self fuel node require graph_lock st st' n r new_node Hn Hr Hcheck Hrun.
    destruct (create_new_node_spec self fuel node require graph_lock st st' new_node n r
                Hn Hr Hrun) as (created & r' & -> & Hnodes & Hancestors & _).
    exists created. split.
    { rewrite Hnodes, nth_error_app2, Nat.sub_diag; [reflexivity | lia]. }
    assert (Hmem : forall x, In x (Node.ancestors created) <->
                             In x (Node.ancestors n) \/ x = Node.name n).
    { intros x. rewrite Hancestors. apply set_add_in. }
    split; [exact Hmem|]. intros Hname Hown. rewrite Hname in Hown.
    apply orb_false_iff in Hcheck as [Hanc Hself].
    apply Hmem in Hown as [Hown | Hown].
    + apply set_mem_not_in in Hanc. contradiction.
    + apply (proj1 (py_eq_false _ _)) in Hself. contradiction.
  - intros node previous st n p Hn Hp Hvalid. unfold add_ancestors.
    rewrite (bind_ok _ _ _ _ _ (node_at_ok _ _ _ Hn)). cbv beta zeta.
    rewrite (bind_ok _ _ _ _ _ (node_at_ok _ _ _ Hp)). cbv beta.
    destruct (add_ancestors_loop (set_update (Node.ancestors n) [Node.name n])
                (dict_values (Node.public_closure p)) st Hvalid)
      as (st' & Hrun & _ & _ & _ & Hnodes).
    exists st'. split; [exact Hrun|]. intros a m Hm.
    destruct (Hnodes a m Hm) as (ancestors & Hfinal & Hin & Hout).
    exists (Node.set_ancestors ancestors m). split; [exact Hfinal|].
    split; [reflexivity|]. split.
    + intros Ha.
      assert (Hmem : forall x, In x ancestors <->
                In x (Node.ancestors m) \/ In x (Node.ancestors n) \/ x = Node.name n).
      { intros x. rewrite (Hin Ha x), set_update_in. simpl. intuition. }
      split; [exact Hmem|]. simpl. apply Hmem.
    + intros Ha. rewrite (Hout Ha). apply set_ancestors_same.
Qed.

Lemma ancestors_of_created_and_reached_nodes_witness :
  (exists created,
     nth_error (node_objects Isolation.state_created) 1 = Some created
     /\ ~ In (Node.name created) (Node.ancestors created))
  /\
  (exists st' reached,
     add_ancestors 3 1 OwnNameState.state = Ok tt st'
     /\ nth_error (node_objects st') 2 = Some reached
     /\ (In (Node.name reached) (Node.ancestors reached) <->
         In (Some "X") [None; Some "P"; Some "X"]
         \/ In (Some "X") (Node.ancestors OwnNameState.requesting)
         \/ Some "X" = Node.name OwnNameState.requesting)).
Proof.
  split.
  - assert (Hcreate : _create_new_node Isolation.self 3 0 0 None Isolation.state =
                      Ok 1 Isolation.state_created) by (vm_compute; reflexivity).
    destruct (proj1 ancestors_of_created_and_reached_nodes
                Isolation.self 3 0 0 None Isolation.state Isolation.state_created
                Isolation.root (Scenario.private Examples.A) 1
                eq_refl eq_refl eq_refl Hcreate)
      as (created & Hcreated & _ & Hown).
    exists created. split; [exact Hcreated|]. apply Hown.
    revert Hcreated. vm_compute. now intros [= <-].
  - assert (Hn : nth_error (node_objects OwnNameState.state) 3 = Some OwnNameState.requesting)
      by (vm_compute; reflexivity).
    assert (Hp : nth_error (node_objects OwnNameState.state) 1 = Some OwnNameState.previous)
      by (vm_compute; reflexivity).
    destruct (proj2 ancestors_of_created_and_reached_nodes 3 1 OwnNameState.state
                OwnNameState.requesting OwnNameState.previous Hn Hp)
      as (st' & Hrun & Hnodes).
    + intros a Ha. vm_compute in Ha. destruct Ha as [<- | [<- | []]]; vm_compute; lia.
    + destruct (Hnodes 2 (nth 2 (node_objects OwnNameState.state) OwnNameState.previous))
        as (reached & Hreached & _ & Hin & _); [vm_compute; reflexivity|].
      exists st', reached. split; [exact Hrun|]. split; [exact Hreached|].
      apply Hin. vm_compute. auto.
Defined.

(** ** A node for a private or build requirement *)

Lemma update_node_updated (st : State) (a : nat) (f : Node.t -> Node.t) :
  a < List.length (node_objects st) ->
  update_node a f st = Ok tt (set_node_objects (updated (node_objects st) a f) st).
Proof.
  intros Ha. unfold updated.
  destruct (nth_error (node_objects st) a) as [n|] eqn:Hn.
  - now apply update_node_ok.
  - apply nth_error_None in Hn. lia.
Qed.

Lemma nth_error_updated (l : list Node.t) (a b : nat) (f : Node.t -> Node.t) :
  nth_error (updated l a f) b =
    if Nat.eqb a b then option_map f (nth_error l b) else nth_error l b.
Proof.
  unfold updated. destruct (Nat.eqb_spec a b) as [<- | Hne].
  - destruct (nth_error l a) as [n|] eqn:Hn; simpl.
    + now apply nth_error_list_set_eq with (y := n).
    + exact Hn.
  - destruct (nth_error l a) as [n|]; [|reflexivity].
    now apply nth_error_list_set_neq.
Qed.

Lemma length_updated (l : list Node.t) (a : nat) (f : Node.t -> Node.t) :
  List.length (updated l a f) = List.length l.
Proof. unfold updated. destruct (nth_error l a); [apply length_list_set | reflexivity]. Qed.

(** [connect_closure] between two nodes that are there *)
Lemma connect_closure_ok (st : State) (self other_node : nat) (o : Node.t) :
  self < List.length (node_objects st) ->
  nth_error (node_objects st) other_node = Some o ->
  connect_closure self other_node st =
    Ok tt (set_node_objects
             (updated
                (updated
                   (updated (node_objects st) self (fun n =>
                      Node.set_public_closure
                        (dict_set (Node.public_closure n) (Node.name o) other_node) n))
                   self (fun n =>
                      Node.set_public_deps
                        (dict_set (Node.public_deps n) (Node.name o) other_node) n))
                other_node (fun n =>
                   Node.set_inverse_closure (set_add self (Node.inverse_closure n)) n))
             st).
Proof.
  intros Hself Hother. unfold connect_closure.
  assert (Hlen : other_node < List.length (node_objects st))
    by (apply nth_error_Some; congruence).
  rewrite (bind_ok _ _ _ _ _ (node_at_ok _ _ _ Hother)). cbv beta.
  rewrite (bind_ok _ _ _ _ _ (update_node_updated _ _ _ Hself)). cbv beta.
  erewrite bind_ok
    by (apply update_node_updated; simpl; now rewrite length_updated).
  cbv beta. rewrite update_node_updated by (simpl; now rewrite !length_updated).
  reflexivity.
Qed.


(** C2, as stated, fails: in Scenario D the node of C/1.0, which is in
    the subtree of the private requirement A of the root, is in the
    publicDeps of the sibling B when B requires C/2.0, and the build
    fails with the conflict. *)
Lemma private_subtree_reaches_sibling :
  Scenario.raised Examples.scenario_D =
    Some (ReferenceConflict (ConflictMessage Examples.B Examples.C2 Examples.C1))
  /\ exists s sibling inner,
       Scenario.final_state Examples.scenario_D = Some s
       /\ nth_error (node_objects s) 3 = Some sibling
       /\ Node.ref sibling = Some Examples.B
       /\ dict_get (Node.public_deps sibling) (Some "C") = Some 2
       /\ nth_error (node_objects s) 2 = Some inner
       /\ Node.ref inner = Some Examples.C1
       /\ Node.ancestors inner = [None; Some "A"].
Proof.
  split; [vm_compute; reflexivity|].
  eexists. eexists. eexists.
  split; [vm_compute; reflexivity|].
  split; [vm_compute; reflexivity|].
  split; [reflexivity|].
  split; [reflexivity|].
  split; [vm_compute; reflexivity|].
  split; reflexivity.
Qed.

(** C2 (amended): the node created for a private or build requirement of
    a node N gets as publicDeps a copy of the publicClosure of N, which
    holds the new node by then, plus itself, and not a copy of the
    publicDeps of N; up to there no node but N and the new node is
    changed, so the dependents of N are not connected to it.  What such a
    node can conflict with is the closure of N only, and two nodes of one
    name and two versions can coexist in a graph: the root requires X,
    which requires C/2.0, and N, which privately requires A, which
    requires C/1.0. *)
Theorem private_node_sees_closure_of_parent :
  (forall (self : Collaborators) (fuel : nat)
          (expand_node : nat -> option Requirements -> option ConanFileReference ->
                         option DepsOptions -> option GraphLock -> M unit)
          (node require : nat) (key : Name) (new_reqs : option Requirements)
          (new_options : DepsOptions) (graph_lock : option GraphLock)
          (st st1 : State) (new_node : nat) (n : Node.t) (r : Requirement.t),
     nth_error (node_objects st) node = Some n ->
     nth_error (requirement_objects st) require = Some r ->
     Requirement.private r || Requirement.build_require r = true ->
     _create_new_node self fuel node require graph_lock st = Ok new_node st1 ->
     exists st2 parent created,
       expand_new_node self fuel expand_node node require key new_reqs new_options
                       graph_lock st =
         (expand_node new_node new_reqs (Node.ref parent) (Some new_options) graph_lock ;;
          r <- requirement_at require ;;
          when (negb (Requirement.private r) && negb (Requirement.build_require r))
            (created <- node_at new_node ;;
             update_node node (fun m =>
               Node.set_transitive_closure
                 (dict_update (Node.transitive_closure m) (Node.transitive_closure created))
                 m)))%M st2
       /\ nth_error (node_objects st2) node = Some parent
       /\ nth_error (node_objects st2) new_node = Some created
       /\ Node.public_closure parent =
            dict_set (Node.public_closure n) (Node.name created) new_node
       /\ Node.public_deps created = dict_set (Node.public_closure parent) key new_node
       /\ (forall a, a <> node -> a <> new_node ->
             nth_error (node_objects st2) a = nth_error (node_objects st) a))
  /\
  (Scenario.raised Isolation.built = None
   /\ option_map (fun s => map Node.ref (node_objects s))
                 (Scenario.final_state Isolation.built) =
        Some [None; Some Isolation.X; Some Examples.C2; Some Isolation.N;
              Some Examples.A; Some Examples.C1]).
Proof.
  split.
  - intros self fuel expand_node node require key new_reqs new_options graph_lock
           st st1 new_node n r.
      intros Hn Hr Hflag Hcreate.
      destruct (create_new_node_spec self fuel node require graph_lock st st1 new_node n r
                  Hn Hr Hcreate)
        as (c0 & r' & Hnew & Hnodes & _ & _ & _ & _ & Hr' & Hpv & Hbr).
      assert (Hnode_lt : node < List.length (node_objects st))
        by (apply nth_error_Some; congruence).
      assert (Hne : node <> new_node) by lia.
      assert (Hlen1 : List.length (node_objects st1) = S new_node).
      { rewrite Hnodes, length_app, Hnew. simpl. lia. }
      assert (Hc0 : nth_error (node_objects st1) new_node = Some c0).
      { rewrite Hnodes, Hnew, nth_error_app2, Nat.sub_diag; [reflexivity | lia]. }
      assert (Hn1 : nth_error (node_objects st1) node = Some n).
      { rewrite Hnodes, nth_error_app1; assumption. }
      unfold expand_new_node.
      rewrite (bind_ok _ _ _ _ _ Hcreate). cbv beta.
      erewrite bind_ok by (apply update_node_updated; lia). cbv beta.
      erewrite bind_ok by (apply update_node_updated; simpl; rewrite length_updated; lia).
      cbv beta.
      set (c1 := Node.set_transitive_closure [(key, new_node)]
                   (Node.set_public_closure [(key, new_node)] c0)).
      erewrite bind_ok.
      2: { apply (connect_closure_ok _ node new_node c1).
           - simpl. rewrite !length_updated. lia.
           - simpl. rewrite !nth_error_updated, Nat.eqb_refl, Hc0. reflexivity. }
      cbv beta.
      erewrite bind_ok by (apply requirement_at_ok; simpl; exact Hr'). cbv beta.
      rewrite Hpv, Hbr, Hflag.
      set (parent := Node.set_public_deps
                       (dict_set (Node.public_deps n) (Node.name c1) new_node)
                       (Node.set_public_closure
                          (dict_set (Node.public_closure n) (Node.name c1) new_node) n)).
      match goal with
      | |- context [bind _ _ ?s] => set (s3 := s)
      end.
      set (c3 := Node.set_inverse_closure (set_add node (Node.inverse_closure c1)) c1).
      assert (Hflip : Nat.eqb new_node node = false) by (apply Nat.eqb_neq; lia).
      assert (Hparent3 : nth_error (node_objects s3) node = Some parent).
      { unfold s3. simpl. rewrite !nth_error_updated, Hflip, Nat.eqb_refl, Hn1. reflexivity. }
      assert (Hnew3 : nth_error (node_objects s3) new_node = Some c3).
      { unfold s3. simpl. rewrite !nth_error_updated, Nat.eqb_refl.
        replace (Nat.eqb node new_node) with false by (symmetry; apply Nat.eqb_neq; lia).
        rewrite Hc0. reflexivity. }
      assert (Hlen3 : List.length (node_objects s3) = S new_node).
      { unfold s3. simpl. now rewrite !length_updated. }
      assert (Hother3 : forall a, a <> node -> a <> new_node ->
                nth_error (node_objects s3) a = nth_error (node_objects st) a).
      { intros a Ha1 Ha2. unfold s3. simpl. rewrite !nth_error_updated.
        replace (Nat.eqb new_node a) with false by (symmetry; apply Nat.eqb_neq; lia).
        replace (Nat.eqb node a) with false by (symmetry; apply Nat.eqb_neq; lia).
        rewrite Hnodes.
        destruct (Nat.lt_ge_cases a (List.length (node_objects st))) as [Hlt | Hge].
        - now rewrite nth_error_app1.
        - rewrite (proj2 (nth_error_None (node_objects st) a) Hge).
          apply nth_error_None. rewrite length_app. simpl. lia. }
      set (created := Node.set_public_deps
                        (dict_set (Node.public_closure parent) key new_node)
                        (Node.set_public_deps (Node.public_closure parent) c3)).
      set (s4 := set_node_objects
                   (updated
                      (updated (node_objects s3) new_node
                               (Node.set_public_deps (Node.public_closure parent)))
                      new_node
                      (fun m => Node.set_public_deps
                                  (dict_set (Node.public_deps m) key new_node) m)) s3).
      assert (Hblock :
        (n0 <- node_at node ;;
         update_node new_node (Node.set_public_deps (Node.public_closure n0)) ;;
         update_node new_node (fun m =>
           Node.set_public_deps (dict_set (Node.public_deps m) key new_node) m))%M s3 =
        Ok tt s4).
      { rewrite (bind_ok _ _ _ _ _ (node_at_ok _ _ _ Hparent3)). cbv beta.
        erewrite bind_ok by (apply update_node_updated; lia). cbv beta.
        rewrite update_node_updated
          by (cbn [node_objects set_node_objects]; rewrite length_updated; lia).
        reflexivity. }
      rewrite (bind_ok _ _ _ _ _ Hblock). cbv beta.
      assert (Hparent4 : nth_error (node_objects s4) node = Some parent).
      { unfold s4. cbn [node_objects set_node_objects].
        rewrite !nth_error_updated, Hflip. exact Hparent3. }
      rewrite (bind_ok _ _ _ _ _ (node_at_ok _ _ _ Hparent4)). cbv beta.
      exists s4, parent, created. split; [reflexivity|]. split; [exact Hparent4|]. split.
      { unfold s4. cbn [node_objects set_node_objects].
        rewrite !nth_error_updated, Nat.eqb_refl, Hnew3. reflexivity. }
      split; [reflexivity|]. split; [reflexivity|].
      intros a Ha1 Ha2. unfold s4. cbn [node_objects set_node_objects].
      rewrite !nth_error_updated.
      replace (Nat.eqb new_node a) with false by (symmetry; apply Nat.eqb_neq; lia).
      now apply Hother3.
  - split; vm_compute; reflexivity.
Qed.

Lemma private_node_sees_closure_of_parent_witness :
  exists st2 parent created,
    nth_error (node_objects st2) 0 = Some parent
    /\ nth_error (node_objects st2) 1 = Some created
    /\ Node.public_closure parent = dict_set [(None, 0)] (Node.name created) 1
    /\ Node.public_deps created = dict_set (Node.public_closure parent) (Some "A") 1.
Proof.
  assert (Hn : nth_error (node_objects Isolation.state) 0 = Some Isolation.root)
    by reflexivity.
  assert (Hr : nth_error (requirement_objects Isolation.state) 0 =
               Some (Scenario.private Examples.A)) by reflexivity.
  assert (Hflag : Requirement.private (Scenario.private Examples.A)
                  || Requirement.build_require (Scenario.private Examples.A) = true)
    by reflexivity.
  assert (Hcreate : _create_new_node Isolation.self 3 0 0 None Isolation.state =
                    Ok 1 Isolation.state_created) by (vm_compute; reflexivity).
  destruct (proj1 private_node_sees_closure_of_parent
              Isolation.self 3 Isolation.no_expansion 0 0 (Some "A") (Some []) [] None
              Isolation.state Isolation.state_created 1 Isolation.root
              (Scenario.private Examples.A) Hn Hr Hflag Hcreate)
    as (st2 & parent & created & _ & Hparent & Hcreated & Hclosure & Hdeps & _).
  exists st2, parent, created.
  split; [exact Hparent|]. split; [exact Hcreated|]. split; [|exact Hdeps].
  exact Hclosure.
Defined.

(** ** Witnesses and evaluations *)


(** C7 on the chain L/a -> L/b -> L/c: the builder resolves the recipe of
    a requirement with no original reference, so each alias is recorded
    under its own reference only and L/a stays cached as L/b; the target
    is recorded under the first reference of the chain only when the
    resolution is given that reference. *)
Lemma alias_chain_is_not_collapsed :
  Scenario.raised AliasChain.built = None
  /\ option_map (fun s => DepsGraph.aliased (dep_graph s))
                (Scenario.final_state AliasChain.built) =
       Some [(AliasChain.La, AliasChain.Lb); (AliasChain.Lb, AliasChain.Lc)]
  /\ option_map (fun s => DepsGraph.aliased (dep_graph s))
                (Scenario.final_state
                   (_resolve_recipe (Scenario.cache AliasChain.aliases) 5 0 0 None
                                    (Some AliasChain.La)
                                    (mkState [] [Scenario.public AliasChain.La]
                                             (DepsGraph.init None) []))) =
       Some [(AliasChain.La, AliasChain.Lc); (AliasChain.Lb, AliasChain.Lc)].
Proof. repeat split; vm_compute; reflexivity. Qed.

(** * Properties of the other parts of the builder *)

(** ** The conflict detector, whatever the consumer and the order *)

Lemma py_ne_sym {A} `{PyEq A} (x y : A) : py_ne x y = py_ne y x.
Proof.
  unfold py_ne. destruct (py_eq_spec x y) as [-> | Hne].
  - now rewrite py_eq_refl.
  - destruct (py_eq_spec y x) as [-> | _]; [congruence | reflexivity].
Qed.

(** X1: whether [_conflicting_references] reports a conflict (a true
    value, or the revision error) depends neither on the order of the two
    references nor on the consumer it is told: the consumer only decides
    how the conflict is reported. *)
Theorem conflict_is_symmetric_and_independent_of_consumer
    (a b : ConanFileReference) (consumer consumer' : option ConanFileReference) :
  reports_conflict (_conflicting_references a b consumer) =
  reports_conflict (_conflicting_references b a consumer').
Proof.
  unfold _conflicting_references.
  rewrite (py_ne_sym (copy_clear_rev b) (copy_clear_rev a)).
  rewrite (py_ne_sym (revision b) (revision a)).
  rewrite (andb_comm (truthy (revision b)) (truthy (revision a))).
  destruct (py_ne (copy_clear_rev a) (copy_clear_rev b)).
  - now destruct consumer, consumer'.
  - destruct (truthy (revision a) && truthy (revision b) && py_ne (revision a) (revision b)).
    + now destruct consumer, consumer'.
    + reflexivity.
Qed.

(** X2: [_conflicting_references] returns [False] exactly when the two
    references are the same with the revisions ignored and they do not
    carry two different revisions; so two requirements of one reference
    never conflict, and neither do a pinned revision and a reference
    without one. *)
Theorem no_conflict_iff_compatible
    (previous_ref new_ref : ConanFileReference) (consumer : option ConanFileReference) :
  _conflicting_references previous_ref new_ref consumer = inr ConflictFalse
  <-> compatible previous_ref new_ref.
Proof.
  unfold _conflicting_references, compatible, has_revision.
  destruct (py_eq_spec (copy_clear_rev previous_ref) (copy_clear_rev new_ref)) as [Heq | Hne].
  - unfold py_ne at 1. rewrite (proj2 (py_eq_true _ _) Heq). cbn [negb].
    destruct (truthy (revision previous_ref)); cbn [andb].
    + destruct (truthy (revision new_ref)); cbn [andb].
      * unfold py_ne. destruct (py_eq_spec (revision previous_ref) (revision new_ref)) as [Hr | Hr];
          cbn [negb].
        -- split; [intros _; split; [exact Heq | now right; right] | reflexivity].
        -- split; [destruct consumer; discriminate|].
           intros [_ [H | [H | H]]]; congruence.
      * split; [intros _; split; [exact Heq | now right; left] | reflexivity].
    + split; [intros _; split; [exact Heq | now left] | reflexivity].
  - unfold py_ne at 1. rewrite (proj2 (py_eq_false _ _) Hne). cbn [negb].
    split; [destruct consumer; discriminate | intros [H _]; contradiction].
Qed.

(** ** Loops *)

(** X3: a requirement whose package name is among the ancestors of the
    requesting node, or is the name of that node, is refused with the loop
    error before anything is looked up or changed: no recipe is asked
    for, and the state is the one the requirement was met in. *)
Theorem loop_is_refused_before_any_change
    (self : Collaborators) (fuel : nat)
    (expand_node : nat -> option Requirements -> option ConanFileReference ->
                   option DepsOptions -> option GraphLock -> M unit)
    (node require : nat) (new_reqs : option Requirements) (new_options : DepsOptions)
    (graph_lock : option GraphLock) (st : State) (n : Node.t) (r : Requirement.t) :
  nth_error (node_objects st) node = Some n ->
  nth_error (requirement_objects st) require = Some r ->
  In (Some (name (Requirement.ref r))) (Node.ancestors n)
  \/ Node.name n = Some (name (Requirement.ref r)) ->
  _expand_require self fuel expand_node node require new_reqs new_options graph_lock st =
    Raise (LoopDetected (Node.ref n) (Requirement.ref r)) st.
Proof.
  intros Hn Hr Hloop. unfold _expand_require.
  rewrite (bind_ok _ _ _ _ _ (requirement_at_ok _ _ _ Hr)). cbv beta.
  rewrite (bind_ok _ _ _ _ _ (node_at_ok _ _ _ Hn)). cbv beta zeta.
  match goal with
  | |- (if ?b then _ else _) _ = _ => assert (Htest : b = true)
  end.
  { apply orb_true_iff. destruct Hloop as [Hin | Heq].
    - left. now apply set_mem_in.
    - right. apply py_eq_true. now symmetry. }
  now rewrite Htest.
Qed.

Lemma loop_is_refused_before_any_change_witness :
  _expand_require (Scenario.cache Examples.diamond_cache) 0 Loop.no_expansion 0 0
                  (Some []) [] None Loop.state =
    Raise (LoopDetected (Some Examples.B) Examples.C2) Loop.state.
Proof.
  apply (loop_is_refused_before_any_change
           (Scenario.cache Examples.diamond_cache) 0 Loop.no_expansion 0 0 (Some []) [] None
           Loop.state Loop.consumer (Scenario.public Examples.C2) eq_refl eq_refl).
  left. simpl. right. left. reflexivity.
Defined.

(** ** Diamonds that close without a conflict *)

Lemma compatible_references_do_not_conflict
    (previous_ref new_ref : ConanFileReference) (consumer : option ConanFileReference) :
  compatible previous_ref new_ref ->
  _conflicting_references previous_ref new_ref consumer = inr ConflictFalse.
Proof.
  intros [Heq Hrev]. unfold _conflicting_references. rewrite (version_equal_eqb _ _ Heq).
  assert (Hno : truthy (revision previous_ref) && truthy (revision new_ref) &&
                py_ne (revision previous_ref) (revision new_ref) = false).
  { unfold has_revision in Hrev. destruct Hrev as [H | [H | H]].
    - now rewrite H.
    - rewrite H. now rewrite andb_false_r.
    - rewrite H. unfold py_ne. rewrite py_eq_refl. now rewrite andb_false_r. }
  now rewrite Hno.
Qed.

(** X4: closing a diamond on a node whose reference is compatible with
    the requested one (the same with the revisions ignored, and not two
    different revisions), the conflict check returns at once: the proxy is
    not asked for the recipe again and nothing is changed, whatever the
    consumer. *)
Theorem compatible_diamond_is_not_resolved_again
    (self : Collaborators) (fuel node require previous : nat)
    (graph_lock : option GraphLock) (st : State) (n p : Node.t) (r : Requirement.t)
    (previous_ref : ConanFileReference) :
  nth_error (node_objects st) node = Some n ->
  nth_error (node_objects st) previous = Some p ->
  nth_error (requirement_objects st) require = Some r ->
  Node.ref p = Some previous_ref ->
  compatible previous_ref (Requirement.ref r) ->
  check_conflicts self fuel node require previous graph_lock st = Ok tt st.
Proof.
  intros Hn Hp Hr Hpr Hcompatible.
  rewrite (check_conflicts_start self fuel _ _ _ graph_lock _ _ _ _ _ Hn Hp Hr Hpr).
  now rewrite (compatible_references_do_not_conflict _ _ (Node.ref n) Hcompatible).
Qed.

Lemma compatible_diamond_is_not_resolved_again_witness :
  check_conflicts ClosingDiamond.self 0 0 0 1 None AnyRevision.state = Ok tt AnyRevision.state.
Proof.
  apply (compatible_diamond_is_not_resolved_again
           ClosingDiamond.self 0 0 0 1 None AnyRevision.state
           ClosingDiamond.consumer TwoRevisions.pinned (Scenario.public Examples.C1)
           Examples.C1r1 eq_refl eq_refl eq_refl eq_refl).
  split; [reflexivity | right; left; reflexivity].
Defined.

(** ** The test for a new expansion only reads *)

Lemma reads_only_ret {A} (a : A) : reads_only (ret a).
Proof. intros st. reflexivity. Qed.

Lemma reads_only_raise {A} (e : Exception) : reads_only (@raise A e).
Proof. intros st. reflexivity. Qed.

Lemma reads_only_bind {A B} (c : M A) (k : A -> M B) :
  reads_only c -> (forall a, reads_only (k a)) -> reads_only (bind c k).
Proof.
  intros Hc Hk st. unfold bind. specialize (Hc st).
  destruct (c st) as [a s | e s |]; [subst s; apply Hk | exact Hc | exact Hc].
Qed.

Lemma reads_only_any_of {A} (l : list A) (test : A -> M bool) :
  (forall x, reads_only (test x)) -> reads_only (any_of l test).
Proof.
  intros Ht. induction l as [|x l IH]; simpl.
  - apply reads_only_ret.
  - apply reads_only_bind; [apply Ht|]. intros [|]; [apply reads_only_ret | exact IH].
Qed.

Lemma reads_only_node_at (a : nat) : reads_only (node_at a).
Proof. intros st. unfold node_at. now destruct (nth_error (node_objects st) a). Qed.

Lemma reads_only_requirement_at (a : nat) : reads_only (requirement_at a).
Proof.
  intros st. unfold requirement_at. now destruct (nth_error (requirement_objects st) a).
Qed.

Lemma reads_only_lift {A} (r : Exception + A) : reads_only (lift r).
Proof. destruct r; [apply reads_only_raise | apply reads_only_ret]. Qed.

Lemma reads_only_ref_of (n : Node.t) : reads_only (ref_of n).
Proof. unfold ref_of. destruct (Node.ref n); [apply reads_only_ret | apply reads_only_raise]. Qed.

(** X5: [_recurse] changes nothing: whether it answers or fails on an
    object that is not there, the nodes, the requirements, the graph and
    the requests to the proxy are as before, and both of its loops end. *)
Theorem recurse_reads_only
    (closure : dict Name nat) (new_reqs : Requirements) (new_options : DepsOptions) :
  reads_only (_recurse closure new_reqs new_options).
Proof.
  unfold _recurse. apply reads_only_bind.
  - apply reads_only_any_of. intros req.
    apply reads_only_bind; [apply reads_only_requirement_at | intros r].
    destruct (dict_get closure (Some (name (Requirement.ref r)))) as [n|];
      [|apply reads_only_ret].
    apply reads_only_bind; [apply reads_only_node_at | intros nd].
    apply reads_only_bind; [apply reads_only_ref_of | intros n_ref].
    apply reads_only_bind; [apply reads_only_lift | intros c; apply reads_only_ret].
  - intros [|]; [apply reads_only_ret|].
    apply reads_only_any_of. intros [pkg_name options_values].
    destruct (dict_get closure (Some pkg_name)) as [n|]; [|apply reads_only_ret].
    apply reads_only_bind; [apply reads_only_node_at | intros nd].
    apply reads_only_any_of. intros [option value].
    apply reads_only_bind; [apply reads_only_lift | intros c; apply reads_only_ret].
Qed.

(** ** Resolving a recipe *)

Lemma requirement_at_inv (st st' : State) (a : nat) (r : Requirement.t) :
  requirement_at a st = Ok r st' -> st' = st /\ nth_error (requirement_objects st) a = Some r.
Proof.
  unfold requirement_at. destruct (nth_error (requirement_objects st) a); [|discriminate].
  intros [= <- <-]. now split.
Qed.

Lemma node_at_inv (st st' : State) (a : nat) (n : Node.t) :
  node_at a st = Ok n st' -> st' = st /\ nth_error (node_objects st) a = Some n.
Proof.
  unfold node_at. destruct (nth_error (node_objects st) a); [|discriminate].
  intros [= <- <-]. now split.
Qed.

Lemma set_requirement_objects_same (st : State) :
  set_requirement_objects (requirement_objects st) st = st.
Proof. now destruct st. Qed.

(** the loader: the conanfile of the manifest, its requirements being new
    objects after the ones there are *)
Lemma instantiate_spec (m : Manifest) (st : State) :
  exists requires,
    instantiate m st =
      Ok (ConanFile.mk (manifest_display_name m) (manifest_alias m) requires
                       (manifest_options m) (manifest_build_requires_options m)
                       true false None None)
         (set_requirement_objects (requirement_objects st ++ manifest_requires m) st).
Proof.
  unfold instantiate.
  assert (Halloc : forall l acc s,
            exists requires,
              (fix alloc (l : list Requirement.t) (acc : Requirements) : M Requirements :=
                 match l with
                 | [] => ret acc
                 | r :: l' =>
                     a <- new_requirement_object r ;;
                     alloc l' (dict_set acc (name (Requirement.ref r)) a)
                 end) l acc s =
              Ok requires (set_requirement_objects (requirement_objects s ++ l) s)).
  { induction l as [|r l IH]; intros acc s.
    - exists acc. unfold ret. now rewrite app_nil_r, set_requirement_objects_same.
    - cbv beta iota fix. unfold bind at 1, new_requirement_object at 1.
      destruct (IH (dict_set acc (name (Requirement.ref r)) (List.length (requirement_objects s)))
                   (set_requirement_objects (requirement_objects s ++ [r]) s))
        as (requires & Hrun).
      exists requires. rewrite Hrun. simpl. now rewrite <- app_assoc. }
  destruct (Halloc (manifest_requires m) [] st) as (requires & Hrun).
  exists requires. now rewrite (bind_ok _ _ _ _ _ Hrun).
Qed.

(** one call of [_resolve_recipe] that has fuel, once the requirement is
    read and the proxy and the loader have answered *)
Lemma resolve_recipe_step (self : Collaborators) (fuel : nat) (current_node requirement : nat)
    (graph_lock : option GraphLock) (original_ref : option ConanFileReference)
    (st : State) (r : Requirement.t) (path : string) (status : RecipeStatus)
    (remote : option string) (new_ref : ConanFileReference) (m : Manifest) :
  nth_error (requirement_objects st) requirement = Some r ->
  get_recipe self (Requirement.ref r) = Some (path, status, remote, new_ref) ->
  load_conanfile self path (Requirement.ref r) = Some m ->
  Requirement.locked_id r = None \/ graph_lock <> None ->
  exists loaded,
    let s1 := set_requirement_objects (requirement_objects st ++ manifest_requires m)
                (log_recipe_request (Requirement.ref r) st) in
    let dep_conanfile :=
      match status with
      | RECIPE_EDITABLE => ConanFile.set_editable loaded
      | _ => loaded
      end in
    ConanFile.alias loaded = manifest_alias m
    /\ ConanFile.display_name loaded = manifest_display_name m
    /\ _resolve_recipe self (S fuel) current_node requirement graph_lock original_ref st =
         match manifest_alias m with
         | Some pointed_ref =>
             (update_graph (fun g =>
                DepsGraph.set_aliased
                  (dict_set (DepsGraph.aliased g) (copy_clear_rev new_ref) pointed_ref) g) ;;
              update_requirement requirement (Requirement.set_ref pointed_ref) ;;
              match original_ref with
              | Some original =>
                  update_graph (fun g =>
                    DepsGraph.set_aliased
                      (dict_set (DepsGraph.aliased g) original pointed_ref) g)
              | None => ret tt
              end ;;
              _resolve_recipe self fuel current_node requirement graph_lock original_ref) s1
         | None => Ok (new_ref, dep_conanfile, status, remote, Requirement.locked_id r) s1
         end.
Proof.
  intros Hr Hget Hload Hlock.
  destruct (instantiate_spec m (log_recipe_request (Requirement.ref r) st)) as (requires & Hinst).
  exists (ConanFile.mk (manifest_display_name m) (manifest_alias m) requires
                       (manifest_options m) (manifest_build_requires_options m)
                       true false None None).
  cbv zeta. split; [reflexivity|]. split; [reflexivity|].
  cbn [_resolve_recipe].
  rewrite (bind_ok _ _ _ _ _ (requirement_at_ok _ _ _ Hr)). cbv beta.
  unfold modify at 1, bind at 1. rewrite Hget.
  assert (Hl : (match Requirement.locked_id r, graph_lock with
                | Some _, None => raise (AttributeError "python_requires")
                | _, _ => ret tt
                end) (log_recipe_request (Requirement.ref r) st) =
               Ok tt (log_recipe_request (Requirement.ref r) st)).
  { destruct Hlock as [-> | Hl]; [reflexivity|].
    destruct (Requirement.locked_id r), graph_lock; try reflexivity. congruence. }
  rewrite (bind_ok _ _ _ _ _ Hl). cbv beta. rewrite Hload.
  rewrite (bind_ok _ _ _ _ _ Hinst). cbv beta zeta.
  assert (Halias : forall c, ConanFile.alias
            match status with
            | RECIPE_EDITABLE => ConanFile.set_editable c
            | RECIPE_OTHER _ => c
            end = ConanFile.alias c) by (intros c; now destruct status).
  rewrite Halias. cbn [ConanFile.alias].
  destruct (manifest_alias m); reflexivity.
Qed.

(** a call of [_resolve_recipe] that returns has read the requirement and
    got the recipe from the proxy and the loader *)
Lemma resolve_recipe_returns (self : Collaborators) (fuel : nat) (current_node requirement : nat)
    (graph_lock : option GraphLock) (original_ref : option ConanFileReference)
    (st st' : State) (result : Recipe) :
  _resolve_recipe self fuel current_node requirement graph_lock original_ref st = Ok result st' ->
  exists fuel' r path status remote new_ref m,
    fuel = S fuel'
    /\ nth_error (requirement_objects st) requirement = Some r
    /\ get_recipe self (Requirement.ref r) = Some (path, status, remote, new_ref)
    /\ load_conanfile self path (Requirement.ref r) = Some m
    /\ (Requirement.locked_id r = None \/ graph_lock <> None).
Proof.
  destruct fuel as [|fuel']; [discriminate|]. cbn [_resolve_recipe]. intros H.
  apply bind_inv_ok in H as (r & s1 & Hr & H).
  apply requirement_at_inv in Hr as [-> Hr].
  unfold modify at 1, bind at 1 in H.
  destruct (get_recipe self (Requirement.ref r)) as [[[[path status] remote] new_ref]|] eqn:Hget;
    [|discriminate].
  apply bind_inv_ok in H as ([] & s2 & Hlock & H).
  destruct (load_conanfile self path (Requirement.ref r)) as [m|] eqn:Hload; [|discriminate].
  exists fuel', r, path, status, remote, new_ref, m.
  repeat (split; [first [reflexivity | assumption]|]).
  destruct (Requirement.locked_id r); [|now left].
  right. destruct graph_lock; [discriminate | discriminate Hlock].
Qed.

Lemma update_requirement_ok (st : State) (a : nat) (f : Requirement.t -> Requirement.t)
    (r : Requirement.t) :
  nth_error (requirement_objects st) a = Some r ->
  update_requirement a f st =
    Ok tt (set_requirement_objects (list_set (requirement_objects st) a (f r)) st).
Proof.
  intros Hr. unfold update_requirement.
  now rewrite (bind_ok _ _ _ _ _ (requirement_at_ok _ _ _ Hr)).
Qed.

Lemma resolve_recipe_alias (self : Collaborators) (fuel : nat) (current_node requirement : nat)
    (graph_lock : option GraphLock) (original_ref : option ConanFileReference)
    (st : State) (r : Requirement.t) (path : string) (status : RecipeStatus)
    (remote : option string) (new_ref pointed_ref : ConanFileReference) (m : Manifest) :
  nth_error (requirement_objects st) requirement = Some r ->
  get_recipe self (Requirement.ref r) = Some (path, status, remote, new_ref) ->
  load_conanfile self path (Requirement.ref r) = Some m ->
  Requirement.locked_id r = None \/ graph_lock <> None ->
  manifest_alias m = Some pointed_ref ->
  _resolve_recipe self (S fuel) current_node requirement graph_lock original_ref st =
    _resolve_recipe self fuel current_node requirement graph_lock original_ref
      (after_alias requirement r m new_ref pointed_ref original_ref st).
Proof.
  intros Hr Hget Hload Hlock Halias.
  destruct (resolve_recipe_step self fuel current_node requirement graph_lock original_ref
              st r path status remote new_ref m Hr Hget Hload Hlock) as (loaded & _ & _ & Hrun).
  cbv zeta in Hrun. rewrite Hrun, Halias.
  unfold update_graph at 1, modify at 1, bind at 1.
  erewrite bind_ok; cycle 1.
  { apply update_requirement_ok with (r := r). simpl.
    rewrite nth_error_app1; [exact Hr|]. apply nth_error_Some. congruence. }
  cbv beta. unfold after_alias.
  destruct original_ref as [original|]; reflexivity.
Qed.

Lemma resolve_recipe_direct (self : Collaborators) (fuel : nat) (current_node requirement : nat)
    (graph_lock : option GraphLock) (original_ref : option ConanFileReference)
    (st : State) (r : Requirement.t) (path : string) (status : RecipeStatus)
    (remote : option string) (new_ref : ConanFileReference) (m : Manifest) :
  nth_error (requirement_objects st) requirement = Some r ->
  get_recipe self (Requirement.ref r) = Some (path, status, remote, new_ref) ->
  load_conanfile self path (Requirement.ref r) = Some m ->
  Requirement.locked_id r = None \/ graph_lock <> None ->
  manifest_alias m = None ->
  exists loaded,
    ConanFile.alias loaded = None
    /\ ConanFile.display_name loaded = manifest_display_name m
    /\ _resolve_recipe self (S fuel) current_node requirement graph_lock original_ref st =
         Ok (new_ref,
             match status with
             | RECIPE_EDITABLE => ConanFile.set_editable loaded
             | _ => loaded
             end, status, remote, Requirement.locked_id r)
            (mkState (node_objects st) (requirement_objects st ++ manifest_requires m)
                     (dep_graph st) (recipe_requests st ++ [Requirement.ref r])).
Proof.
  intros Hr Hget Hload Hlock Halias.
  destruct (resolve_recipe_step self fuel current_node requirement graph_lock original_ref
              st r path status remote new_ref m Hr Hget Hload Hlock)
    as (loaded & Ha & Hd & Hrun).
  cbv zeta in Hrun. rewrite Halias in Hrun, Ha.
  exists loaded. split; [exact Ha|]. split; [exact Hd|]. exact Hrun.
Qed.

(** what [_resolve_recipe] returns, in terms of the reference the
    requirement holds in the end *)
Lemma resolve_recipe_result (self : Collaborators) (fuel : nat) :
  forall (current_node requirement : nat) (graph_lock : option GraphLock)
         (original_ref : option ConanFileReference) (st st' : State)
         (new_ref : ConanFileReference) (dep_conanfile : ConanFile.t)
         (status : RecipeStatus) (remote : option string) (locked_id : option nat),
    _resolve_recipe self fuel current_node requirement graph_lock original_ref st =
      Ok (new_ref, dep_conanfile, status, remote, locked_id) st' ->
    exists r' path m earlier,
      nth_error (requirement_objects st') requirement = Some r'
      /\ get_recipe self (Requirement.ref r') = Some (path, status, remote, new_ref)
      /\ load_conanfile self path (Requirement.ref r') = Some m
      /\ manifest_alias m = None
      /\ ConanFile.alias dep_conanfile = None
      /\ ConanFile.display_name dep_conanfile = manifest_display_name m
      /\ locked_id = Requirement.locked_id r'
      /\ (status = RECIPE_EDITABLE ->
          ConanFile.in_local_cache dep_conanfile = false /\ ConanFile.develop dep_conanfile = true)
      /\ recipe_requests st' = earlier ++ [Requirement.ref r'].
Proof.
  induction fuel as [|fuel IH]; intros current_node requirement graph_lock original_ref st st'
    new_ref dep_conanfile status remote locked_id Hrun; [discriminate|].
  destruct (resolve_recipe_returns _ _ _ _ _ _ _ _ _ Hrun)
    as (fuel0 & r & path & status0 & remote0 & new_ref0 & m & [= <-] & Hr & Hget & Hload & Hlock).
  destruct (manifest_alias m) as [pointed_ref|] eqn:Halias.
  - rewrite (resolve_recipe_alias self fuel current_node requirement graph_lock original_ref
               st r path status0 remote0 new_ref0 pointed_ref m Hr Hget Hload Hlock Halias)
      in Hrun.
    exact (IH _ _ _ _ _ _ _ _ _ _ _ Hrun).
  - destruct (resolve_recipe_direct self fuel current_node requirement graph_lock original_ref
                st r path status0 remote0 new_ref0 m Hr Hget Hload Hlock Halias)
      as (loaded & Ha & Hd & Hdirect).
    rewrite Hdirect in Hrun. injection Hrun as <- <- <- <- <- <-.
    exists r, path, m, (recipe_requests st). cbn [requirement_objects recipe_requests].
    split; [rewrite nth_error_app1; [exact Hr | apply nth_error_Some; congruence]|].
    split; [exact Hget|]. split; [exact Hload|]. split; [exact Halias|].
    split; [now destruct status0|]. split; [now destruct status0|].
    split; [reflexivity|]. split; [|reflexivity].
    intros ->. split; reflexivity.
Qed.

(** X6: when [_resolve_recipe] returns, what it returns is the recipe of
    the reference the requirement holds in the end, as the proxy and the
    loader give it, and that recipe is not an alias: aliases are followed
    until a recipe is one no more.  That reference is the last one the
    proxy was asked for. *)
Theorem resolved_recipe_is_not_an_alias
    (self : Collaborators) (fuel current_node requirement : nat)
    (graph_lock : option GraphLock) (original_ref : option ConanFileReference)
    (st st' : State) (new_ref : ConanFileReference) (dep_conanfile : ConanFile.t)
    (status : RecipeStatus) (remote : option string) (locked_id : option nat) :
  _resolve_recipe self fuel current_node requirement graph_lock original_ref st =
    Ok (new_ref, dep_conanfile, status, remote, locked_id) st' ->
  ConanFile.alias dep_conanfile = None
  /\ exists r' path earlier,
       nth_error (requirement_objects st') requirement = Some r'
       /\ get_recipe self (Requirement.ref r') = Some (path, status, remote, new_ref)
       /\ alias_target self (Requirement.ref r') = None
       /\ locked_id = Requirement.locked_id r'
       /\ recipe_requests st' = earlier ++ [Requirement.ref r'].
Proof.
  intros Hrun.
  destruct (resolve_recipe_result self fuel _ _ _ _ _ _ _ _ _ _ _ Hrun)
    as (r' & path & m & earlier & Hr' & Hget & Hload & Halias & Hnot & _ & Hlocked & _ & Hlog).
  split; [exact Hnot|]. exists r', path, earlier.
  split; [exact Hr'|]. split; [exact Hget|]. split; [|split; assumption].
  unfold alias_target. now rewrite Hget, Hload.
Qed.

Lemma resolved_recipe_is_not_an_alias_witness :
  alias_target Resolution.self AliasChain.Lc = None
  /\ nth_error (requirement_objects (Resolution.state_after None)) 0 =
       Some (Requirement.set_ref AliasChain.Lc (Scenario.public AliasChain.La)).
Proof.
  assert (Hrun : _resolve_recipe Resolution.self 3 0 0 None None Resolution.state =
                 Ok (AliasChain.Lc, Scenario.conanfile "L/c" [], RECIPE_OTHER "Cache", None, None)
                    (Resolution.state_after None)) by (vm_compute; reflexivity).
  destruct (resolved_recipe_is_not_an_alias
              Resolution.self 3 0 0 None None Resolution.state (Resolution.state_after None)
              AliasChain.Lc (Scenario.conanfile "L/c" []) (RECIPE_OTHER "Cache") None None Hrun)
    as (_ & r' & path & earlier & Hr' & _ & Htarget & _ & _).
  assert (Hat : nth_error (requirement_objects (Resolution.state_after None)) 0 =
                Some (Requirement.set_ref AliasChain.Lc (Scenario.public AliasChain.La)))
    by (vm_compute; reflexivity).
  rewrite Hat in Hr'. injection Hr' as <-.
  split; [exact Htarget | exact Hat].
Defined.

(** X7: a recipe the proxy finds in editable mode is returned with
    [in_local_cache] false and [develop] true; through aliases, it is the
    status of the recipe returned that counts. *)
Theorem editable_recipe_is_in_development
    (self : Collaborators) (fuel current_node requirement : nat)
    (graph_lock : option GraphLock) (original_ref : option ConanFileReference)
    (st st' : State) (new_ref : ConanFileReference) (dep_conanfile : ConanFile.t)
    (remote : option string) (locked_id : option nat) :
  _resolve_recipe self fuel current_node requirement graph_lock original_ref st =
    Ok (new_ref, dep_conanfile, RECIPE_EDITABLE, remote, locked_id) st' ->
  ConanFile.in_local_cache dep_conanfile = false /\ ConanFile.develop dep_conanfile = true.
Proof.
  intros Hrun.
  destruct (resolve_recipe_result self fuel _ _ _ _ _ _ _ _ _ _ _ Hrun)
    as (r' & path & m & earlier & _ & _ & _ & _ & _ & _ & _ & Heditable & _).
  now apply Heditable.
Qed.

Lemma editable_recipe_is_in_development_witness :
  ConanFile.in_local_cache (ConanFile.set_editable (Scenario.conanfile "L/c" [])) = false
  /\ ConanFile.develop (ConanFile.set_editable (Scenario.conanfile "L/c" [])) = true.
Proof.
  assert (Hrun : _resolve_recipe Resolution.editable 3 0 0 None None Resolution.state =
                 Ok (AliasChain.Lc, ConanFile.set_editable (Scenario.conanfile "L/c" []),
                     RECIPE_EDITABLE, None, None)
                    Resolution.state_editable) by (vm_compute; reflexivity).
  exact (editable_recipe_is_in_development
           Resolution.editable 3 0 0 None None Resolution.state Resolution.state_editable
           AliasChain.Lc (ConanFile.set_editable (Scenario.conanfile "L/c" [])) None None Hrun).
Defined.

Section DictLookup.
Context {K V : Type} `{PyEq K}.

Lemma dict_get_set_eq (d : dict K V) (k : K) (v : V) : dict_get (dict_set d k v) k = Some v.
Proof.
  induction d as [|[k' v'] d IH]; simpl.
  - now rewrite py_eq_refl.
  - destruct (py_eq_spec k' k) as [-> | Hne]; simpl.
    + now rewrite py_eq_refl.
    + now rewrite (proj2 (py_eq_false k' k) Hne).
Qed.

Lemma dict_get_set_neq (d : dict K V) (k k0 : K) (v : V) :
  k <> k0 -> dict_get (dict_set d k v) k0 = dict_get d k0.
Proof.
  intros Hk. induction d as [|[k' v'] d IH]; simpl.
  - now rewrite (proj2 (py_eq_false k k0) Hk).
  - destruct (py_eq_spec k' k) as [-> | Hne]; simpl.
    + now rewrite (proj2 (py_eq_false k k0) Hk).
    + now rewrite IH.
Qed.

End DictLookup.

Lemma resolve_recipe_original (self : Collaborators) (fuel : nat) :
  forall (current_node requirement : nat) (graph_lock : option GraphLock)
         (original : ConanFileReference) (st st' : State) (result : Recipe)
         (r r' : Requirement.t),
    nth_error (requirement_objects st) requirement = Some r ->
    _resolve_recipe self fuel current_node requirement graph_lock (Some original) st =
      Ok result st' ->
    nth_error (requirement_objects st') requirement = Some r' ->
    (Requirement.ref r' = Requirement.ref r
     /\ DepsGraph.aliased (dep_graph st') = DepsGraph.aliased (dep_graph st))
    \/ dict_get (DepsGraph.aliased (dep_graph st')) original = Some (Requirement.ref r').
Proof.
  induction fuel as [|fuel IH]; intros current_node requirement graph_lock original st st'
    result r r' Hr Hrun Hr'; [discriminate|].
  destruct (resolve_recipe_returns _ _ _ _ _ _ _ _ _ Hrun)
    as (fuel0 & r0 & path & status & remote & new_ref & m & [= <-] & Hr0 & Hget & Hload & Hlock).
  rewrite Hr in Hr0. injection Hr0 as <-.
  destruct (manifest_alias m) as [pointed_ref|] eqn:Halias.
  - right.
    rewrite (resolve_recipe_alias self fuel current_node requirement graph_lock (Some original)
               st r path status remote new_ref pointed_ref m Hr Hget Hload Hlock Halias)
      in Hrun.
    assert (Hat : nth_error
                    (requirement_objects
                       (after_alias requirement r m new_ref pointed_ref (Some original) st))
                    requirement = Some (Requirement.set_ref pointed_ref r)).
    { cbn [after_alias requirement_objects].
      apply nth_error_list_set_eq with (y := r).
      rewrite nth_error_app1; [exact Hr | apply nth_error_Some; congruence]. }
    destruct (IH _ _ _ _ _ _ _ _ _ Hat Hrun Hr') as [[Href Htable] | Hrecorded];
      [|exact Hrecorded].
    rewrite Htable, Href. cbn [after_alias dep_graph DepsGraph.set_aliased DepsGraph.aliased].
    cbn [Requirement.set_ref Requirement.ref]. apply dict_get_set_eq.
  - left.
    destruct (resolve_recipe_direct self fuel current_node requirement graph_lock (Some original)
                st r path status remote new_ref m Hr Hget Hload Hlock Halias)
      as (loaded & _ & _ & Hdirect).
    rewrite Hdirect in Hrun. injection Hrun as <- <-.
    cbn [requirement_objects dep_graph] in *.
    rewrite nth_error_app1 in Hr' by (apply nth_error_Some; congruence).
    rewrite Hr in Hr'. injection Hr' as <-. now split.
Qed.

(** X8: called with an original reference for a requirement whose recipe
    is an alias, [_resolve_recipe], when it returns, has recorded the
    reference the requirement ends with as the cached target of the
    original reference, however long the chain of aliases: the last
    target of the chain is the one that stays. *)
Theorem original_reference_is_cached_to_the_last_target
    (self : Collaborators) (fuel current_node requirement : nat)
    (graph_lock : option GraphLock) (original pointed_ref : ConanFileReference)
    (st st' : State) (result : Recipe) (r r' : Requirement.t) :
  nth_error (requirement_objects st) requirement = Some r ->
  alias_target self (Requirement.ref r) = Some pointed_ref ->
  _resolve_recipe self fuel current_node requirement graph_lock (Some original) st =
    Ok result st' ->
  nth_error (requirement_objects st') requirement = Some r' ->
  dict_get (DepsGraph.aliased (dep_graph st')) original = Some (Requirement.ref r').
Proof.
  intros Hr Htarget Hrun Hr'.
  destruct (resolve_recipe_returns _ _ _ _ _ _ _ _ _ Hrun)
    as (fuel0 & r0 & path & status & remote & new_ref & m & -> & Hr0 & Hget & Hload & Hlock).
  rewrite Hr in Hr0. injection Hr0 as <-.
  unfold alias_target in Htarget. rewrite Hget, Hload in Htarget.
  rewrite (resolve_recipe_alias self fuel0 current_node requirement graph_lock (Some original)
             st r path status remote new_ref pointed_ref m Hr Hget Hload Hlock Htarget)
    in Hrun.
  assert (Hat : nth_error
                  (requirement_objects
                     (after_alias requirement r m new_ref pointed_ref (Some original) st))
                  requirement = Some (Requirement.set_ref pointed_ref r)).
  { cbn [after_alias requirement_objects].
    apply nth_error_list_set_eq with (y := r).
    rewrite nth_error_app1; [exact Hr | apply nth_error_Some; congruence]. }
  destruct (resolve_recipe_original self fuel0 _ _ _ _ _ _ _ _ _ Hat Hrun Hr')
    as [[Href Htable] | Hrecorded]; [|exact Hrecorded].
  rewrite Htable, Href. cbn [after_alias dep_graph DepsGraph.set_aliased DepsGraph.aliased].
  cbn [Requirement.set_ref Requirement.ref]. apply dict_get_set_eq.
Qed.

Lemma original_reference_is_cached_to_the_last_target_witness :
  dict_get (DepsGraph.aliased (dep_graph (Resolution.state_after (Some AliasChain.La))))
           AliasChain.La = Some AliasChain.Lc.
Proof.
  assert (Hrun : _resolve_recipe Resolution.self 3 0 0 None (Some AliasChain.La)
                                 Resolution.state =
                 Ok (Resolution.resolved (Some AliasChain.La))
                    (Resolution.state_after (Some AliasChain.La))) by (vm_compute; reflexivity).
  assert (Hat : nth_error (requirement_objects (Resolution.state_after (Some AliasChain.La))) 0 =
                Some (Requirement.set_ref AliasChain.Lc (Scenario.public AliasChain.La)))
    by (vm_compute; reflexivity).
  exact (original_reference_is_cached_to_the_last_target
           Resolution.self 3 0 0 None AliasChain.La AliasChain.Lb
           Resolution.state (Resolution.state_after (Some AliasChain.La))
           (Resolution.resolved (Some AliasChain.La))
           (Scenario.public AliasChain.La)
           (Requirement.set_ref AliasChain.Lc (Scenario.public AliasChain.La))
           eq_refl eq_refl Hrun Hat).
Defined.

(** X9: on references whose recipes are aliases of one another without
    end (a recipe that is an alias of itself, two recipes that are aliases
    of each other), [_resolve_recipe] neither returns nor raises: however
    many nested calls it is given, it is still following aliases. *)
Theorem alias_cycle_is_followed_without_end
    (self : Collaborators) (in_cycle : ConanFileReference -> Prop) :
  (forall x, in_cycle x -> exists y, alias_target self x = Some y /\ in_cycle y) ->
  forall (fuel current_node requirement : nat) (graph_lock : option GraphLock)
         (original_ref : option ConanFileReference) (st : State) (r : Requirement.t),
    nth_error (requirement_objects st) requirement = Some r ->
    in_cycle (Requirement.ref r) ->
    Requirement.locked_id r = None \/ graph_lock <> None ->
    _resolve_recipe self fuel current_node requirement graph_lock original_ref st = OutOfFuel.
Proof.
  intros Hcycle. induction fuel as [|fuel IH];
    intros current_node requirement graph_lock original_ref st r Hr Hin Hlock; [reflexivity|].
  destruct (Hcycle _ Hin) as (y & Htarget & Hy).
  unfold alias_target in Htarget.
  destruct (get_recipe self (Requirement.ref r)) as [[[[path status] remote] new_ref]|] eqn:Hget;
    [|discriminate].
  destruct (load_conanfile self path (Requirement.ref r)) as [m|] eqn:Hload; [|discriminate].
  rewrite (resolve_recipe_alias self fuel current_node requirement graph_lock original_ref
             st r path status remote new_ref y m Hr Hget Hload Hlock Htarget).
  apply IH with (r := Requirement.set_ref y r).
  - cbn [after_alias requirement_objects].
    apply nth_error_list_set_eq with (y := r).
    rewrite nth_error_app1; [exact Hr | apply nth_error_Some; congruence].
  - exact Hy.
  - exact Hlock.
Qed.

Lemma alias_cycle_is_followed_without_end_witness :
  _resolve_recipe (Scenario.cache AliasCycle.aliases) 7 0 0 None None AliasCycle.state =
    OutOfFuel.
Proof.
  apply (alias_cycle_is_followed_without_end
           (Scenario.cache AliasCycle.aliases) AliasCycle.in_cycle)
    with (r := Scenario.public AliasChain.La).
  - intros x [-> | ->].
    + exists AliasChain.Lb. split; [reflexivity | right; reflexivity].
    + exists AliasChain.La. split; [reflexivity | left; reflexivity].
  - reflexivity.
  - left. reflexivity.
  - left. reflexivity.
Defined.

(** *** What resolving a recipe leaves as it is *)

Lemma set_ref_own (r : Requirement.t) : Requirement.set_ref (Requirement.ref r) r = r.
Proof. now destruct r. Qed.

Lemma only_ref_rewritten_refl (requirement : nat) (st : State) :
  only_ref_rewritten requirement st st.
Proof.
  split; [reflexivity|]. intros a r0 Hr0. exists (Requirement.ref r0).
  now rewrite set_ref_own.
Qed.

Section OnlyRef.
Variable requirement : nat.
Variable st0 : State.

Lemma log_only_ref (x : ConanFileReference) :
  preserves (only_ref_rewritten requirement st0) (modify (log_recipe_request x)).
Proof. apply preserves_modify. now intros s H. Qed.

Lemma update_graph_only_ref (f : DepsGraph.t -> DepsGraph.t) :
  preserves (only_ref_rewritten requirement st0) (update_graph f).
Proof. apply preserves_modify. now intros s H. Qed.

Lemma new_requirement_only_ref (r : Requirement.t) :
  preserves (only_ref_rewritten requirement st0) (new_requirement_object r).
Proof.
  intros s [Hnodes Hreqs]. split; [exact Hnodes|]. intros a r0 Hr0.
  destruct (Hreqs a r0 Hr0) as (x & Hx & Hother). exists x. split; [|exact Hother].
  cbn [requirement_objects set_requirement_objects].
  rewrite nth_error_app1; [exact Hx | apply nth_error_Some; congruence].
Qed.

Lemma instantiate_only_ref (m : Manifest) :
  preserves (only_ref_rewritten requirement st0) (instantiate m).
Proof.
  unfold instantiate. apply preserves_bind; [|intros; apply preserves_ret].
  generalize (@nil (string * nat)). induction (manifest_requires m) as [|r rs IH]; intros acc.
  - apply preserves_ret.
  - apply preserves_bind; [apply new_requirement_only_ref | intros; apply IH].
Qed.

Lemma set_ref_only_ref (x : ConanFileReference) :
  preserves (only_ref_rewritten requirement st0)
            (update_requirement requirement (Requirement.set_ref x)).
Proof.
  intros s [Hnodes Hreqs]. unfold update_requirement, bind, requirement_at.
  destruct (nth_error (requirement_objects s) requirement) as [r|] eqn:Hr;
    [|now split].
  cbn [modify]. split; [exact Hnodes|]. intros a r0 Hr0.
  destruct (Hreqs a r0 Hr0) as (y & Hy & Hother).
  cbn [requirement_objects set_requirement_objects].
  rewrite (nth_error_list_set _ requirement a _ _ Hy).
  destruct (Nat.eqb_spec requirement a) as [<- | Hne].
  - exists x. split; [|congruence].
    rewrite Hy in Hr. injection Hr as <-. reflexivity.
  - exists y. split; [reflexivity | exact Hother].
Qed.

End OnlyRef.

(** X10: [_resolve_recipe] touches no node, and of the requirement
    objects there are it changes one thing only, the reference of the
    requirement it is given; this holds when it returns and when it
    raises. *)
Theorem resolve_recipe_rewrites_one_reference
    (self : Collaborators) (fuel current_node requirement : nat)
    (graph_lock : option GraphLock) (original_ref : option ConanFileReference) :
  leaves (only_ref_rewritten requirement)
         (_resolve_recipe self fuel current_node requirement graph_lock original_ref).
Proof.
  intros st.
  assert (Hkeep : forall fuel,
            preserves (only_ref_rewritten requirement st)
              (_resolve_recipe self fuel current_node requirement graph_lock original_ref)).
  { clear fuel. induction fuel as [|fuel IH]; simpl; preserve;
      try solve [ apply log_only_ref
                | apply instantiate_only_ref
                | apply update_graph_only_ref
                | apply set_ref_only_ref
                | apply IH ]. }
  exact (Hkeep fuel st (only_ref_rewritten_refl requirement st)).
Qed.

(** ** Creating a node, again *)

Lemma add_node_spec (st : State) (a : nat) (n : Node.t) :
  nth_error (node_objects st) a = Some n ->
  exists n' g',
    add_node a st = Ok tt (set_dep_graph g' (set_node_objects (list_set (node_objects st) a n') st))
    /\ n' = match Node.id n with
            | Some _ => n
            | None => Node.set_id (DepsGraph._node_counter (dep_graph st)) n
            end
    /\ DepsGraph.nodes g' = set_add a (DepsGraph.nodes (dep_graph st))
    /\ DepsGraph.edges g' = DepsGraph.edges (dep_graph st)
    /\ DepsGraph.aliased g' = DepsGraph.aliased (dep_graph st)
    /\ DepsGraph._node_counter (dep_graph st) <= DepsGraph._node_counter g'.
Proof.
  intros Hn. unfold add_node.
  rewrite (bind_ok _ _ _ _ _ (node_at_ok _ _ _ Hn)). cbv beta.
  unfold graph at 1, bind at 1.
  destruct (Node.id n) as [i|] eqn:Hid.
  - eexists. eexists. split; [|split; [reflexivity|]].
    + unfold ret at 1, bind at 1, update_graph, modify.
      rewrite (list_set_same _ _ _ Hn). destruct st; reflexivity.
    + cbn. repeat split. lia.
  - eexists. eexists. split; [|split; [reflexivity|]].
    + unfold bind. rewrite (update_node_ok _ _ _ _ Hn). unfold update_graph, modify.
      reflexivity.
    + cbn. repeat split. lia.
Qed.

Lemma nth_error_snoc {A} (l : list A) (x : A) : nth_error (l ++ [x]) (List.length l) = Some x.
Proof. rewrite nth_error_app2, Nat.sub_diag; [reflexivity | lia]. Qed.

(** X11: the node [_create_new_node] returns is a new node object (no
    node there was is touched); its reference, recipe status and remote
    are the ones the proxy gave for the reference the requirement holds
    once its aliases are followed, and its conanfile is not an alias;
    [revision_pinned] tells whether that last reference, not the one the
    requirement was declared with, carries a revision; a locked id of the
    requirement becomes the id of the node.  The node is in the graph,
    with an edge from the requesting node labelled by the requirement. *)
Theorem created_node_is_the_resolved_recipe
    (self : Collaborators) (fuel current_node requirement : nat)
    (graph_lock : option GraphLock) (st st' : State) (new_node : nat) :
  _create_new_node self fuel current_node requirement graph_lock st = Ok new_node st' ->
  exists created r' path status remote new_ref,
    new_node = List.length (node_objects st)
    /\ node_objects st' = node_objects st ++ [created]
    /\ nth_error (requirement_objects st') requirement = Some r'
    /\ get_recipe self (Requirement.ref r') = Some (path, status, remote, new_ref)
    /\ Node.ref created = Some new_ref
    /\ Node.recipe created = Some status
    /\ Node.remote created = remote
    /\ Node.revision_pinned created = is_some (revision (Requirement.ref r'))
    /\ ConanFile.alias (Node.conanfile created) = None
    /\ (forall i, Requirement.locked_id r' = Some i -> Node.id created = Some i)
    /\ In new_node (DepsGraph.nodes (dep_graph st'))
    /\ In (current_node, new_node, requirement) (DepsGraph.edges (dep_graph st')).
Proof.
  intros Hrun. unfold _create_new_node in Hrun.
  apply bind_inv_ok in Hrun as (resolved & s1 & Hresolve & Hrun).
  destruct resolved as [[[[new_ref dep_conanfile] recipe_status] remote] locked_id].
  assert (Hnodes : node_objects s1 = node_objects st).
  { pose proof (resolve_recipe_nodes self (node_objects st) fuel current_node requirement
                  graph_lock None st eq_refl) as H.
    now rewrite Hresolve in H. }
  destruct (resolve_recipe_result self fuel _ _ _ _ _ _ _ _ _ _ _ Hresolve)
    as (r' & path & m & earlier & Hr' & Hget & _ & _ & Hnot & _ & Hlocked & _ & _).
  rewrite (bind_ok _ _ _ _ _ (requirement_at_ok _ _ _ Hr')) in Hrun. cbv beta in Hrun.
  apply bind_inv_ok in Hrun as (cur & s1' & Hcur & Hrun).
  apply node_at_inv in Hcur as [-> Hcur]. cbv zeta in Hrun.
  unfold new_node_object at 1, bind at 1 in Hrun.
  match type of Hrun with
  | context [node_objects s1 ++ [?c]] => set (created := c) in *
  end.
  set (s2 := set_node_objects (node_objects s1 ++ [created]) s1) in *.
  assert (Hat : nth_error (node_objects s2) (List.length (node_objects s1)) = Some created)
    by apply nth_error_snoc.
  destruct (add_node_spec s2 _ created Hat) as (n' & g' & Hadd & Hn' & Hgn & Hge & Hga & _).
  rewrite (bind_ok _ _ _ _ _ Hadd) in Hrun. cbv beta in Hrun.
  unfold add_edge, update_graph, modify, bind, ret in Hrun. injection Hrun as <- <-.
  assert (Hset : forall (l : list Node.t) x y, list_set (l ++ [x]) (List.length l) y = l ++ [y]).
  { clear. intros l x y. induction l as [|z l IH]; simpl; [reflexivity | now rewrite IH]. }
  exists n', r', path, recipe_status, remote, new_ref.
  cbn [node_objects requirement_objects dep_graph set_dep_graph set_node_objects
       DepsGraph.nodes DepsGraph.edges].
  unfold s2 at 1. cbn [node_objects set_node_objects]. rewrite Hset, Hnodes.
  assert (Hfields : Node.ref n' = Some new_ref /\ Node.recipe n' = Some recipe_status
                    /\ Node.remote n' = remote
                    /\ Node.revision_pinned n' = is_some (revision (Requirement.ref r'))
                    /\ Node.conanfile n' = dep_conanfile
                    /\ (forall i, locked_id = Some i -> Node.id n' = Some i)).
  { subst n'. unfold created. destruct locked_id as [i|]; cbn.
    - repeat split; try reflexivity. now intros j [= ->].
    - repeat split; try reflexivity. discriminate. }
  destruct Hfields as (Href & Hrecipe & Hremote & Hpinned & Hconanfile & Hid).
  split; [reflexivity|]. split; [reflexivity|]. split; [exact Hr'|]. split; [exact Hget|].
  split; [exact Href|]. split; [exact Hrecipe|]. split; [exact Hremote|].
  split; [exact Hpinned|]. split; [now rewrite Hconanfile|].
  split; [intros i Hi; apply Hid; congruence|].
  split.
  - rewrite Hgn. apply set_add_in. right. now rewrite Hnodes.
  - apply in_or_app. right. now left.
Qed.

Lemma created_node_is_the_resolved_recipe_witness :
  Node.ref Creation.created = Some Examples.C1r2
  /\ Node.revision_pinned Creation.created = true.
Proof.
  assert (Hrun : _create_new_node Creation.self 3 0 0 None Creation.state =
                 Ok 1 Creation.state_created) by (vm_compute; reflexivity).
  destruct (created_node_is_the_resolved_recipe
              Creation.self 3 0 0 None Creation.state Creation.state_created 1 Hrun)
    as (created & r' & path & status & remote & new_ref & _ & Hnodes & Hr' & Hget & Href
        & _ & _ & Hpinned & _).
  assert (Hcreated : created = Creation.created).
  { unfold Creation.created. rewrite Hnodes. reflexivity. }
  assert (Hat : nth_error (requirement_objects Creation.state_created) 0 =
                Some (Requirement.set_ref Examples.C1r2 (Scenario.public Examples.Clatest)))
    by (vm_compute; reflexivity).
  rewrite Hat in Hr'. injection Hr' as <-.
  assert (Hnew : new_ref = Examples.C1r2).
  { vm_compute in Hget. now injection Hget. }
  subst created new_ref. split; [exact Href | exact Hpinned].
Defined.

(** ** Requirements that are not expanded *)

Lemma for_each_overrides (st : State) (requires : list nat) (body : nat -> M unit) :
  (forall a, In a requires ->
     exists r, nth_error (requirement_objects st) a = Some r /\ Requirement.override r = true) ->
  for_each requires (fun require =>
    r <- requirement_at require ;;
    if Requirement.override r then ret tt else body require) st = Ok tt st.
Proof.
  induction requires as [|a requires IH]; intros Hall; [reflexivity|].
  destruct (Hall a (or_introl eq_refl)) as (r & Hr & Hoverride).
  cbn [for_each]. unfold bind at 1.
  rewrite (bind_ok _ _ _ _ _ (requirement_at_ok _ _ _ Hr)). cbv beta.
  rewrite Hoverride. unfold ret at 1. apply IH. intros b Hb. apply Hall. now right.
Qed.

(** X12: a requirement marked as an override is not expanded: when every
    requirement of a node is one (or the node has none), expanding the
    node ends with the evaluation of its requirements; no recipe is asked
    for, no node and no edge is added. *)
Theorem overrides_are_not_expanded
    (self : Collaborators) (fuel node : nat) (down_reqs : option Requirements)
    (down_ref : option ConanFileReference) (down_options : option DepsOptions)
    (graph_lock : option GraphLock) (st st1 : State)
    (new_options : DepsOptions) (new_reqs : option Requirements) (n : Node.t) :
  _get_node_requirements self node down_ref down_options down_reqs graph_lock st =
    Ok (new_options, new_reqs) st1 ->
  nth_error (node_objects st1) node = Some n ->
  only_overrides st1 n ->
  _expand_node self (S fuel) node down_reqs down_ref down_options graph_lock st = Ok tt st1.
Proof.
  intros Hget Hn Hall. cbn [_expand_node].
  rewrite (bind_ok _ _ _ _ _ Hget). cbv beta iota.
  rewrite (bind_ok _ _ _ _ _ (node_at_ok _ _ _ Hn)). cbv beta.
  now apply for_each_overrides.
Qed.

Lemma overrides_are_not_expanded_witness :
  _expand_node Overrides.self 1 0 (Some []) None None None Overrides.entered =
    Ok tt Overrides.evaluated.
Proof.
  assert (Hget : _get_node_requirements Overrides.self 0 None None (Some []) None
                   Overrides.entered = Ok ([], Some [("C", 0)]) Overrides.evaluated)
    by (vm_compute; reflexivity).
  assert (Hn : nth_error (node_objects Overrides.evaluated) 0 = Some Overrides.evaluated_root)
    by (vm_compute; reflexivity).
  apply (overrides_are_not_expanded
           Overrides.self 0 0 (Some []) None None None Overrides.entered Overrides.evaluated
           [] (Some [("C", 0)]) Overrides.evaluated_root Hget Hn).
  intros a Ha. vm_compute in Ha. destruct Ha as [<- | []].
  exists (Overrides.override Examples.C2). split; vm_compute; reflexivity.
Defined.

(** *** The graph of a root that has nothing to expand *)

Section GraphFrame.
Variable g : DepsGraph.t.

Lemma update_node_graph (a : nat) (f : Node.t -> Node.t) :
  preserves (graph_is g) (update_node a f).
Proof. unfold update_node. preserve. apply preserves_modify. now intros s H. Qed.

Lemma update_requirement_graph (a : nat) (f : Requirement.t -> Requirement.t) :
  preserves (graph_is g) (update_requirement a f).
Proof. unfold update_requirement. preserve. apply preserves_modify. now intros s H. Qed.

Lemma new_requirement_graph (r : Requirement.t) :
  preserves (graph_is g) (new_requirement_object r).
Proof. intros s H. exact H. Qed.

Ltac graph_frame :=
  preserve;
  try solve [ apply update_node_graph | apply update_requirement_graph
            | apply new_requirement_graph ].

Lemma requirement_items_graph (reqs : Requirements) :
  preserves (graph_is g) (requirement_items reqs).
Proof. induction reqs as [|[nm a] reqs IH]; simpl; graph_frame. exact IH. Qed.

Lemma requires_update_graph (self down_reqs : Requirements)
    (own_ref : option ConanFileReference) :
  preserves (graph_is g) (requires_update self down_reqs own_ref).
Proof.
  unfold requires_update.
  generalize (match own_ref with
              | Some r => dict_pop down_reqs (name r)
              | None => down_reqs
              end).
  induction self as [|[nm a] self IH]; intros start; [graph_frame|].
  apply preserves_bind; [graph_frame | intros new_reqs'; apply IH].
Qed.

Lemma resolve_cached_alias_graph (requires : list nat) :
  preserves (graph_is g) (_resolve_cached_alias requires).
Proof. unfold _resolve_cached_alias. graph_frame. Qed.

Lemma get_node_requirements_graph (self : Collaborators) (node : nat)
    (down_ref : option ConanFileReference) (down_options : option DepsOptions)
    (down_reqs : option Requirements) (graph_lock : option GraphLock) :
  preserves (graph_is g)
    (_get_node_requirements self node down_ref down_options down_reqs graph_lock).
Proof.
  unfold _get_node_requirements, _config_node, run_hook, config_failure, declare_requirement,
    lock_node, _resolve_ranges, check_evaluated_requires, requirements_ne.
  graph_frame;
    try solve [ apply resolve_cached_alias_graph | apply requires_update_graph
              | apply requirement_items_graph ].
Qed.

End GraphFrame.

Lemma load_graph_entry (self : Collaborators) (fuel root_node : nat)
    (graph_lock : option GraphLock) (st st0 : State) :
  root_entry root_node graph_lock st = Ok tt st0 ->
  load_graph self fuel root_node graph_lock st =
    (_expand_node self fuel root_node (Some []) None None graph_lock ;; graph) st0.
Proof.
  unfold root_entry, load_graph. cbv zeta. unfold bind.
  cbn [modify].
  destruct (node_at root_node _) as [root s1 | |]; [|discriminate..].
  destruct (update_node root_node _ s1) as [[] s2 | |]; [|discriminate..].
  destruct (update_node root_node _ s2) as [[] s3 | |]; [|discriminate..].
  destruct (update_node root_node _ s3) as [[] s4 | |]; [|discriminate..].
  destruct (update_node root_node _ s4) as [[] s5 | |]; [|discriminate..].
  destruct (add_node root_node s5) as [[] s6 | |]; [|discriminate..].
  now intros [= ->].
Qed.

Lemma update_node_keeps_graph (a : nat) (f : Node.t -> Node.t) (st st' : State) :
  update_node a f st = Ok tt st' -> dep_graph st' = dep_graph st.
Proof.
  intros H. pose proof (update_node_graph (dep_graph st) a f st eq_refl) as Hg.
  now rewrite H in Hg.
Qed.

(** the graph [load_graph] starts the expansion with *)
Lemma root_entry_graph (root_node : nat) (graph_lock : option GraphLock) (st st0 : State) :
  root_entry root_node graph_lock st = Ok tt st0 ->
  DepsGraph.nodes (dep_graph st0) = [root_node]
  /\ DepsGraph.edges (dep_graph st0) = []
  /\ DepsGraph.aliased (dep_graph st0) = [].
Proof.
  intros Hentry. unfold root_entry in Hentry. cbv zeta in Hentry.
  unfold modify at 1, bind at 1 in Hentry.
  apply bind_inv_ok in Hentry as (root & s1 & Hroot & Hentry).
  apply node_at_inv in Hroot as [-> Hroot].
  apply bind_inv_ok in Hentry as ([] & s2 & H2 & Hentry).
  apply bind_inv_ok in Hentry as ([] & s3 & H3 & Hentry).
  apply bind_inv_ok in Hentry as ([] & s4 & H4 & Hentry).
  apply bind_inv_ok in Hentry as ([] & s5 & H5 & Hentry).
  apply update_node_keeps_graph in H2, H3, H4, H5.
  assert (Hg5 : dep_graph s5 = DepsGraph.init (option_map initial_counter graph_lock))
    by (rewrite H5, H4, H3, H2; reflexivity).
  destruct (nth_error (node_objects s5) root_node) as [n5|] eqn:Hn5.
  - destruct (add_node_spec s5 root_node n5 Hn5) as (n' & g' & Hadd & _ & Hgn & Hge & Hga & _).
    rewrite Hadd in Hentry. injection Hentry as <-. cbn [dep_graph set_dep_graph].
    rewrite Hgn, Hge, Hga, Hg5. repeat split.
  - unfold add_node, bind, node_at in Hentry. rewrite Hn5 in Hentry. discriminate.
Qed.

(** X13: the graph [load_graph] returns for a root whose requirements,
    once evaluated, are all overrides (or that has none) holds the root
    node and nothing else: no edge, no cached alias; whatever graph the
    state held before is not looked at. *)
Theorem graph_of_a_root_with_nothing_to_expand
    (self : Collaborators) (fuel root_node : nat) (graph_lock : option GraphLock)
    (st st0 st1 : State) (new_options : DepsOptions) (new_reqs : option Requirements)
    (n : Node.t) :
  root_entry root_node graph_lock st = Ok tt st0 ->
  _get_node_requirements self root_node None None (Some []) graph_lock st0 =
    Ok (new_options, new_reqs) st1 ->
  nth_error (node_objects st1) root_node = Some n ->
  only_overrides st1 n ->
  exists g,
    load_graph self (S fuel) root_node graph_lock st = Ok g st1
    /\ DepsGraph.nodes g = [root_node]
    /\ DepsGraph.edges g = []
    /\ DepsGraph.aliased g = [].
Proof.
  intros Hentry Hget Hn Hall.
  exists (dep_graph st1). split.
  - rewrite (load_graph_entry self (S fuel) root_node graph_lock st st0 Hentry).
    unfold bind. cbn [_expand_node].
    rewrite (bind_ok _ _ _ _ _ Hget). cbv beta iota.
    rewrite (bind_ok _ _ _ _ _ (node_at_ok _ _ _ Hn)). cbv beta.
    now rewrite (for_each_overrides st1 _ _ Hall).
  - assert (Hg : dep_graph st1 = dep_graph st0).
    { pose proof (get_node_requirements_graph (dep_graph st0) self root_node None None
                    (Some []) graph_lock st0 eq_refl) as H.
      now rewrite Hget in H. }
    rewrite Hg. exact (root_entry_graph root_node graph_lock st st0 Hentry).
Qed.

Lemma graph_of_a_root_with_nothing_to_expand_witness :
  exists g,
    load_graph Overrides.self 1 0 None Overrides.state = Ok g Overrides.evaluated
    /\ DepsGraph.nodes g = [0].
Proof.
  assert (Hentry : root_entry 0 None Overrides.state = Ok tt Overrides.entered)
    by (vm_compute; reflexivity).
  assert (Hget : _get_node_requirements Overrides.self 0 None None (Some []) None
                   Overrides.entered = Ok ([], Some [("C", 0)]) Overrides.evaluated)
    by (vm_compute; reflexivity).
  assert (Hn : nth_error (node_objects Overrides.evaluated) 0 = Some Overrides.evaluated_root)
    by (vm_compute; reflexivity).
  destruct (graph_of_a_root_with_nothing_to_expand
              Overrides.self 0 0 None Overrides.state Overrides.entered Overrides.evaluated
              [] (Some [("C", 0)]) Overrides.evaluated_root Hentry Hget Hn)
    as (g & Hrun & Hnodes & _).
  - intros a Ha. vm_compute in Ha. destruct Ha as [<- | []].
    exists (Overrides.override Examples.C2). split; vm_compute; reflexivity.
  - exists g. split; assumption.
Defined.

(** ** Version ranges *)

Lemma for_each_app {A} (l1 l2 : list A) (body : A -> M unit) (st : State) :
  for_each (l1 ++ l2) body st = (for_each l1 body ;; for_each l2 body) st.
Proof.
  revert st. induction l1 as [|x l1 IH]; intros st; [reflexivity|].
  cbn [for_each app]. unfold bind.
  destruct (body x st) as [[] s1 | e s1 |]; [|reflexivity..].
  rewrite IH. reflexivity.
Qed.

Lemma resolve_ranges_loop (self : Collaborators) (consumer : string) (requires : list nat) :
  NoDup requires ->
  forall st,
    (forall a, In a requires ->
       exists r, nth_error (requirement_objects st) a = Some r
                 /\ resolve self r consumer <> None) ->
    exists st',
      for_each requires (resolve_range self consumer) st = Ok tt st'
      /\ dep_graph st' = dep_graph st
      /\ node_objects st' = node_objects st
      /\ recipe_requests st' = recipe_requests st
      /\ List.length (requirement_objects st') = List.length (requirement_objects st)
      /\ (forall a r, In a requires -> nth_error (requirement_objects st) a = Some r ->
            nth_error (requirement_objects st') a = resolved_range self consumer r)
      /\ (forall a, ~ In a requires ->
            nth_error (requirement_objects st') a = nth_error (requirement_objects st) a).
Proof.
  induction 1 as [|a requires Hnotin Hnodup IH]; intros st Hvalid.
  - exists st. simpl. repeat split; auto. intros a r [].
  - destruct (Hvalid a (or_introl eq_refl)) as (r & Hr & Hresolve).
    destruct (resolve self r consumer) as [new_ref|] eqn:Hnew; [|congruence].
    set (st1 := set_requirement_objects
                  (list_set (requirement_objects st) a (Requirement.set_ref new_ref r)) st).
    assert (Hstep : resolve_range self consumer a st = Ok tt st1).
    { unfold resolve_range. rewrite (bind_ok _ _ _ _ _ (requirement_at_ok _ _ _ Hr)). cbv beta.
      rewrite Hnew. now apply update_requirement_ok. }
    destruct (IH st1) as (st' & Hrun & Hg & Hn & Hlog & Hlen & Hin & Hout).
    { intros b Hb. destruct (Hvalid b (or_intror Hb)) as (rb & Hrb & Hresolve_b).
      exists rb. split; [|exact Hresolve_b]. unfold st1. cbn [requirement_objects
        set_requirement_objects]. rewrite nth_error_list_set_neq; [exact Hrb|].
      intros ->. contradiction. }
    exists st'. cbn [for_each]. rewrite (bind_ok _ _ _ _ _ Hstep).
    split; [exact Hrun|].
    unfold st1 in Hg, Hn, Hlog, Hlen, Hin, Hout.
    cbn [requirement_objects set_requirement_objects dep_graph node_objects recipe_requests]
      in Hg, Hn, Hlog, Hlen, Hin, Hout.
    rewrite length_list_set in Hlen.
    split; [exact Hg|]. split; [exact Hn|]. split; [exact Hlog|]. split; [exact Hlen|]. split.
    + intros b rb [<- | Hb] Hrb.
      * rewrite Hout by assumption.
        rewrite Hr in Hrb. injection Hrb as <-.
        unfold resolved_range. rewrite Hnew. cbn [option_map].
        now apply nth_error_list_set_eq with (y := r).
      * apply (Hin b rb Hb).
        rewrite nth_error_list_set_neq; [exact Hrb|]. intros ->. contradiction.
    + intros b Hb. rewrite Hout by (intros Hin'; apply Hb; now right).
      apply nth_error_list_set_neq. intros ->. apply Hb. now left.
Qed.

Lemma resolve_ranges_unfold (self : Collaborators) (requires : list nat) (consumer : string)
    (st : State) :
  _resolve_ranges self requires consumer st =
    (for_each requires (resolve_range self consumer) ;; _resolve_cached_alias requires) st.
Proof. reflexivity. Qed.

(** X14: [_resolve_ranges] first lets the resolver rewrite every
    requirement, and then looks the rewritten references up in the cached
    aliases: a requirement ends with the cached target of the reference
    the resolver answered, when there is one, and with that reference
    otherwise; the nodes, the graph and the other requirements are left
    as they are. *)
Theorem ranges_are_resolved_before_cached_aliases
    (self : Collaborators) (requires : list nat) (consumer : string) (st : State) :
  NoDup requires ->
  (forall a, In a requires ->
     exists r, nth_error (requirement_objects st) a = Some r
               /\ resolve self r consumer <> None) ->
  exists st',
    _resolve_ranges self requires consumer st = Ok tt st'
    /\ node_objects st' = node_objects st
    /\ dep_graph st' = dep_graph st
    /\ (forall a r, In a requires -> nth_error (requirement_objects st) a = Some r ->
          nth_error (requirement_objects st') a =
            option_map (cached_alias (DepsGraph.aliased (dep_graph st)))
                       (resolved_range self consumer r))
    /\ (forall a, ~ In a requires ->
          nth_error (requirement_objects st') a = nth_error (requirement_objects st) a).
Proof.
  intros Hnodup Hvalid.
  destruct (resolve_ranges_loop self consumer requires Hnodup st Hvalid)
    as (st1 & Hrun & Hg & Hn & _ & Hlen & Hin & Hout).
  rewrite resolve_ranges_unfold, (bind_ok _ _ _ _ _ Hrun). cbv beta.
  assert (Hresolved : forall a r, In a requires ->
            nth_error (requirement_objects st) a = Some r ->
            exists new_ref, resolve self r consumer = Some new_ref
              /\ nth_error (requirement_objects st1) a = Some (Requirement.set_ref new_ref r)).
  { intros a r Ha Hr. destruct (Hvalid a Ha) as (r0 & Hr0 & Hsome).
    rewrite Hr in Hr0. injection Hr0 as <-.
    destruct (resolve self r consumer) as [new_ref|] eqn:Hnew; [|congruence].
    exists new_ref. split; [reflexivity|].
    rewrite (Hin a r Ha Hr). unfold resolved_range. now rewrite Hnew. }
  unfold _resolve_cached_alias, graph at 1, bind at 1.
  destruct (DepsGraph.aliased (dep_graph st1)) as [|entry table] eqn:Htable.
  - exists st1. split; [reflexivity|]. split; [exact Hn|]. split; [exact Hg|].
    split; [|exact Hout].
    intros a r Ha Hr. destruct (Hresolved a r Ha Hr) as (new_ref & Hnew & Hat).
    rewrite Hat. unfold resolved_range. rewrite Hnew. cbn [option_map].
    rewrite <- Hg, Htable. reflexivity.
  - destruct (resolve_cached_alias_loop requires Hnodup st1) as
      (st' & Hrun' & Hg' & Hn' & _ & _ & Hin' & Hout').
    { intros a Ha. rewrite Hlen. destruct (Hvalid a Ha) as (r & Hr & _).
      apply nth_error_Some. congruence. }
    exists st'. split; [exact Hrun'|]. split; [congruence|]. split; [congruence|]. split.
    + intros a r Ha Hr. destruct (Hresolved a r Ha Hr) as (new_ref & Hnew & Hat).
      rewrite (Hin' a _ Ha Hat). unfold resolved_range. rewrite Hnew. cbn [option_map].
      now rewrite Hg.
    + intros a Ha. now rewrite Hout', Hout.
Qed.

Lemma ranges_are_resolved_before_cached_aliases_witness :
  exists st',
    _resolve_ranges Ranges.self [0] "B/1.0" Ranges.state = Ok tt st'
    /\ nth_error (requirement_objects st') 0 =
         Some (Requirement.set_ref Examples.C1 (Scenario.public Ranges.Crange)).
Proof.
  destruct (ranges_are_resolved_before_cached_aliases Ranges.self [0] "B/1.0" Ranges.state)
    as (st' & Hrun & _ & _ & Hin & _).
  - repeat constructor. intros [].
  - intros a [<- | []]. exists (Scenario.public Ranges.Crange). split; [reflexivity|].
    discriminate.
  - exists st'. split; [exact Hrun|].
    apply (Hin 0 (Scenario.public Ranges.Crange)); [now left | reflexivity].
Defined.

(** X15: when the resolver fails for a requirement, [_resolve_ranges]
    raises for the reference of that requirement; the requirements before
    it in the list are left rewritten to what the resolver answered, and
    the cached aliases are not applied to them. *)
Theorem range_failure_leaves_earlier_requirements_resolved
    (self : Collaborators) (before after : list nat) (failing : nat) (consumer : string)
    (st : State) (r : Requirement.t) :
  NoDup (before ++ [failing]) ->
  (forall a, In a before ->
     exists r, nth_error (requirement_objects st) a = Some r
               /\ resolve self r consumer <> None) ->
  nth_error (requirement_objects st) failing = Some r ->
  resolve self r consumer = None ->
  exists st',
    _resolve_ranges self (before ++ failing :: after) consumer st =
      Raise (RangeResolutionFailure (Requirement.ref r)) st'
    /\ node_objects st' = node_objects st
    /\ dep_graph st' = dep_graph st
    /\ (forall a r, In a before -> nth_error (requirement_objects st) a = Some r ->
          nth_error (requirement_objects st') a = resolved_range self consumer r)
    /\ (forall a, ~ In a before ->
          nth_error (requirement_objects st') a = nth_error (requirement_objects st) a).
Proof.
  intros Hnodup Hvalid Hr Hfail.
  assert (Hbefore : NoDup before) by (apply NoDup_app_remove_r in Hnodup; exact Hnodup).
  assert (Hnotin : ~ In failing before).
  { intros Hin. apply NoDup_remove_2 in Hnodup. rewrite app_nil_r in Hnodup. contradiction. }
  destruct (resolve_ranges_loop self consumer before Hbefore st Hvalid)
    as (st1 & Hrun & Hg & Hn & _ & _ & Hin & Hout).
  exists st1. split.
  - rewrite resolve_ranges_unfold. unfold bind at 1. rewrite for_each_app.
    rewrite (bind_ok _ _ _ _ _ Hrun). cbv beta. cbn [for_each]. unfold bind at 1.
    unfold resolve_range at 1.
    assert (Hr1 : nth_error (requirement_objects st1) failing = Some r)
      by (rewrite Hout; assumption).
    rewrite (bind_ok _ _ _ _ _ (requirement_at_ok _ _ _ Hr1)). cbv beta.
    rewrite Hfail. reflexivity.
  - split; [exact Hn|]. split; [exact Hg|]. split; [exact Hin | exact Hout].
Qed.

Lemma range_failure_leaves_earlier_requirements_resolved_witness :
  _resolve_ranges Ranges.self [0; 1] "B/1.0" Ranges.state =
    Raise (RangeResolutionFailure Examples.A) Ranges.state_failed.
Proof.
  destruct (range_failure_leaves_earlier_requirements_resolved
              Ranges.self [0] [] 1 "B/1.0" Ranges.state (Scenario.public Examples.A))
    as (st' & Hrun & _).
  - repeat constructor; simpl; intuition discriminate.
  - intros a [<- | []]. exists (Scenario.public Ranges.Crange). split; [reflexivity|].
    discriminate.
  - reflexivity.
  - reflexivity.
  - cbn [app] in Hrun. rewrite Hrun. f_equal. revert Hrun. vm_compute. now intros [= <-].
Defined.

(** ** Build requires: what the reordering keeps *)

Section DictEntries.
Context {K V : Type} `{PyEq K}.

Lemma dict_get_in (d : dict K V) (k : K) (v : V) :
  NoDup (dict_keys d) -> (dict_get d k = Some v <-> In (k, v) d).
Proof.
  induction d as [|[k' v'] d IH]; simpl; intros Hd.
  - split; [discriminate | intros []].
  - inversion Hd as [|? ? Hk Hd']; subst.
    destruct (py_eq_spec k' k) as [-> | Hne].
    + split.
      * intros [= ->]. now left.
      * intros [[= ->] | Hin]; [reflexivity|].
        exfalso. apply Hk. unfold dict_keys. apply in_map_iff. now exists (k, v).
    + rewrite (IH Hd'). split; [now right|].
      intros [[= -> _] | Hin]; [congruence | exact Hin].
Qed.

Lemma dict_get_permutation (d d' : dict K V) (k : K) :
  NoDup (dict_keys d) -> Permutation d d' -> dict_get d' k = dict_get d k.
Proof.
  intros Hd Hperm.
  assert (Hd' : NoDup (dict_keys d')).
  { apply (Permutation_NoDup (l := dict_keys d)); [|exact Hd].
    unfold dict_keys. now apply Permutation_map. }
  destruct (dict_get d k) as [v|] eqn:Hget.
  - apply (dict_get_in d' k v Hd'). apply (Permutation_in _ Hperm).
    now apply (dict_get_in d k v Hd).
  - destruct (dict_get d' k) as [v'|] eqn:Hget'; [|reflexivity].
    apply (dict_get_in d' k v' Hd') in Hget'.
    apply (Permutation_in _ (Permutation_sym Hperm)) in Hget'.
    apply (dict_get_in d k v' Hd) in Hget'. congruence.
Qed.

End DictEntries.

(** X16: the reordering that ends [extend_build_requires] changes the
    order of the closure of the node and nothing else: the closure holds
    the same entries, every package name is still looked up to the same
    node, and the rest of the node, the other nodes, the requirements and
    the graph are as they were. *)
Theorem reordering_keeps_every_entry (node : nat) (st : State) (n : Node.t) :
  nth_error (node_objects st) node = Some n ->
  closure_keyed_once n ->
  exists new_nodes closure,
    order_closure node st =
      Ok new_nodes
         (set_node_objects (list_set (node_objects st) node (Node.set_public_closure closure n))
                           st)
    /\ Permutation (Node.public_closure n) closure
    /\ forall k, dict_get closure k = dict_get (Node.public_closure n) k.
Proof.
  intros Hn Hkeys.
  destruct (nodes_without_package_id_spec st) as (new_nodes & Hnew & _).
  exists new_nodes, (reorder_closure new_nodes (Node.public_closure n)).
  assert (Hperm : Permutation (Node.public_closure n)
                    (reorder_closure new_nodes (Node.public_closure n))).
  { rewrite (reorder_closure_partition new_nodes _ Hkeys).
    apply (partition_permutation (is_new new_nodes)). }
  split; [|split; [exact Hperm|]].
  - unfold order_closure. rewrite (bind_ok _ _ _ _ _ Hnew). cbv beta.
    now rewrite (bind_ok _ _ _ _ _ (update_node_ok _ _ _ _ Hn)).
  - intros k. now apply dict_get_permutation.
Qed.

Lemma reordering_keeps_every_entry_witness :
  exists new_nodes closure,
    order_closure 0 BuildRequires.expanded =
      Ok new_nodes
         (set_node_objects
            (list_set (node_objects BuildRequires.expanded) 0
                      (Node.set_public_closure closure BuildRequires.root))
            BuildRequires.expanded)
    /\ dict_get closure (Some "Z") = Some 3.
Proof.
  assert (Hn : nth_error (node_objects BuildRequires.expanded) 0 = Some BuildRequires.root)
    by (vm_compute; reflexivity).
  assert (Hkeys : closure_keyed_once BuildRequires.root).
  { unfold closure_keyed_once. vm_compute.
    repeat constructor; simpl; intuition discriminate. }
  destruct (reordering_keeps_every_entry 0 BuildRequires.expanded BuildRequires.root Hn Hkeys)
    as (new_nodes & closure & Hrun & _ & Hget).
  exists new_nodes, closure. split; [exact Hrun|].
  rewrite Hget. vm_compute. reflexivity.
Defined.

(** *** No build requires *)

Lemma list_set_twice {A} (l : list A) (i : nat) (x y : A) :
  list_set (list_set l i x) i y = list_set l i y.
Proof. revert i. induction l as [|z l IH]; intros [|i]; simpl; try reflexivity. now rewrite IH. Qed.

Lemma resolve_ranges_nothing (self : Collaborators) (consumer : string) (st : State) :
  _resolve_ranges self [] consumer st = Ok tt st.
Proof.
  unfold _resolve_ranges, _resolve_cached_alias, bind, graph. cbn [for_each]. unfold ret.
  now destruct (DepsGraph.aliased (dep_graph st)).
Qed.

(** X17: [extend_build_requires] with no reference to expand asks for no
    recipe and adds nothing to the graph, with or without a lock and even
    when no nested call is left; it still clears the options of the node
    that name no package, puts its closure in the order that has the
    nodes without a package id first, and returns these nodes. *)
Theorem extending_with_no_build_requires
    (self : Collaborators) (fuel node : nat) (graph_lock : option GraphLock)
    (st : State) (n : Node.t) :
  nth_error (node_objects st) node = Some n ->
  exists new_nodes,
    nodes_without_package_id st = Ok new_nodes st
    /\ extend_build_requires self fuel node [] graph_lock st =
         Ok new_nodes
            (set_node_objects
               (list_set (node_objects st) node (without_build_requires new_nodes n)) st).
Proof.
  intros Hn.
  destruct (nodes_without_package_id_spec st) as (new_nodes & Hnew & _).
  exists new_nodes. split; [exact Hnew|].
  set (n1 := Node.set_conanfile
               (ConanFile.set_build_requires_options
                  (OptionsValues.clear_unscoped_options
                     (ConanFile.build_requires_options (Node.conanfile n)))
                  (Node.conanfile n)) n).
  set (s1 := set_node_objects (list_set (node_objects st) node n1) st).
  assert (Hn1 : nth_error (node_objects s1) node = Some n1)
    by (apply nth_error_list_set_eq with (y := n); exact Hn).
  assert (Hexpand : expand_build_requires self fuel node [] graph_lock st = Ok tt s1).
  { unfold expand_build_requires.
    rewrite (bind_ok _ _ _ _ _ (update_node_ok _ _ _ _ Hn)). cbv beta. fold n1 s1.
    rewrite (bind_ok _ _ _ _ _ (node_at_ok _ _ _ Hn1)). cbv beta zeta.
    unfold ret at 1, bind at 1.
    assert (Hlock : match graph_lock with
                    | Some lock => lock_node lock node [] true
                    | None => ret tt
                    end s1 = Ok tt s1).
    { destruct graph_lock as [lock|]; [|reflexivity].
      unfold lock_node. now rewrite (bind_ok _ _ _ _ _ (node_at_ok _ _ _ Hn1)). }
    rewrite (bind_ok _ _ _ _ _ Hlock). cbv beta.
    now rewrite (bind_ok _ _ _ _ _ (resolve_ranges_nothing self _ s1)). }
  assert (Hnew1 : nodes_without_package_id s1 = Ok new_nodes s1).
  { revert Hnew. unfold nodes_without_package_id, graph, get_state, bind, ret.
    intros [= Hfilter]. f_equal. rewrite <- Hfilter.
    apply filter_ext. intros a. unfold s1. cbn [node_objects set_node_objects].
    destruct (Nat.eq_dec node a) as [<- | Hne].
    - rewrite (nth_error_list_set_eq _ _ n1 n Hn), Hn. reflexivity.
    - now rewrite nth_error_list_set_neq. }
  unfold extend_build_requires. rewrite (bind_ok _ _ _ _ _ Hexpand). cbv beta.
  unfold order_closure. rewrite (bind_ok _ _ _ _ _ Hnew1). cbv beta.
  rewrite (bind_ok _ _ _ _ _ (update_node_ok _ _ _ _ Hn1)). cbv beta.
  unfold ret, s1. cbn [node_objects set_node_objects]. rewrite list_set_twice.
  reflexivity.
Qed.

Lemma extending_with_no_build_requires_witness :
  exists new_nodes,
    nodes_without_package_id BuildRequires.state = Ok new_nodes BuildRequires.state
    /\ extend_build_requires (Scenario.cache BuildRequires.tools) 0 0 [] None
                             BuildRequires.state =
         Ok new_nodes
            (set_node_objects
               (list_set (node_objects BuildRequires.state) 0
                  (without_build_requires new_nodes
                     (nth 0 (node_objects BuildRequires.state) Scenario.no_node)))
               BuildRequires.state).
Proof.
  assert (Hn : nth_error (node_objects BuildRequires.state) 0 =
               Some (nth 0 (node_objects BuildRequires.state) Scenario.no_node))
    by (vm_compute; reflexivity).
  exact (extending_with_no_build_requires
           (Scenario.cache BuildRequires.tools) 0 0 None BuildRequires.state _ Hn).
Defined.

(** ** What the expansion of the graph never takes back *)

Lemma node_kept_refl (n : Node.t) : node_kept n n.
Proof. constructor; auto using incl_refl. Qed.

Lemma node_kept_trans (n0 n1 n2 : Node.t) :
  node_kept n0 n1 -> node_kept n1 n2 -> node_kept n0 n2.
Proof.
  intros [] []. constructor; try congruence; eauto using incl_tran.
Qed.

Lemma requirement_kept_refl (r : Requirement.t) : requirement_kept r r.
Proof. now constructor. Qed.

Lemma requirement_kept_trans (r0 r1 r2 : Requirement.t) :
  requirement_kept r0 r1 -> requirement_kept r1 r2 -> requirement_kept r0 r2.
Proof. intros [] []. constructor; congruence. Qed.

Lemma graph_grows_refl (g : DepsGraph.t) : graph_grows g g.
Proof.
  constructor; auto using incl_refl. exists []. now rewrite app_nil_r.
Qed.

Lemma graph_grows_trans (g0 g1 g2 : DepsGraph.t) :
  graph_grows g0 g1 -> graph_grows g1 g2 -> graph_grows g0 g2.
Proof.
  intros [Hn1 [m1 He1] Ha1 Hc1] [Hn2 [m2 He2] Ha2 Hc2]. constructor.
  - eauto using incl_tran.
  - exists (m1 ++ m2). now rewrite He2, He1, app_assoc.
  - auto.
  - lia.
Qed.

Lemma grows_refl (locked : bool) (st : State) : grows locked st st.
Proof.
  split; [|split].
  - intros a n0 Hn0. exists n0. split; [exact Hn0 | apply node_kept_refl].
  - destruct locked.
    + unfold requirements_stay. lia.
    + intros a r0 Hr0. exists r0. split; [exact Hr0 | apply requirement_kept_refl].
  - apply graph_grows_refl.
Qed.

Section SetInclusion.
Context {K : Type} `{PyEq K}.

Lemma incl_set_add (k : K) (s : list K) : incl s (set_add k s).
Proof. intros x Hx. apply set_add_in. now left. Qed.

Lemma incl_set_update (s other : list K) : incl s (set_update s other).
Proof. intros x Hx. apply set_update_in. now left. Qed.

End SetInclusion.

Lemma dict_set_keeps_keys {K V} `{PyEq K} (d : dict K V) (k k0 : K) (v : V) :
  dict_get d k0 <> None -> dict_get (dict_set d k v) k0 <> None.
Proof.
  intros Hk0. destruct (py_eq_spec k k0) as [-> | Hne].
  - now rewrite dict_get_set_eq.
  - now rewrite dict_get_set_neq.
Qed.

Section Grows.
Variable locked : bool.
Variable st0 : State.

Lemma update_node_grows (a : nat) (f : Node.t -> Node.t) :
  (forall n, node_kept n (f n)) -> preserves (grows locked st0) (update_node a f).
Proof.
  intros Hf s (Hnodes & Hreqs & Hgraph). unfold update_node, bind, node_at.
  destruct (nth_error (node_objects s) a) as [n|] eqn:Hn; [|now split].
  cbn [modify]. split; [|now split].
  intros b n0 Hn0. destruct (Hnodes b n0 Hn0) as (nb & Hnb & Hkept).
  cbn [node_objects set_node_objects].
  rewrite (nth_error_list_set _ a b _ _ Hnb).
  destruct (Nat.eqb_spec a b) as [<- | Hne].
  - exists (f n). split; [reflexivity|].
    rewrite Hnb in Hn. injection Hn as <-.
    apply (node_kept_trans _ _ _ Hkept (Hf nb)).
  - exists nb. now split.
Qed.

Lemma new_node_grows (n : Node.t) : preserves (grows locked st0) (new_node_object n).
Proof.
  intros s (Hnodes & Hreqs & Hgraph). split; [|now split].
  intros b n0 Hn0. destruct (Hnodes b n0 Hn0) as (nb & Hnb & Hkept).
  exists nb. split; [|exact Hkept]. cbn [node_objects set_node_objects].
  rewrite nth_error_app1; [exact Hnb | apply nth_error_Some; congruence].
Qed.

Lemma set_ref_grows (a : nat) (x : ConanFileReference) :
  preserves (grows locked st0) (update_requirement a (Requirement.set_ref x)).
Proof.
  intros s (Hnodes & Hreqs & Hgraph). unfold update_requirement, bind, requirement_at.
  destruct (nth_error (requirement_objects s) a) as [r|] eqn:Hr; [|now split].
  cbn [modify]. split; [exact Hnodes|]. split; [|exact Hgraph].
  destruct locked.
  - unfold requirements_stay in *. cbn [requirement_objects set_requirement_objects].
    now rewrite length_list_set.
  - intros b r0 Hr0. destruct (Hreqs b r0 Hr0) as (rb & Hrb & Hkept).
    cbn [requirement_objects set_requirement_objects].
    rewrite (nth_error_list_set _ a b _ _ Hrb).
    destruct (Nat.eqb_spec a b) as [<- | Hne].
    + exists (Requirement.set_ref x r). split; [reflexivity|].
      rewrite Hrb in Hr. injection Hr as <-.
      apply (requirement_kept_trans _ _ _ Hkept). now constructor.
    + exists rb. now split.
Qed.

Lemma new_requirement_grows (r : Requirement.t) :
  preserves (grows locked st0) (new_requirement_object r).
Proof.
  intros s (Hnodes & Hreqs & Hgraph). split; [exact Hnodes|]. split; [|exact Hgraph].
  destruct locked.
  - unfold requirements_stay in *. cbn [requirement_objects set_requirement_objects].
    rewrite length_app. lia.
  - intros b r0 Hr0. destruct (Hreqs b r0 Hr0) as (rb & Hrb & Hkept).
    exists rb. split; [|exact Hkept]. cbn [requirement_objects set_requirement_objects].
    rewrite nth_error_app1; [exact Hrb | apply nth_error_Some; congruence].
Qed.

Lemma update_graph_grows (f : DepsGraph.t -> DepsGraph.t) :
  (forall g, graph_grows g (f g)) -> preserves (grows locked st0) (update_graph f).
Proof.
  intros Hf. apply preserves_modify. intros s (Hnodes & Hreqs & Hgraph).
  split; [exact Hnodes|]. split; [exact Hreqs|].
  exact (graph_grows_trans _ _ _ Hgraph (Hf (dep_graph s))).
Qed.

Lemma log_request_grows (x : ConanFileReference) :
  preserves (grows locked st0) (modify (log_recipe_request x)).
Proof. apply preserves_modify. now intros s H. Qed.

End Grows.

(** under a lock a requirement may be replaced as a whole *)
Lemma replace_requirement_grows (st0 : State) (a : nat) (f : Requirement.t -> Requirement.t) :
  preserves (grows true st0) (update_requirement a f).
Proof.
  intros s (Hnodes & Hreqs & Hgraph). unfold update_requirement, bind, requirement_at.
  destruct (nth_error (requirement_objects s) a) as [r|] eqn:Hr; [|now split].
  cbn [modify]. split; [exact Hnodes|]. split; [|exact Hgraph].
  unfold requirements_stay in *. cbn [requirement_objects set_requirement_objects].
  now rewrite length_list_set.
Qed.

Create HintDb grows.

#[local] Hint Resolve set_ref_grows new_requirement_grows log_request_grows new_node_grows
  : grows.

(** an update of a node that keeps what [node_kept] names *)
Ltac node_update :=
  apply update_node_grows;
  let n := fresh "n" in
  intros n; constructor; cbn;
  first [ reflexivity | now auto | apply incl_refl | apply incl_set_add
        | apply incl_set_update ].

(** an update of the graph that adds to it *)
Ltac graph_update :=
  apply update_graph_grows;
  let g := fresh "g" in
  intros g; constructor; cbn;
  [ first [ apply incl_refl | apply incl_set_add ]
  | first [ exists []; now rewrite app_nil_r | eexists; reflexivity ]
  | first [ intros; now apply dict_set_keeps_keys | auto ]
  | lia ].

Ltac grow :=
  preserve; cbn [is_some];
  try solve [ auto with grows | node_update | graph_update ].

Section BuilderGrows.
Variable self : Collaborators.
Variable st0 : State.

Lemma connect_closure_grows (locked : bool) (a other_node : nat) :
  preserves (grows locked st0) (connect_closure a other_node).
Proof. unfold connect_closure. grow. Qed.

Lemma add_node_grows (locked : bool) (node : nat) :
  preserves (grows locked st0) (add_node node).
Proof.
  intros s Hs. unfold add_node.
  destruct (nth_error (node_objects s) node) as [n|] eqn:Hn.
  - destruct (add_node_spec s node n Hn) as (n' & g' & Hadd & Hn' & Hgn & Hge & Hga & Hgc).
    unfold add_node in Hadd. rewrite Hadd.
    destruct Hs as (Hnodes & Hreqs & Hgraph). split; [|split; [exact Hreqs|]].
    + intros b n0 Hn0. destruct (Hnodes b n0 Hn0) as (nb & Hnb & Hkept).
      cbn [node_objects set_node_objects set_dep_graph].
      rewrite (nth_error_list_set _ node b _ _ Hnb).
      destruct (Nat.eqb_spec node b) as [<- | Hne]; [|exists nb; now split].
      exists n'. split; [reflexivity|].
      rewrite Hnb in Hn. injection Hn as <-.
      apply (node_kept_trans _ _ _ Hkept). subst n'.
      destruct (Node.id nb) as [i|] eqn:Hid; [apply node_kept_refl|].
      constructor; cbn; auto using incl_refl. intros i Hi. congruence.
    + unfold graph_only_grows in *. cbn [dep_graph set_dep_graph].
      apply (graph_grows_trans _ _ _ Hgraph). constructor.
      * rewrite Hgn. apply incl_set_add.
      * exists []. now rewrite app_nil_r.
      * now rewrite Hga.
      * exact Hgc.
  - unfold bind, node_at. now rewrite Hn.
Qed.

Lemma add_edge_grows (locked : bool) (src dst require : nat) :
  preserves (grows locked st0) (add_edge src dst require).
Proof. unfold add_edge. grow. Qed.

Hint Resolve connect_closure_grows add_node_grows add_edge_grows : grows.

Lemma requirement_items_grows (locked : bool) (reqs : Requirements) :
  preserves (grows locked st0) (requirement_items reqs).
Proof. induction reqs as [|[nm a] reqs IH]; simpl; grow. Qed.

Hint Resolve requirement_items_grows : grows.

Lemma requirements_ne_grows (locked : bool) (a b : Requirements) :
  preserves (grows locked st0) (requirements_ne a b).
Proof. unfold requirements_ne. grow. Qed.

Lemma requires_update_grows (locked : bool) (own down_reqs : Requirements)
    (own_ref : option ConanFileReference) :
  preserves (grows locked st0) (requires_update own down_reqs own_ref).
Proof.
  unfold requires_update.
  generalize (match own_ref with
              | Some r => dict_pop down_reqs (name r)
              | None => down_reqs
              end).
  induction own as [|[nm a] own IH]; intros start; [grow|].
  apply preserves_bind; [grow | intros new_reqs'; apply IH].
Qed.

Lemma lock_node_grows (graph_lock : GraphLock) (node : nat) (requires : list nat)
    (build_requires : bool) :
  preserves (grows true st0) (lock_node graph_lock node requires build_requires).
Proof. unfold lock_node. grow. apply replace_requirement_grows. Qed.

Hint Resolve requirements_ne_grows requires_update_grows lock_node_grows : grows.

Lemma resolve_cached_alias_grows (locked : bool) (requires : list nat) :
  preserves (grows locked st0) (_resolve_cached_alias requires).
Proof. unfold _resolve_cached_alias. grow. Qed.

Hint Resolve resolve_cached_alias_grows : grows.

Lemma resolve_ranges_grows (locked : bool) (requires : list nat) (consumer : string) :
  preserves (grows locked st0) (_resolve_ranges self requires consumer).
Proof. unfold _resolve_ranges. grow. Qed.

Lemma run_hook_grows (locked : bool) (node : nat) (hook : string)
    (body : ConanFile.t -> Failure + Options.t) :
  preserves (grows locked st0) (run_hook node hook body).
Proof. unfold run_hook. grow. Qed.

Lemma config_failure_grows {A} (locked : bool) (node : nat) (r : Failure + A) :
  preserves (grows locked st0) (config_failure node r).
Proof. unfold config_failure. grow. Qed.

Lemma declare_requirement_grows (locked : bool) (node : nat) (declared : Requirement.t) :
  preserves (grows locked st0) (declare_requirement node declared).
Proof. unfold declare_requirement. grow. Qed.

Hint Resolve resolve_ranges_grows run_hook_grows config_failure_grows
  declare_requirement_grows : grows.

Lemma config_node_grows (locked : bool) (node : nat) (down_ref : option ConanFileReference)
    (down_options : option DepsOptions) :
  preserves (grows locked st0) (_config_node self node down_ref down_options).
Proof. unfold _config_node. grow. Qed.

Lemma check_evaluated_requires_grows (locked : bool) (node : nat) (scope : string) :
  preserves (grows locked st0) (check_evaluated_requires node scope).
Proof. unfold check_evaluated_requires. grow. Qed.

Hint Resolve config_node_grows check_evaluated_requires_grows : grows.

Lemma get_node_requirements_grows (node : nat) (down_ref : option ConanFileReference)
    (down_options : option DepsOptions) (down_reqs : option Requirements)
    (graph_lock : option GraphLock) :
  preserves (grows (is_some graph_lock) st0)
    (_get_node_requirements self node down_ref down_options down_reqs graph_lock).
Proof. unfold _get_node_requirements. grow. Qed.

Lemma recurse_grows (locked : bool) (closure : dict Name nat) (new_reqs : Requirements)
    (new_options : DepsOptions) :
  preserves (grows locked st0) (_recurse closure new_reqs new_options).
Proof. unfold _recurse. grow. Qed.

Lemma instantiate_grows (locked : bool) (m : Manifest) :
  preserves (grows locked st0) (instantiate m).
Proof.
  unfold instantiate. apply preserves_bind; [|intros; apply preserves_ret].
  generalize (@nil (string * nat)). induction (manifest_requires m) as [|r rs IH]; intros acc.
  - apply preserves_ret.
  - apply preserves_bind; [apply new_requirement_grows | intros; apply IH].
Qed.

Hint Resolve get_node_requirements_grows recurse_grows instantiate_grows : grows.

Lemma resolve_recipe_grows (locked : bool) (fuel : nat) :
  forall current_node requirement graph_lock original_ref,
    preserves (grows locked st0)
      (_resolve_recipe self fuel current_node requirement graph_lock original_ref).
Proof. induction fuel as [|fuel IH]; intros; simpl; grow. Qed.

Hint Resolve resolve_recipe_grows : grows.

Lemma create_new_node_grows (locked : bool) (fuel current_node requirement : nat)
    (graph_lock : option GraphLock) :
  preserves (grows locked st0)
    (_create_new_node self fuel current_node requirement graph_lock).
Proof. unfold _create_new_node. grow. Qed.

Lemma check_conflicts_grows (locked : bool) (fuel node require previous : nat)
    (graph_lock : option GraphLock) :
  preserves (grows locked st0)
    (check_conflicts self fuel node require previous graph_lock).
Proof. unfold check_conflicts. grow. Qed.

Lemma add_ancestors_grows (locked : bool) (node previous : nat) :
  preserves (grows locked st0) (add_ancestors node previous).
Proof. unfold add_ancestors. grow. Qed.

Lemma need_recurse_grows (locked : bool) (previous : nat) (new_reqs : option Requirements)
    (new_options : DepsOptions) (graph_lock : option GraphLock) :
  preserves (grows locked st0) (need_recurse previous new_reqs new_options graph_lock).
Proof. unfold need_recurse. grow. Qed.

Hint Resolve create_new_node_grows check_conflicts_grows add_ancestors_grows
  need_recurse_grows : grows.

Section ExpandRequireGrows.
Variable fuel : nat.
Variable expand_node :
  nat -> option Requirements -> option ConanFileReference -> option DepsOptions ->
  option GraphLock -> M unit.
Hypothesis expand_node_only_grows :
  forall node down_reqs down_ref down_options graph_lock,
    preserves (grows (is_some graph_lock) st0)
      (expand_node node down_reqs down_ref down_options graph_lock).

Hint Resolve expand_node_only_grows : grows.

Lemma expand_new_node_grows (node require : nat) (name : Name)
    (new_reqs : option Requirements) (new_options : DepsOptions)
    (graph_lock : option GraphLock) :
  preserves (grows (is_some graph_lock) st0)
    (expand_new_node self fuel expand_node node require name new_reqs new_options
                     graph_lock).
Proof. unfold expand_new_node. grow. Qed.

Lemma close_diamond_grows (node require previous : nat)
    (new_reqs : option Requirements) (new_options : DepsOptions)
    (graph_lock : option GraphLock) :
  preserves (grows (is_some graph_lock) st0)
    (close_diamond self fuel expand_node node require previous new_reqs new_options
                   graph_lock).
Proof. unfold close_diamond. grow. Qed.

Hint Resolve expand_new_node_grows close_diamond_grows : grows.

Lemma expand_require_grows (node require : nat) (new_reqs : option Requirements)
    (new_options : DepsOptions) (graph_lock : option GraphLock) :
  preserves (grows (is_some graph_lock) st0)
    (_expand_require self fuel expand_node node require new_reqs new_options graph_lock).
Proof. unfold _expand_require. grow. Qed.

End ExpandRequireGrows.

Lemma expand_node_grows (fuel : nat) :
  forall node down_reqs down_ref down_options graph_lock,
    preserves (grows (is_some graph_lock) st0)
      (_expand_node self fuel node down_reqs down_ref down_options graph_lock).
Proof.
  induction fuel as [|fuel IH]; intros; simpl; grow.
  apply expand_require_grows. exact IH.
Qed.

Lemma expand_build_requires_grows (fuel node : nat)
    (build_requires_refs : list ConanFileReference) (graph_lock : option GraphLock) :
  preserves (grows (is_some graph_lock) st0)
    (expand_build_requires self fuel node build_requires_refs graph_lock).
Proof.
  unfold expand_build_requires. grow.
  - induction build_requires_refs as [|ref refs IH]; grow.
  - apply expand_require_grows. apply expand_node_grows.
Qed.

Lemma extend_build_requires_grows (fuel node : nat)
    (build_requires_refs : list ConanFileReference) (graph_lock : option GraphLock) :
  preserves (grows (is_some graph_lock) st0)
    (extend_build_requires self fuel node build_requires_refs graph_lock).
Proof.
  unfold extend_build_requires, order_closure, nodes_without_package_id. grow.
  apply expand_build_requires_grows.
Qed.

End BuilderGrows.

(** X18: expanding a node, or the build requires of a node, never
    changes what a node there is was made as: its reference, its package
    id, the recipe status, remote and revision pin it was created with,
    and the name and the alias of its conanfile stay; an id once given
    stays; the ancestors and the dependents it has are only added to.
    This holds when the expansion returns and when it raises. *)
Theorem expansion_keeps_what_a_node_is
    (self : Collaborators) (fuel node : nat) (down_reqs : option Requirements)
    (down_ref : option ConanFileReference) (down_options : option DepsOptions)
    (build_requires_refs : list ConanFileReference) (graph_lock : option GraphLock) :
  leaves nodes_kept
         (_expand_node self fuel node down_reqs down_ref down_options graph_lock)
  /\ leaves nodes_kept
            (extend_build_requires self fuel node build_requires_refs graph_lock).
Proof.
  split; intros st.
  - pose proof (expand_node_grows self st fuel node down_reqs down_ref down_options graph_lock
                  st (grows_refl _ st)) as H.
    destruct (_expand_node self fuel node down_reqs down_ref down_options graph_lock st);
      [apply H | apply H | exact I].
  - pose proof (extend_build_requires_grows self st fuel node build_requires_refs graph_lock
                  st (grows_refl _ st)) as H.
    destruct (extend_build_requires self fuel node build_requires_refs graph_lock st);
      [apply H | apply H | exact I].
Qed.

(** X19: expanding a node, or the build requires of a node, only adds to
    the graph: every node of the graph stays in it, the edges there are
    stay, in their order, before the new ones, a reference that has a
    cached alias target keeps having one, and the id counter does not go
    back; also when the expansion raises. *)
Theorem expansion_only_adds_to_the_graph
    (self : Collaborators) (fuel node : nat) (down_reqs : option Requirements)
    (down_ref : option ConanFileReference) (down_options : option DepsOptions)
    (build_requires_refs : list ConanFileReference) (graph_lock : option GraphLock) :
  leaves graph_only_grows
         (_expand_node self fuel node down_reqs down_ref down_options graph_lock)
  /\ leaves graph_only_grows
            (extend_build_requires self fuel node build_requires_refs graph_lock).
Proof.
  split; intros st.
  - pose proof (expand_node_grows self st fuel node down_reqs down_ref down_options graph_lock
                  st (grows_refl _ st)) as H.
    destruct (_expand_node self fuel node down_reqs down_ref down_options graph_lock st);
      [apply H | apply H | exact I].
  - pose proof (extend_build_requires_grows self st fuel node build_requires_refs graph_lock
                  st (grows_refl _ st)) as H.
    destruct (extend_build_requires self fuel node build_requires_refs graph_lock st);
      [apply H | apply H | exact I].
Qed.

(** X20: without a lock, the builder never changes the flags private,
    build_require and override of a requirement object there is, nor its
    locked id, whatever it does to its reference (cached aliases,
    overrides from downstream, version ranges, aliases); also when the
    expansion raises. *)
Theorem requirements_keep_their_flags_without_a_lock
    (self : Collaborators) (fuel node : nat) (down_reqs : option Requirements)
    (down_ref : option ConanFileReference) (down_options : option DepsOptions)
    (build_requires_refs : list ConanFileReference) :
  leaves requirement_flags_kept
         (_expand_node self fuel node down_reqs down_ref down_options None)
  /\ leaves requirement_flags_kept
            (extend_build_requires self fuel node build_requires_refs None).
Proof.
  assert (Hflags : forall st s, grows false st s -> requirement_flags_kept st s).
  { intros st s (_ & Hkept & _) a r0 Hr0. destruct (Hkept a r0 Hr0) as (r & Hr & [_ H1 H2 H3 H4]).
    exists r. split; [exact Hr | now constructor]. }
  split; intros st.
  - pose proof (expand_node_grows self st fuel node down_reqs down_ref down_options None
                  st (grows_refl _ st)) as H.
    destruct (_expand_node self fuel node down_reqs down_ref down_options None st);
      [now apply Hflags | now apply Hflags | exact I].
  - pose proof (extend_build_requires_grows self st fuel node build_requires_refs None
                  st (grows_refl _ st)) as H.
    destruct (extend_build_requires self fuel node build_requires_refs None st);
      [now apply Hflags | now apply Hflags | exact I].
Qed.

(** ** The evaluation of [requirements()] *)

Lemma reads_only_ok {A} (c : M A) (st st' : State) (a : A) :
  reads_only c -> c st = Ok a st' -> st' = st.
Proof. intros Hc Hrun. specialize (Hc st). now rewrite Hrun in Hc. Qed.

Lemma declared_over_cons (base : Requirements) (r : Requirement.t)
    (declared : list Requirement.t) (first : nat) :
  declared_over base (r :: declared) first =
    declared_over (dict_set base (name (Requirement.ref r)) first) declared (S first).
Proof. reflexivity. Qed.

(** one call of [self.requires(...)] that does not fail *)
Lemma declare_requirement_ok (node : nat) (declared : Requirement.t) (s s' : State)
    (m : Node.t) :
  nth_error (node_objects s) node = Some m ->
  declare_requirement node declared s = Ok tt s' ->
  s' = set_node_objects
         (list_set (node_objects s) node
            (Node.set_conanfile
               (ConanFile.set_requires
                  (dict_set (ConanFile.requires (Node.conanfile m))
                            (name (Requirement.ref declared))
                            (List.length (requirement_objects s)))
                  (Node.conanfile m)) m))
         (set_requirement_objects (requirement_objects s ++ [declared]) s).
Proof.
  intros Hm Hrun. unfold declare_requirement in Hrun.
  rewrite (bind_ok _ _ _ _ _ (node_at_ok _ _ _ Hm)) in Hrun. cbv beta zeta in Hrun.
  apply bind_inv_ok in Hrun as (clash & s1 & Hclash & Hrun).
  assert (Hs1 : s1 = s).
  { refine (reads_only_ok _ _ _ _ _ Hclash).
    destruct (dict_get (ConanFile.requires (Node.conanfile m))
                       (name (Requirement.ref declared))) as [old|];
      [|apply reads_only_ret].
    apply reads_only_bind; [apply reads_only_requirement_at | intros o; apply reads_only_ret]. }
  subst s1. destruct clash; [discriminate|].
  unfold new_requirement_object at 1, bind at 1 in Hrun.
  erewrite update_node_ok in Hrun by (cbn [node_objects set_requirement_objects]; exact Hm).
  now injection Hrun as <-.
Qed.

Lemma declare_requirements_ok (node : nat) (declared : list Requirement.t) :
  forall (s s' : State) (m : Node.t),
    nth_error (node_objects s) node = Some m ->
    for_each declared (declare_requirement node) s = Ok tt s' ->
    requirement_objects s' = requirement_objects s ++ declared
    /\ exists m',
         nth_error (node_objects s') node = Some m'
         /\ ConanFile.requires (Node.conanfile m') =
              declared_over (ConanFile.requires (Node.conanfile m)) declared
                            (List.length (requirement_objects s))
         /\ ConanFile._conan_original_requires (Node.conanfile m') =
              ConanFile._conan_original_requires (Node.conanfile m).
Proof.
  induction declared as [|r declared IH]; intros s s' m Hm Hrun.
  - injection Hrun as <-. split; [now rewrite app_nil_r|]. exists m. now split.
  - cbn [for_each] in Hrun. apply bind_inv_ok in Hrun as ([] & s1 & Hstep & Hrun).
    apply (declare_requirement_ok node r s s1 m Hm) in Hstep.
    set (m1 := Node.set_conanfile
                 (ConanFile.set_requires
                    (dict_set (ConanFile.requires (Node.conanfile m))
                              (name (Requirement.ref r))
                              (List.length (requirement_objects s)))
                    (Node.conanfile m)) m) in *.
    assert (Hm1 : nth_error (node_objects s1) node = Some m1).
    { subst s1. cbn [node_objects set_node_objects set_requirement_objects].
      now apply nth_error_list_set_eq with (y := m). }
    destruct (IH s1 s' m1 Hm1 Hrun) as (Hreqs & m' & Hm' & Hrequires & Horiginal).
    assert (Hreqs1 : requirement_objects s1 = requirement_objects s ++ [r])
      by (subst s1; reflexivity).
    split.
    + rewrite Hreqs, Hreqs1, <- app_assoc. reflexivity.
    + exists m'. split; [exact Hm'|]. split; [|exact Horiginal].
      rewrite Hrequires, Hreqs1, length_app, declared_over_cons. cbn [List.length].
      now rewrite Nat.add_1_r.
Qed.

Lemma preserves_ok {A} (P : State -> Prop) (c : M A) (s s' : State) (a : A) :
  preserves P c -> P s -> c s = Ok a s' -> P s'.
Proof. intros Hc Hs Hrun. specialize (Hc s Hs). now rewrite Hrun in Hc. Qed.

Section BeforeRequirements.
Variable node : nat.
Variable st : State.
Variable n : Node.t.

Lemma set_options_before (opts : Options.t) :
  preserves (before_requirements node st n)
    (update_node node (fun m =>
       Node.set_conanfile (ConanFile.set_options opts (Node.conanfile m)) m)).
Proof.
  intros s (Hreqs & m & Hm & Hrequires & Horiginal & Hname).
  rewrite (update_node_ok _ _ _ _ Hm). split; [exact Hreqs|].
  eexists. split; [apply nth_error_list_set_eq with (y := m); exact Hm|].
  now split.
Qed.

Lemma run_hook_before (hook : string) (body : ConanFile.t -> Failure + Options.t) :
  preserves (before_requirements node st n) (run_hook node hook body).
Proof. unfold run_hook. preserve. apply set_options_before. Qed.

Lemma config_failure_before {A} (r : Failure + A) :
  preserves (before_requirements node st n) (config_failure node r).
Proof. unfold config_failure. preserve. Qed.

End BeforeRequirements.

(** X21: in [_config_node], [requirements()] is evaluated over the
    requirement set saved at the first evaluation (at the first
    evaluation, the set the conanfile holds, which is saved then): when
    [_config_node] returns for a recipe that has [requirements()], the
    conanfile holds that set with the requirements the hook declares
    added as new objects, whatever an earlier evaluation, an override
    from downstream or a version range left in it; the saved set is not
    changed. *)
Theorem requirements_are_evaluated_over_the_saved_set
    (self : Collaborators) (node : nat) (down_ref : option ConanFileReference)
    (down_options : option DepsOptions) (st st' : State) (new_options : DepsOptions)
    (n : Node.t) (declared : list Requirement.t) :
  nth_error (node_objects st) node = Some n ->
  (forall c, ConanFile.display_name c = ConanFile.display_name (Node.conanfile n) ->
     has_requirements self c = true /\ requirements self c = inr declared) ->
  _config_node self node down_ref down_options st = Ok new_options st' ->
  requirement_objects st' = requirement_objects st ++ declared
  /\ exists n',
       nth_error (node_objects st') node = Some n'
       /\ ConanFile.requires (Node.conanfile n') =
            declared_over (evaluation_base (Node.conanfile n)) declared
                          (List.length (requirement_objects st))
       /\ ConanFile._conan_original_requires (Node.conanfile n') =
            Some (evaluation_base (Node.conanfile n))
       /\ new_options = Options.deps_package_values (ConanFile.options (Node.conanfile n')).
Proof.
  intros Hn Hhooks Hrun. unfold _config_node in Hrun.
  assert (HQ : before_requirements node st n st).
  { split; [reflexivity|]. exists n. now split. }
  (* up to the validation of the options *)
  apply bind_inv_ok in Hrun as (n0 & s0 & H0 & Hrun).
  apply node_at_inv in H0 as [-> _].
  apply bind_inv_ok in Hrun as ([] & s1 & H1 & Hrun).
  apply (preserves_ok _ _ _ _ _ ltac:(apply preserves_when; apply run_hook_before) HQ) in H1.
  apply bind_inv_ok in Hrun as ([] & s2 & H2 & Hrun).
  apply (preserves_ok _ _ _ _ _ (run_hook_before node st n _ _) H1) in H2.
  apply bind_inv_ok in Hrun as (n2 & s2' & H2' & Hrun).
  apply node_at_inv in H2' as [-> _].
  apply bind_inv_ok in Hrun as (opts & s3 & H3 & Hrun).
  apply (preserves_ok _ _ _ _ _ (config_failure_before node st n _) H2) in H3.
  apply bind_inv_ok in Hrun as ([] & s4 & H4 & Hrun).
  apply (preserves_ok _ _ _ _ _ (set_options_before node st n _) H3) in H4.
  apply bind_inv_ok in Hrun as (n4 & s4' & H4' & Hrun).
  apply node_at_inv in H4' as [-> _].
  apply bind_inv_ok in Hrun as ([] & s5 & H5 & Hrun).
  apply (preserves_ok _ _ _ _ _ ltac:(apply preserves_when; apply run_hook_before) H4) in H5.
  apply bind_inv_ok in Hrun as ([] & s6 & H6 & Hrun).
  apply (preserves_ok _ _ _ _ _ (run_hook_before node st n _ _) H5) in H6.
  apply bind_inv_ok in Hrun as (n6 & s6' & H6' & Hrun).
  apply node_at_inv in H6' as [-> Hn6].
  apply bind_inv_ok in Hrun as ([] & s7 & H7 & Hrun).
  apply (preserves_ok _ _ _ _ _ (config_failure_before node st n _) H6) in H7.
  apply bind_inv_ok in Hrun as ([] & s8 & H8 & Hrun).
  apply (preserves_ok _ _ _ _ _ (config_failure_before node st n _) H7) in H8.
  (* the conanfile read before the validation is the one of the invariant *)
  destruct H6 as (_ & m6 & Hm6 & Hrequires6 & Horiginal6 & Hname6).
  rewrite Hn6 in Hm6. injection Hm6 as <-.
  destruct H8 as (Hreqs8 & m & Hm & Hrequires & Horiginal & Hname).
  destruct (Hhooks _ Hname6) as [Hhas _].
  rewrite Hhas in Hrun. cbn [when] in Hrun. cbv zeta in Hrun.
  apply bind_inv_ok in Hrun as ([] & s9 & H9 & Hrun).
  apply bind_inv_ok in H9 as ([] & sb & Hsave & H9).
  (* the set is saved, or put back *)
  assert (Hbase : exists mb,
            nth_error (node_objects sb) node = Some mb
            /\ requirement_objects sb = requirement_objects st
            /\ ConanFile.requires (Node.conanfile mb) = evaluation_base (Node.conanfile n)
            /\ ConanFile._conan_original_requires (Node.conanfile mb) =
                 Some (evaluation_base (Node.conanfile n))
            /\ ConanFile.display_name (Node.conanfile mb) =
                 ConanFile.display_name (Node.conanfile n)).
  { unfold evaluation_base. rewrite Horiginal6 in Hsave.
    destruct (ConanFile._conan_original_requires (Node.conanfile n)) as [original|];
      rewrite (update_node_ok _ _ _ _ Hm) in Hsave; injection Hsave as <-;
      (eexists; split; [apply nth_error_list_set_eq with (y := m); exact Hm|]);
      cbn; repeat split; try assumption; try congruence. }
  destruct Hbase as (mb & Hmb & Hreqsb & Hrequiresb & Horiginalb & Hnameb).
  rewrite (bind_ok _ _ _ _ _ (node_at_ok _ _ _ Hmb)) in H9. cbv beta in H9.
  destruct (Hhooks _ Hnameb) as [_ Hdeclared]. rewrite Hdeclared in H9.
  destruct (declare_requirements_ok node declared sb s9 mb Hmb H9)
    as (Hreqs9 & m9 & Hm9 & Hrequires9 & Horiginal9).
  rewrite (bind_ok _ _ _ _ _ (node_at_ok _ _ _ Hm9)) in Hrun. injection Hrun as <- <-.
  split; [now rewrite Hreqs9, Hreqsb|].
  exists m9. split; [exact Hm9|]. split; [|split; [|reflexivity]].
  - now rewrite Hrequires9, Hrequiresb, Hreqsb.
  - now rewrite Horiginal9.
Qed.

Lemma requirements_are_evaluated_over_the_saved_set_witness :
  requirement_objects SecondEvaluation.configured =
    requirement_objects Reevaluation.state ++ [Scenario.public Examples.C1]
  /\ exists n',
       nth_error (node_objects SecondEvaluation.configured) 0 = Some n'
       /\ ConanFile.requires (Node.conanfile n') = [("C", 2)].
Proof.
  assert (Hn : nth_error (node_objects Reevaluation.state) 0 = Some SecondEvaluation.node_A)
    by (vm_compute; reflexivity).
  assert (Hrun : _config_node Reevaluation.hooks 0 None None Reevaluation.state =
                 Ok [] SecondEvaluation.configured) by (vm_compute; reflexivity).
  assert (Hname : ConanFile.display_name (Node.conanfile SecondEvaluation.node_A) = "A/1.0")
    by (vm_compute; reflexivity).
  destruct (requirements_are_evaluated_over_the_saved_set
              Reevaluation.hooks 0 None None Reevaluation.state SecondEvaluation.configured
              [] SecondEvaluation.node_A [Scenario.public Examples.C1] Hn)
    as (Hreqs & n' & Hn' & Hrequires & _).
  - intros c Hc. rewrite Hname in Hc. split; [|reflexivity].
    cbn [Reevaluation.hooks has_requirements]. rewrite Hc. reflexivity.
  - exact Hrun.
  - split; [exact Hreqs|]. exists n'. split; [exact Hn'|].
    rewrite Hrequires. vm_compute. reflexivity.
Defined.

(** ** What the evaluation of the requirements of a node leaves alone *)

Lemma only_node_touched_refl (node : nat) (st : State) : only_node_touched node st st.
Proof. now split. Qed.

Section OnlyNode.
Variable node : nat.
Variable st0 : State.

Lemma update_node_only_node (f : Node.t -> Node.t) :
  preserves (only_node_touched node st0) (update_node node f).
Proof.
  intros s (Hgraph & Hlog & Hnodes). unfold update_node, bind, node_at.
  destruct (nth_error (node_objects s) node) as [n|]; [|now split].
  cbn [modify]. split; [exact Hgraph|]. split; [exact Hlog|].
  intros b Hb. cbn [node_objects set_node_objects].
  rewrite nth_error_list_set_neq by congruence. now apply Hnodes.
Qed.

Lemma update_requirement_only_node (a : nat) (f : Requirement.t -> Requirement.t) :
  preserves (only_node_touched node st0) (update_requirement a f).
Proof. unfold update_requirement. preserve. apply preserves_modify. now intros s H. Qed.

Lemma new_requirement_only_node (r : Requirement.t) :
  preserves (only_node_touched node st0) (new_requirement_object r).
Proof. intros s H. exact H. Qed.

Ltac only_node :=
  preserve;
  try solve [ apply update_node_only_node | apply update_requirement_only_node
            | apply new_requirement_only_node ].

Lemma requirement_items_only_node (reqs : Requirements) :
  preserves (only_node_touched node st0) (requirement_items reqs).
Proof. induction reqs as [|[nm a] reqs IH]; simpl; only_node. exact IH. Qed.

Lemma requires_update_only_node (own down_reqs : Requirements)
    (own_ref : option ConanFileReference) :
  preserves (only_node_touched node st0) (requires_update own down_reqs own_ref).
Proof.
  unfold requires_update.
  generalize (match own_ref with
              | Some r => dict_pop down_reqs (name r)
              | None => down_reqs
              end).
  induction own as [|[nm a] own IH]; intros start; [only_node|].
  apply preserves_bind; [only_node | intros new_reqs'; apply IH].
Qed.

Lemma resolve_cached_alias_only_node (requires : list nat) :
  preserves (only_node_touched node st0) (_resolve_cached_alias requires).
Proof. unfold _resolve_cached_alias. only_node. Qed.

Lemma get_node_requirements_only_node (self : Collaborators)
    (down_ref : option ConanFileReference) (down_options : option DepsOptions)
    (down_reqs : option Requirements) (graph_lock : option GraphLock) :
  preserves (only_node_touched node st0)
    (_get_node_requirements self node down_ref down_options down_reqs graph_lock).
Proof.
  unfold _get_node_requirements, _config_node, run_hook, config_failure, declare_requirement,
    lock_node, _resolve_ranges, check_evaluated_requires, requirements_ne.
  only_node;
    try solve [ apply resolve_cached_alias_only_node | apply requires_update_only_node
              | apply requirement_items_only_node ].
Qed.

End OnlyNode.

(** X22: evaluating the requirements of a node (its hooks, the cached
    aliases, the lock or the requirements from downstream and the version
    ranges) touches neither the graph nor any other node, and asks the
    proxy for nothing; also when it raises. *)
Theorem evaluation_touches_one_node
    (self : Collaborators) (node : nat) (down_ref : option ConanFileReference)
    (down_options : option DepsOptions) (down_reqs : option Requirements)
    (graph_lock : option GraphLock) :
  leaves (only_node_touched node)
         (_get_node_requirements self node down_ref down_options down_reqs graph_lock).
Proof.
  intros st.
  exact (get_node_requirements_only_node node st self down_ref down_options down_reqs
           graph_lock st (only_node_touched_refl node st)).
Qed.

(** ** A node that cannot be created *)

Section GraphHolds.
Variable nodes : list nat.
Variable edges : list (nat * nat * nat).

Lemma update_requirement_graph_holds (a : nat) (f : Requirement.t -> Requirement.t) :
  preserves (graph_holds nodes edges) (update_requirement a f).
Proof. unfold update_requirement. preserve. apply preserves_modify. now intros s H. Qed.

Lemma new_requirement_graph_holds (r : Requirement.t) :
  preserves (graph_holds nodes edges) (new_requirement_object r).
Proof. intros s H. exact H. Qed.

Lemma set_aliased_graph_holds (f : DepsGraph.t -> dict ConanFileReference ConanFileReference) :
  preserves (graph_holds nodes edges)
            (update_graph (fun g => DepsGraph.set_aliased (f g) g)).
Proof. apply preserves_modify. now intros s H. Qed.

Lemma instantiate_graph_holds (m : Manifest) :
  preserves (graph_holds nodes edges) (instantiate m).
Proof.
  unfold instantiate. apply preserves_bind; [|intros; apply preserves_ret].
  generalize (@nil (string * nat)). induction (manifest_requires m) as [|r rs IH]; intros acc.
  - apply preserves_ret.
  - apply preserves_bind; [apply new_requirement_graph_holds | intros; apply IH].
Qed.

Lemma resolve_recipe_graph_holds (self : Collaborators) (fuel : nat) :
  forall current_node requirement graph_lock original_ref,
    preserves (graph_holds nodes edges)
      (_resolve_recipe self fuel current_node requirement graph_lock original_ref).
Proof.
  induction fuel as [|fuel IH]; intros; simpl; preserve;
    try solve [ apply preserves_modify; now intros s H
              | apply instantiate_graph_holds
              | apply update_requirement_graph_holds
              | apply set_aliased_graph_holds
              | apply IH ].
Qed.

End GraphHolds.

(** X23: [_create_new_node] adds the node or nothing: when it raises
    (the proxy or the loader fail, somewhere along the aliases), no node
    object is created and the graph has got neither a node nor an edge. *)
Theorem failed_creation_adds_nothing
    (self : Collaborators) (fuel current_node requirement : nat)
    (graph_lock : option GraphLock) :
  adds_nothing_when_it_raises
    (_create_new_node self fuel current_node requirement graph_lock).
Proof.
  intros st. unfold _create_new_node. unfold bind at 1.
  pose proof (resolve_recipe_nodes self (node_objects st) fuel current_node requirement
                graph_lock None st eq_refl) as Hnodes.
  pose proof (resolve_recipe_graph_holds
                (DepsGraph.nodes (dep_graph st)) (DepsGraph.edges (dep_graph st))
                self fuel current_node requirement graph_lock None st (conj eq_refl eq_refl))
    as Hgraph.
  destruct (_resolve_recipe self fuel current_node requirement graph_lock None st)
    as [[[[[new_ref dep_conanfile] recipe_status] remote] locked_id] s1 | e s1 |];
    [| destruct Hgraph; now split | exact I].
  unfold bind at 1, requirement_at at 1.
  destruct (nth_error (requirement_objects s1) requirement) as [r|];
    [| destruct Hgraph; now split].
  unfold bind at 1, node_at at 1.
  destruct (nth_error (node_objects s1) current_node) as [cur|];
    [| destruct Hgraph; now split].
  cbv zeta. unfold new_node_object at 1, bind at 1.
  match goal with
  | |- context [node_objects s1 ++ [?c]] => set (created := c)
  end.
  destruct (add_node_spec (set_node_objects (node_objects s1 ++ [created]) s1)
              (List.length (node_objects s1)) created (nth_error_snoc _ _))
    as (n' & g' & Hadd & _).
  rewrite (bind_ok _ _ _ _ _ Hadd). exact I.
Qed.

(** ** The requirements made for build requires *)

Lemma alloc_build_requirements (refs : list ConanFileReference) :
  forall s,
    (fix alloc (refs : list ConanFileReference) : M (list nat) :=
       match refs with
       | [] => ret []
       | ref :: refs' =>
           a <- new_requirement_object
                  (Requirement.set_build_require true (Requirement.init ref)) ;;
           rest <- alloc refs' ;;
           ret (a :: rest)
       end) refs s =
    Ok (seq (List.length (requirement_objects s)) (List.length refs))
       (set_requirement_objects (requirement_objects s ++ map build_requirement refs) s).
Proof.
  induction refs as [|ref refs IH]; intros s.
  - unfold ret. cbn [map seq List.length]. now rewrite app_nil_r, set_requirement_objects_same.
  - cbv beta iota fix. unfold bind at 1, new_requirement_object at 1.
    unfold bind at 1. rewrite IH. unfold ret.
    cbn [requirement_objects set_requirement_objects map seq List.length].
    rewrite length_app, <- app_assoc. cbn [List.length app]. now rewrite Nat.add_1_r.
Qed.

Lemma order_closure_grows (st0 : State) (locked : bool) (node : nat) :
  preserves (grows locked st0) (order_closure node).
Proof. unfold order_closure, nodes_without_package_id. grow. Qed.

(** X24: without a lock, [extend_build_requires] makes of every
    reference it is given a new requirement object, after the ones there
    are and in the order of the references, that is a build requirement
    of that reference, neither private nor an override; whatever the
    expansion does to their references (version ranges, aliases), these
    objects are still build requirements of the references given when it
    returns or raises. *)
Theorem build_requires_are_build_requirements
    (self : Collaborators) (fuel node : nat) (build_requires_refs : list ConanFileReference)
    (st : State) (n : Node.t) :
  nth_error (node_objects st) node = Some n ->
  forall (i : nat) (ref : ConanFileReference),
    nth_error build_requires_refs i = Some ref ->
    match extend_build_requires self fuel node build_requires_refs None st with
    | Ok _ st' =>
        exists r, nth_error (requirement_objects st')
                            (List.length (requirement_objects st) + i) = Some r
                  /\ requirement_kept (build_requirement ref) r
    | Raise _ st' =>
        exists r, nth_error (requirement_objects st')
                            (List.length (requirement_objects st) + i) = Some r
                  /\ requirement_kept (build_requirement ref) r
    | OutOfFuel => True
    end.
Proof.
  intros Hn i ref Href.
  set (n1 := Node.set_conanfile
               (ConanFile.set_build_requires_options
                  (OptionsValues.clear_unscoped_options
                     (ConanFile.build_requires_options (Node.conanfile n)))
                  (Node.conanfile n)) n).
  set (s1 := set_node_objects (list_set (node_objects st) node n1) st).
  set (sa := set_requirement_objects
               (requirement_objects s1 ++ map build_requirement build_requires_refs) s1).
  assert (Hmade : nth_error (requirement_objects sa)
                            (List.length (requirement_objects st) + i) =
                  Some (build_requirement ref)).
  { unfold sa, s1. cbn [requirement_objects set_requirement_objects set_node_objects].
    rewrite nth_error_app2 by lia.
    replace (List.length (requirement_objects st) + i - List.length (requirement_objects st))
      with i by lia.
    now rewrite nth_error_map, Href. }
  assert (Hkept : forall s, grows false sa s ->
            exists r, nth_error (requirement_objects s)
                                (List.length (requirement_objects st) + i) = Some r
                      /\ requirement_kept (build_requirement ref) r).
  { intros s (_ & Hreqs & _). exact (Hreqs _ _ Hmade). }
  assert (Hn1 : nth_error (node_objects s1) node = Some n1)
    by (apply nth_error_list_set_eq with (y := n); exact Hn).
  unfold extend_build_requires, expand_build_requires.
  unfold bind at 1.
  rewrite (bind_ok _ _ _ _ _ (update_node_ok _ _ _ _ Hn)). cbv beta. fold n1 s1.
  rewrite (bind_ok _ _ _ _ _ (node_at_ok _ _ _ Hn1)). cbv beta zeta.
  rewrite (bind_ok _ _ _ _ _ (alloc_build_requirements build_requires_refs s1)). cbv beta.
  fold sa. unfold ret at 1, bind at 1.
  match goal with
  | |- match match ?c sa with _ => _ end with _ => _ end =>
      assert (Hrest : preserves (grows false sa) c)
  end.
  { apply preserves_bind; [apply resolve_ranges_grows | intros _].
    apply preserves_for_each. intros require.
    apply (expand_require_grows self sa fuel (_expand_node self fuel)
             (expand_node_grows self sa fuel) node require (Some []) _ None). }
  match goal with
  | |- match match ?c sa with _ => _ end with _ => _ end =>
      pose proof (Hrest sa (grows_refl false sa)) as Hout; destruct (c sa) as [[] s2 | e s2 |]
  end.
  - pose proof (order_closure_grows sa false node s2 Hout) as Hend.
    destruct (order_closure node s2) as [new_nodes s3 | e s3 |]; [| |exact I];
      now apply Hkept.
  - now apply Hkept.
  - exact I.
Qed.

Lemma build_requires_are_build_requirements_witness :
  match extend_build_requires (Scenario.cache BuildRequires.tools) 5 0 [BuildRequires.Z] None
                              BuildRequires.state with
  | Ok _ st' =>
      exists r, nth_error (requirement_objects st')
                          (List.length (requirement_objects BuildRequires.state) + 0) = Some r
                /\ requirement_kept (build_requirement BuildRequires.Z) r
  | Raise _ st' =>
      exists r, nth_error (requirement_objects st')
                          (List.length (requirement_objects BuildRequires.state) + 0) = Some r
                /\ requirement_kept (build_requirement BuildRequires.Z) r
  | OutOfFuel => True
  end.
Proof.
  assert (Hn : nth_error (node_objects BuildRequires.state) 0 =
               Some (nth 0 (node_objects BuildRequires.state) Scenario.no_node))
    by (vm_compute; reflexivity).
  exact (build_requires_are_build_requirements
           (Scenario.cache BuildRequires.tools) 5 0 [BuildRequires.Z] BuildRequires.state _ Hn
           0 BuildRequires.Z eq_refl).
Defined.

(** ** Closing a diamond creates no node *)

Section NodeCount.
Variable k : nat.

Lemma update_node_count (a : nat) (f : Node.t -> Node.t) :
  preserves (node_count_is k) (update_node a f).
Proof.
  intros s Hs. unfold update_node, bind, node_at.
  destruct (nth_error (node_objects s) a) as [n|]; [|exact Hs].
  cbn [modify]. unfold node_count_is. cbn [node_objects set_node_objects].
  now rewrite length_list_set.
Qed.

Lemma update_requirement_count (a : nat) (f : Requirement.t -> Requirement.t) :
  preserves (node_count_is k) (update_requirement a f).
Proof. unfold update_requirement. preserve. apply preserves_modify. now intros s H. Qed.

Lemma update_graph_count (f : DepsGraph.t -> DepsGraph.t) :
  preserves (node_count_is k) (update_graph f).
Proof. apply preserves_modify. now intros s H. Qed.

Lemma resolve_recipe_count (self : Collaborators) (fuel current_node requirement : nat)
    (graph_lock : option GraphLock) (original_ref : option ConanFileReference) :
  preserves (node_count_is k)
    (_resolve_recipe self fuel current_node requirement graph_lock original_ref).
Proof.
  intros s Hs.
  pose proof (resolve_recipe_nodes self (node_objects s) fuel current_node requirement
                graph_lock original_ref s eq_refl) as H.
  destruct (_resolve_recipe self fuel current_node requirement graph_lock original_ref s);
    [| |exact I]; unfold node_count_is, nodes_are in *; congruence.
Qed.

Ltac count :=
  preserve;
  try solve [ apply update_node_count | apply update_requirement_count
            | apply update_graph_count | apply resolve_recipe_count ].

Lemma connect_closure_count (a other_node : nat) :
  preserves (node_count_is k) (connect_closure a other_node).
Proof. unfold connect_closure. count. Qed.

(** X25: closing a diamond creates no node by itself: through the cached
    aliases, the conflict check with its second resolution of the recipe,
    the ancestors and the closures that are connected, and the new edge,
    the node objects stay as many as they were; only the expansion of the
    previous node that may end it can create nodes.  This holds when it
    raises, too. *)
Theorem closing_a_diamond_creates_no_node
    (self : Collaborators) (fuel : nat)
    (expand_node : nat -> option Requirements -> option ConanFileReference ->
                   option DepsOptions -> option GraphLock -> M unit)
    (node require previous : nat) (new_reqs : option Requirements)
    (new_options : DepsOptions) (graph_lock : option GraphLock) :
  (forall a reqs ref opts lock, preserves (node_count_is k) (expand_node a reqs ref opts lock)) ->
  preserves (node_count_is k)
    (close_diamond self fuel expand_node node require previous new_reqs new_options graph_lock).
Proof.
  intros Hexpand.
  unfold close_diamond, _resolve_cached_alias, check_conflicts, add_ancestors, add_edge,
    need_recurse, _recurse.
  count; try solve [ apply connect_closure_count | apply Hexpand ].
Qed.

End NodeCount.

Lemma closing_a_diamond_creates_no_node_witness :
  preserves (node_count_is 2)
    (close_diamond ClosingDiamond.self 0 Loop.no_expansion 0 0 1 (Some []) [] None).
Proof.
  apply (closing_a_diamond_creates_no_node 2 ClosingDiamond.self 0 Loop.no_expansion).
  intros a reqs ref opts lock. apply preserves_ret.
Defined.

(** ** A node for a public requirement *)

Lemma dict_set_idem {K V} `{PyEq K} (d : dict K V) (k : K) (v : V) :
  dict_set (dict_set d k v) k v = dict_set d k v.
Proof.
  induction d as [|[k' v'] d IH]; simpl.
  - now rewrite py_eq_refl.
  - destruct (py_eq_spec k' k) as [-> | Hne]; simpl.
    + now rewrite py_eq_refl.
    + rewrite (proj2 (py_eq_false k' k) Hne). now rewrite IH.
Qed.

Lemma connected_twice (key : Name) (other : nat) (m : Node.t) :
  connected key other (connected key other m) = connected key other m.
Proof. unfold connected. cbn. now rewrite !dict_set_idem. Qed.

Lemma set_inverse_closure_same (m : Node.t) :
  Node.set_inverse_closure (Node.inverse_closure m) m = m.
Proof. now destruct m. Qed.

(** the dependents of a node are connected to a new node *)
Lemma connect_dependents (new_node : nat) (key : Name) (dependents : list nat) :
  forall (s : State) (c : Node.t),
    nth_error (node_objects s) new_node = Some c ->
    Node.name c = key ->
    (forall d, In d dependents -> d < List.length (node_objects s) /\ d <> new_node) ->
    exists s',
      for_each dependents (fun dep_node => connect_closure dep_node new_node) s = Ok tt s'
      /\ requirement_objects s' = requirement_objects s
      /\ dep_graph s' = dep_graph s
      /\ List.length (node_objects s') = List.length (node_objects s)
      /\ nth_error (node_objects s') new_node =
           Some (Node.set_inverse_closure (set_update (Node.inverse_closure c) dependents) c)
      /\ (forall a m, a <> new_node -> nth_error (node_objects s) a = Some m ->
            nth_error (node_objects s') a =
              Some (if set_mem a dependents then connected key new_node m else m)).
Proof.
  induction dependents as [|d dependents IH]; intros s c Hc Hname Hvalid.
  - exists s. cbn [for_each set_update fold_left set_mem existsb].
    split; [reflexivity|]. split; [reflexivity|]. split; [reflexivity|].
    split; [reflexivity|]. split; [now rewrite set_inverse_closure_same|].
    intros a m _ Hm. exact Hm.
  - destruct (Hvalid d (or_introl eq_refl)) as [Hd Hdnew].
    pose proof (connect_closure_ok s d new_node c Hd Hc) as Hstep.
    rewrite Hname in Hstep.
    match type of Hstep with
    | _ = Ok tt ?x => set (s1 := x) in *
    end.
    set (c1 := Node.set_inverse_closure (set_add d (Node.inverse_closure c)) c).
    assert (Hflip : Nat.eqb d new_node = false) by (now apply Nat.eqb_neq).
    assert (Hc1 : nth_error (node_objects s1) new_node = Some c1).
    { unfold s1. cbn [node_objects set_node_objects].
      rewrite !nth_error_updated, Nat.eqb_refl, Hflip, Hc. reflexivity. }
    assert (Hlen1 : List.length (node_objects s1) = List.length (node_objects s)).
    { unfold s1. cbn [node_objects set_node_objects]. now rewrite !length_updated. }
    destruct (IH s1 c1 Hc1 Hname) as (s' & Hrun & Hreqs & Hgraph & Hlen & Hnew & Hold).
    { intros b Hb. rewrite Hlen1. apply Hvalid. now right. }
    exists s'. cbn [for_each]. rewrite (bind_ok _ _ _ _ _ Hstep).
    split; [exact Hrun|]. split; [exact Hreqs|]. split; [exact Hgraph|].
    split; [congruence|]. split; [exact Hnew|].
    intros a m Ha Hm.
    assert (Hm1 : nth_error (node_objects s1) a =
                  Some (if Nat.eqb d a then connected key new_node m else m)).
    { unfold s1. cbn [node_objects set_node_objects]. rewrite !nth_error_updated.
      replace (Nat.eqb new_node a) with false by (symmetry; apply Nat.eqb_neq; congruence).
      rewrite Hm. now destruct (Nat.eqb d a). }
    rewrite (Hold a _ Ha Hm1).
    unfold set_mem. cbn [existsb]. fold (set_mem a dependents).
    change (py_eq a d) with (Nat.eqb a d). rewrite (Nat.eqb_sym a d).
    destruct (Nat.eqb d a); cbn [orb]; [|reflexivity].
    destruct (set_mem a dependents); [now rewrite connected_twice | reflexivity].
Qed.

(** [expand_new_node] up to the connection of the requesting node to the
    new node *)
Lemma expand_new_node_connected (self : Collaborators) (fuel : nat)
    (expand_node : nat -> option Requirements -> option ConanFileReference ->
                   option DepsOptions -> option GraphLock -> M unit)
    (node require : nat) (key : Name) (new_reqs : option Requirements)
    (new_options : DepsOptions) (graph_lock : option GraphLock)
    (st st1 : State) (new_node : nat) (n : Node.t) (r : Requirement.t) :
  nth_error (node_objects st) node = Some n ->
  nth_error (requirement_objects st) require = Some r ->
  _create_new_node self fuel node require graph_lock st = Ok new_node st1 ->
  exists c0 r' s3,
    new_node = List.length (node_objects st)
    /\ Node.inverse_closure c0 = []
    /\ nth_error (requirement_objects s3) require = Some r'
    /\ Requirement.private r' = Requirement.private r
    /\ Requirement.build_require r' = Requirement.build_require r
    /\ List.length (node_objects s3) = S new_node
    /\ nth_error (node_objects s3) node = Some (connected (Node.name c0) new_node n)
    /\ nth_error (node_objects s3) new_node = Some (entered node new_node key c0)
    /\ (forall a, a <> node -> a <> new_node ->
          nth_error (node_objects s3) a = nth_error (node_objects st) a)
    /\ expand_new_node self fuel expand_node node require key new_reqs new_options
                       graph_lock st =
         after_connection self fuel expand_node node require new_node key new_reqs
                          new_options graph_lock s3.
Proof.
  intros Hn Hr Hcreate.
  destruct (create_new_node_spec self fuel node require graph_lock st st1 new_node n r
              Hn Hr Hcreate)
    as (c0 & r' & Hnew & Hnodes & _ & _ & _ & Hinverse & Hr' & Hpv & Hbr).
  assert (Hnode_lt : node < List.length (node_objects st))
    by (apply nth_error_Some; congruence).
  assert (Hne : node <> new_node) by lia.
  assert (Hlen1 : List.length (node_objects st1) = S new_node).
  { rewrite Hnodes, length_app, Hnew. simpl. lia. }
  assert (Hc0 : nth_error (node_objects st1) new_node = Some c0).
  { rewrite Hnodes, Hnew. apply nth_error_snoc. }
  assert (Hn1 : nth_error (node_objects st1) node = Some n).
  { rewrite Hnodes, nth_error_app1; assumption. }
  unfold expand_new_node.
  rewrite (bind_ok _ _ _ _ _ Hcreate). cbv beta.
  erewrite bind_ok by (apply update_node_updated; lia). cbv beta.
  erewrite bind_ok by (apply update_node_updated; simpl; rewrite length_updated; lia).
  cbv beta.
  set (c1 := Node.set_transitive_closure [(key, new_node)]
               (Node.set_public_closure [(key, new_node)] c0)).
  erewrite bind_ok.
  2: { apply (connect_closure_ok _ node new_node c1).
       - simpl. rewrite !length_updated. lia.
       - simpl. rewrite !nth_error_updated, Nat.eqb_refl, Hc0. reflexivity. }
  cbv beta.
  match goal with
  | |- context [bind (requirement_at require) _ ?s] => set (s3 := s)
  end.
  assert (Hflip : Nat.eqb new_node node = false) by (apply Nat.eqb_neq; lia).
  assert (Hflop : Nat.eqb node new_node = false) by (apply Nat.eqb_neq; lia).
  exists c0, r', s3.
  split; [exact Hnew|]. split; [exact Hinverse|].
  split; [exact Hr'|]. split; [exact Hpv|]. split; [exact Hbr|].
  split; [unfold s3; simpl; now rewrite !length_updated|].
  split.
  { unfold s3. simpl. rewrite !nth_error_updated, Hflip, Nat.eqb_refl, Hn1. reflexivity. }
  split.
  { unfold s3. simpl. rewrite !nth_error_updated, Nat.eqb_refl, Hflop, Hc0. reflexivity. }
  split; [|reflexivity].
  intros a Ha1 Ha2. unfold s3. simpl. rewrite !nth_error_updated.
  replace (Nat.eqb new_node a) with false by (symmetry; apply Nat.eqb_neq; lia).
  replace (Nat.eqb node a) with false by (symmetry; apply Nat.eqb_neq; lia).
  rewrite Hnodes.
  destruct (Nat.lt_ge_cases a (List.length (node_objects st))) as [Hlt | Hge].
  - now rewrite nth_error_app1.
  - rewrite (proj2 (nth_error_None (node_objects st) a) Hge).
    apply nth_error_None. rewrite length_app. simpl. lia.
Qed.

(** X26: the node created for a requirement that is neither private nor
    a build requirement gets as public dependencies a copy of the ones of
    the requesting node N, which hold the new node by then, plus itself
    under the name required; N gets it in its closure, in its public
    dependencies and in its transitive closure; and every node that
    depends on N is connected to it too: the new node is in the closure
    and in the public dependencies of each, and they are, with N, the
    dependents of the new node.  The other nodes are left as they are.
    What is left then is the expansion of the new node. *)
Theorem public_node_sees_deps_of_parent
    (self : Collaborators) (fuel : nat)
    (expand_node : nat -> option Requirements -> option ConanFileReference ->
                   option DepsOptions -> option GraphLock -> M unit)
    (node require : nat) (key : Name) (new_reqs : option Requirements)
    (new_options : DepsOptions) (graph_lock : option GraphLock)
    (st st1 : State) (new_node : nat) (n : Node.t) (r : Requirement.t) :
  nth_error (node_objects st) node = Some n ->
  nth_error (requirement_objects st) require = Some r ->
  Requirement.private r || Requirement.build_require r = false ->
  (forall d, In d (Node.inverse_closure n) -> d < List.length (node_objects st)) ->
  _create_new_node self fuel node require graph_lock st = Ok new_node st1 ->
  exists st2 parent created,
    expand_new_node self fuel expand_node node require key new_reqs new_options
                    graph_lock st =
      expansion_of_new_node expand_node node require new_node (Node.ref n)
                            new_reqs new_options graph_lock st2
    /\ nth_error (node_objects st2) node = Some parent
    /\ nth_error (node_objects st2) new_node = Some created
    /\ Node.public_closure parent =
         dict_set (Node.public_closure n) (Node.name created) new_node
    /\ Node.public_deps parent = dict_set (Node.public_deps n) (Node.name created) new_node
    /\ Node.transitive_closure parent = dict_set (Node.transitive_closure n) key new_node
    /\ Node.public_deps created = dict_set (Node.public_deps parent) key new_node
    /\ Node.inverse_closure created = set_update [node] (Node.inverse_closure n)
    /\ (forall d m, In d (Node.inverse_closure n) -> d <> node ->
          nth_error (node_objects st) d = Some m ->
          nth_error (node_objects st2) d = Some (connected (Node.name created) new_node m))
    /\ (forall a, a <> node -> a <> new_node -> ~ In a (Node.inverse_closure n) ->
          nth_error (node_objects st2) a = nth_error (node_objects st) a).
Proof.
  intros Hn Hr Hflag Hvalid Hcreate.
  destruct (expand_new_node_connected self fuel expand_node node require key new_reqs
              new_options graph_lock st st1 new_node n r Hn Hr Hcreate)
    as (c0 & r' & s3 & Hnew & Hinverse & Hr' & Hpv & Hbr & Hlen3 & Hparent3 & Hnew3 & Hother3
        & Hrun).
  assert (Hnode_lt : node < List.length (node_objects st))
    by (apply nth_error_Some; congruence).
  assert (Hflip : Nat.eqb new_node node = false) by (apply Nat.eqb_neq; lia).
  assert (Hflop : Nat.eqb node new_node = false) by (apply Nat.eqb_neq; lia).
  rewrite Hrun. unfold after_connection.
  rewrite (bind_ok _ _ _ _ _ (requirement_at_ok _ _ _ Hr')). cbv beta.
  rewrite Hpv, Hbr, Hflag.
  set (p3 := connected (Node.name c0) new_node n) in *.
  set (parent := Node.set_transitive_closure
                   (dict_set (Node.transitive_closure p3) key new_node) p3).
  set (created := Node.set_public_deps (dict_set (Node.public_deps parent) key new_node)
                    (Node.set_public_deps (Node.public_deps parent)
                                          (entered node new_node key c0))).
  set (s5 := set_node_objects
               (updated
                  (updated
                     (updated (node_objects s3) node (fun m =>
                        Node.set_transitive_closure
                          (dict_set (Node.transitive_closure m) key new_node) m))
                     new_node (Node.set_public_deps (Node.public_deps parent)))
                  new_node (fun m =>
                     Node.set_public_deps (dict_set (Node.public_deps m) key new_node) m))
               s3).
  assert (Hparent5 : nth_error (node_objects s5) node = Some parent).
  { unfold s5. cbn [node_objects set_node_objects].
    rewrite !nth_error_updated, Hflip, Nat.eqb_refl, Hparent3. reflexivity. }
  assert (Hnew5 : nth_error (node_objects s5) new_node = Some created).
  { unfold s5. cbn [node_objects set_node_objects].
    rewrite !nth_error_updated, Nat.eqb_refl, Hflop, Hnew3. reflexivity. }
  assert (Hlen5 : List.length (node_objects s5) = S new_node).
  { unfold s5. cbn [node_objects set_node_objects]. now rewrite !length_updated. }
  assert (Hother5 : forall a, a <> node -> a <> new_node ->
            nth_error (node_objects s5) a = nth_error (node_objects st) a).
  { intros a Ha1 Ha2. unfold s5. cbn [node_objects set_node_objects].
    rewrite !nth_error_updated.
    replace (Nat.eqb new_node a) with false by (symmetry; apply Nat.eqb_neq; lia).
    replace (Nat.eqb node a) with false by (symmetry; apply Nat.eqb_neq; lia).
    now apply Hother3. }
  assert (Hblock :
    (update_node node (fun m =>
       Node.set_transitive_closure (dict_set (Node.transitive_closure m) key new_node) m) ;;
     n0 <- node_at node ;;
     update_node new_node (Node.set_public_deps (Node.public_deps n0)) ;;
     update_node new_node (fun m =>
       Node.set_public_deps (dict_set (Node.public_deps m) key new_node) m) ;;
     n1 <- node_at node ;;
     for_each (Node.inverse_closure n1) (fun dep_node =>
       connect_closure dep_node new_node))%M s3 =
    for_each (Node.inverse_closure n) (fun dep_node => connect_closure dep_node new_node) s5).
  { erewrite bind_ok by (apply update_node_updated; lia). cbv beta.
    erewrite bind_ok.
    2: { apply node_at_ok. cbn [node_objects set_node_objects].
         rewrite nth_error_updated, Nat.eqb_refl, Hparent3. reflexivity. }
    cbv beta. fold parent.
    erewrite bind_ok
      by (apply update_node_updated; cbn [node_objects set_node_objects];
          rewrite length_updated; lia).
    cbv beta.
    erewrite bind_ok
      by (apply update_node_updated; cbn [node_objects set_node_objects];
          rewrite !length_updated; lia).
    cbv beta. fold s5.
    now rewrite (bind_ok _ _ _ _ _ (node_at_ok _ _ _ Hparent5)). }
  destruct (connect_dependents new_node (Node.name c0) (Node.inverse_closure n) s5 created
              Hnew5 eq_refl)
    as (s6 & Hloop & _ & _ & Hlen6 & Hnew6 & Hold6).
  { intros d Hd. specialize (Hvalid d Hd). lia. }
  rewrite Hloop in Hblock.
  rewrite (bind_ok _ _ _ _ _ Hblock). cbv beta.
  set (parent6 := if set_mem node (Node.inverse_closure n)
                  then connected (Node.name c0) new_node parent else parent).
  assert (Hparent6 : nth_error (node_objects s6) node = Some parent6)
    by (apply Hold6; [lia | exact Hparent5]).
  rewrite (bind_ok _ _ _ _ _ (node_at_ok _ _ _ Hparent6)). cbv beta.
  assert (Hfields : Node.ref parent6 = Node.ref n
                    /\ Node.public_closure parent6 =
                         dict_set (Node.public_closure n) (Node.name c0) new_node
                    /\ Node.public_deps parent6 =
                         dict_set (Node.public_deps n) (Node.name c0) new_node
                    /\ Node.transitive_closure parent6 =
                         dict_set (Node.transitive_closure n) key new_node).
  { unfold parent6. destruct (set_mem node (Node.inverse_closure n)); cbn;
      rewrite ?dict_set_idem; repeat split. }
  destruct Hfields as (Href6 & Hclosure6 & Hdeps6 & Htransitive6).
  eexists s6, parent6, _.
  split; [unfold expansion_of_new_node; rewrite Href6; reflexivity|].
  split; [exact Hparent6|]. split; [exact Hnew6|].
  split; [exact Hclosure6|]. split; [exact Hdeps6|]. split; [exact Htransitive6|].
  split; [cbn; now rewrite Hdeps6|].
  split; [cbn; now rewrite Hinverse|].
  split.
  - intros d m Hd Hdnode Hm.
    assert (Hdnew : d <> new_node) by (specialize (Hvalid d Hd); lia).
    rewrite (Hold6 d m Hdnew) by (rewrite Hother5; assumption).
    now rewrite (proj2 (set_mem_in d (Node.inverse_closure n)) Hd).
  - intros a Ha1 Ha2 Hnotin.
    destruct (nth_error (node_objects st) a) as [m|] eqn:Hm.
    + rewrite (Hold6 a m Ha2) by (rewrite Hother5; assumption).
      now rewrite (proj2 (set_mem_not_in a (Node.inverse_closure n)) Hnotin).
    + apply nth_error_None. apply nth_error_None in Hm. lia.
Qed.

Lemma public_node_sees_deps_of_parent_witness :
  exists st2 parent created,
    nth_error (node_objects st2) 0 = Some parent
    /\ nth_error (node_objects st2) 2 = Some created
    /\ Node.public_deps created = dict_set (Node.public_deps parent) (Some "A") 2
    /\ Node.inverse_closure created = [0; 1]
    /\ nth_error (node_objects st2) 1 =
         Some (connected (Node.name created) 2 PublicRequirement.app).
Proof.
  assert (Hn : nth_error (node_objects PublicRequirement.state) 0 = Some PublicRequirement.lib)
    by reflexivity.
  assert (Hr : nth_error (requirement_objects PublicRequirement.state) 0 =
               Some (Scenario.public Examples.A)) by reflexivity.
  assert (Hflag : Requirement.private (Scenario.public Examples.A)
                  || Requirement.build_require (Scenario.public Examples.A) = false)
    by reflexivity.
  assert (Hvalid : forall d, In d (Node.inverse_closure PublicRequirement.lib) ->
                     d < List.length (node_objects PublicRequirement.state)).
  { intros d [<- | []]. simpl. lia. }
  assert (Hcreate : _create_new_node PublicRequirement.self 3 0 0 None PublicRequirement.state =
                    Ok 2 PublicRequirement.state_created) by (vm_compute; reflexivity).
  destruct (public_node_sees_deps_of_parent
              PublicRequirement.self 3 Loop.no_expansion 0 0 (Some "A") (Some []) [] None
              PublicRequirement.state PublicRequirement.state_created 2 PublicRequirement.lib
              (Scenario.public Examples.A) Hn Hr Hflag Hvalid Hcreate)
    as (st2 & parent & created & _ & Hparent & Hcreated & _ & _ & _ & Hdeps & Hinverse
        & Hdependents & _).
  exists st2, parent, created.
  split; [exact Hparent|]. split; [exact Hcreated|]. split; [exact Hdeps|].
  split; [exact Hinverse|].
  apply (Hdependents 1 PublicRequirement.app); [now left | discriminate | reflexivity].
Defined.

(** ** The graph that is loaded *)

#[local] Hint Resolve connect_closure_grows add_node_grows add_edge_grows
  requirement_items_grows requirements_ne_grows requires_update_grows
  resolve_cached_alias_grows resolve_ranges_grows get_node_requirements_grows
  recurse_grows resolve_recipe_grows create_new_node_grows check_conflicts_grows
  add_ancestors_grows need_recurse_grows expand_node_grows : grows.

Lemma connect_closure_returns (s s' : State) (a other_node : nat) :
  connect_closure a other_node s = Ok tt s' ->
  exists o,
    nth_error (node_objects s') other_node = Some o
    /\ In a (Node.inverse_closure o)
    /\ dep_graph s' = dep_graph s.
Proof.
  intros Hrun.
  destruct (nth_error (node_objects s) other_node) as [o|] eqn:Ho.
  - destruct (Nat.lt_ge_cases a (List.length (node_objects s))) as [Ha | Ha].
    + rewrite (connect_closure_ok s a other_node o Ha Ho) in Hrun. injection Hrun as <-.
      cbn [node_objects set_node_objects dep_graph].
      rewrite nth_error_updated, Nat.eqb_refl.
      assert (Hlen : other_node < List.length (node_objects s))
        by (apply nth_error_Some; congruence).
      match goal with
      | |- context [option_map _ (nth_error ?l other_node)] =>
          destruct (nth_error l other_node) as [x|] eqn:Hx
      end.
      * eexists. split; [reflexivity|]. split; [|reflexivity].
        cbn. apply set_add_in. now right.
      * apply nth_error_None in Hx. rewrite !length_updated in Hx. lia.
    + unfold connect_closure in Hrun.
      rewrite (bind_ok _ _ _ _ _ (node_at_ok _ _ _ Ho)) in Hrun. cbv beta in Hrun.
      unfold bind at 1, update_node at 1, bind at 1, node_at at 1 in Hrun.
      rewrite (proj2 (nth_error_None _ _) Ha) in Hrun. discriminate.
  - unfold connect_closure, bind, node_at in Hrun. rewrite Ho in Hrun. discriminate.
Qed.

Lemma recorded_grows (locked : bool) (node require : nat) (s s' : State) :
  recorded node require s -> grows locked s s' -> recorded node require s'.
Proof.
  intros (target & t & Hedge & Ht & Hin) (Hnodes & _ & Hgraph).
  destruct (Hnodes target t Ht) as (t' & Ht' & Hkept).
  exists target, t'. split; [|split; [exact Ht'|]].
  - destruct Hgraph as [_ [more Hedges] _ _]. rewrite Hedges. apply in_or_app. now left.
  - now apply (kept_inverse_closure _ _ Hkept).
Qed.

Section Recorded.
Variable self : Collaborators.
Variable fuel : nat.

(** a diamond that is closed is recorded *)
Lemma close_diamond_records (node require previous : nat) (new_reqs : option Requirements)
    (new_options : DepsOptions) (graph_lock : option GraphLock) (st st' : State) :
  close_diamond self fuel (_expand_node self fuel) node require previous new_reqs
                new_options graph_lock st = Ok tt st' ->
  recorded node require st'.
Proof.
  intros Hrun. unfold close_diamond in Hrun.
  apply bind_inv_ok in Hrun as ([] & s1 & _ & Hrun).
  apply bind_inv_ok in Hrun as ([] & s2 & _ & Hrun).
  apply bind_inv_ok in Hrun as ([] & s3 & _ & Hrun).
  apply bind_inv_ok in Hrun as ([] & s4 & Hconnect & Hrun).
  unfold add_edge at 1, update_graph at 1, modify at 1, bind at 1 in Hrun.
  destruct (connect_closure_returns _ _ _ _ Hconnect) as (p & Hp & Hin & _).
  match type of Hrun with
  | ?c ?s = Ok tt st' =>
      assert (Hrest : preserves (grows (is_some graph_lock) s) c)
        by (grow; apply expand_node_grows);
      pose proof (Hrest s (grows_refl _ s)) as Hgrows; rewrite Hrun in Hgrows;
      apply (recorded_grows (is_some graph_lock) node require s st'); [|exact Hgrows]
  end.
  exists previous, p. split; [|split; [exact Hp | exact Hin]].
  cbn [dep_graph set_dep_graph DepsGraph.edges]. apply in_or_app. right. now left.
Qed.

Lemma create_new_node_edge (current_node requirement : nat) (graph_lock : option GraphLock)
    (st st' : State) (new_node : nat) :
  _create_new_node self fuel current_node requirement graph_lock st = Ok new_node st' ->
  In (current_node, new_node, requirement) (DepsGraph.edges (dep_graph st')).
Proof.
  intros Hrun. unfold _create_new_node in Hrun.
  apply bind_inv_ok in Hrun as (resolved & s1 & _ & Hrun).
  destruct resolved as [[[[new_ref dep_conanfile] recipe_status] remote] locked_id].
  apply bind_inv_ok in Hrun as (r & s1' & _ & Hrun).
  apply bind_inv_ok in Hrun as (cur & s1'' & _ & Hrun). cbv zeta in Hrun.
  apply bind_inv_ok in Hrun as (a & s2 & _ & Hrun).
  apply bind_inv_ok in Hrun as ([] & s3 & _ & Hrun).
  unfold add_edge, update_graph, modify, bind, ret in Hrun. injection Hrun as <- <-.
  cbn [dep_graph set_dep_graph DepsGraph.edges]. apply in_or_app. right. now left.
Qed.

(** a new node that is expanded is recorded *)
Lemma expand_new_node_records (node require : nat) (key : Name)
    (new_reqs : option Requirements) (new_options : DepsOptions)
    (graph_lock : option GraphLock) (st st' : State) :
  expand_new_node self fuel (_expand_node self fuel) node require key new_reqs
                  new_options graph_lock st = Ok tt st' ->
  recorded node require st'.
Proof.
  intros Hrun. unfold expand_new_node in Hrun.
  apply bind_inv_ok in Hrun as (new_node & s1 & Hcreate & Hrun).
  apply create_new_node_edge in Hcreate.
  apply bind_inv_ok in Hrun as ([] & s2 & H2 & Hrun).
  apply bind_inv_ok in Hrun as ([] & s3 & H3 & Hrun).
  apply bind_inv_ok in Hrun as ([] & s4 & Hconnect & Hrun).
  apply update_node_keeps_graph in H2, H3.
  destruct (connect_closure_returns _ _ _ _ Hconnect) as (c & Hc & Hin & Hgraph).
  match type of Hrun with
  | ?c ?s = Ok tt st' =>
      assert (Hrest : preserves (grows (is_some graph_lock) s) c)
        by (grow; apply expand_node_grows);
      pose proof (Hrest s (grows_refl _ s)) as Hgrows; rewrite Hrun in Hgrows;
      apply (recorded_grows (is_some graph_lock) node require s st'); [|exact Hgrows]
  end.
  exists new_node, c. split; [|split; [exact Hc | exact Hin]].
  now rewrite Hgraph, H3, H2.
Qed.

Lemma expand_require_records (node require : nat) (new_reqs : option Requirements)
    (new_options : DepsOptions) (graph_lock : option GraphLock) (st st' : State) :
  _expand_require self fuel (_expand_node self fuel) node require new_reqs new_options
                  graph_lock st = Ok tt st' ->
  recorded node require st'.
Proof.
  intros Hrun. unfold _expand_require in Hrun.
  apply bind_inv_ok in Hrun as (r & s1 & Hr & Hrun).
  apply requirement_at_inv in Hr as [-> _].
  apply bind_inv_ok in Hrun as (n & s1 & Hn & Hrun).
  apply node_at_inv in Hn as [-> _]. cbv zeta in Hrun.
  match type of Hrun with
  | (if ?b then _ else _) _ = _ => destruct b; [discriminate|]
  end.
  destruct (dict_get (Node.public_deps n) (Some (name (Requirement.ref r))))
    as [previous|]; [|now apply expand_new_node_records in Hrun].
  match type of Hrun with
  | (if ?b then _ else _) _ = _ => destruct b
  end; [now apply expand_new_node_records in Hrun | now apply close_diamond_records in Hrun].
Qed.

End Recorded.

Lemma expand_requirements_record (self : Collaborators) (fuel node : nat)
    (new_reqs : option Requirements) (new_options : DepsOptions) (requires : list nat) :
  forall (s st' : State),
    for_each requires (fun require =>
      r <- requirement_at require ;;
      if Requirement.override r then ret tt
      else _expand_require self fuel (_expand_node self fuel) node require
                           new_reqs new_options None) s = Ok tt st' ->
    forall a r, In a requires ->
      nth_error (requirement_objects s) a = Some r ->
      Requirement.override r = false ->
      recorded node a st'.
Proof.
  induction requires as [|a0 requires IH]; intros s st' Hrun a r Ha Hr Hoverride;
    [destruct Ha|].
  assert (Hbody : forall s0 require,
            preserves (grows false s0)
              (r <- requirement_at require ;;
               if Requirement.override r then ret tt
               else _expand_require self fuel (_expand_node self fuel) node require
                                    new_reqs new_options None)).
  { intros s0 require. grow.
    apply (expand_require_grows self s0 fuel (_expand_node self fuel)
             (expand_node_grows self s0 fuel) node require new_reqs new_options None). }
  cbn [for_each] in Hrun. apply bind_inv_ok in Hrun as ([] & s1 & Hstep & Hrun).
  pose proof (Hbody s a0 s (grows_refl false s)) as Hgrows1. rewrite Hstep in Hgrows1.
  destruct Ha as [-> | Ha].
  - rewrite (bind_ok _ _ _ _ _ (requirement_at_ok _ _ _ Hr)) in Hstep. cbv beta in Hstep.
    rewrite Hoverride in Hstep. apply expand_require_records in Hstep.
    pose proof (preserves_for_each (grows false s1) requires _ (Hbody s1) s1
                  (grows_refl false s1)) as Hgrows.
    rewrite Hrun in Hgrows. exact (recorded_grows false node a s1 st' Hstep Hgrows).
  - destruct Hgrows1 as (_ & Hreqs & _).
    destruct (Hreqs a r Hr) as (r1 & Hr1 & Hkept).
    apply (IH s1 st' Hrun a r1 Ha Hr1).
    rewrite (kept_override _ _ Hkept). exact Hoverride.
Qed.

(** X28: without a lock, when [load_graph] returns, what it returns is
    the graph of the state, the root node is in it, and every requirement
    of the root that is not an override is an edge of it, from the root
    to a node that has the root among its dependents. *)
Theorem loaded_graph_holds_the_root_and_its_requirements
    (self : Collaborators) (fuel root_node : nat) (st st0 s1 st' : State)
    (new_options : DepsOptions) (new_reqs : option Requirements) (n : Node.t)
    (g : DepsGraph.t) :
  root_entry root_node None st = Ok tt st0 ->
  _get_node_requirements self root_node None None (Some []) None st0 =
    Ok (new_options, new_reqs) s1 ->
  nth_error (node_objects s1) root_node = Some n ->
  load_graph self (S fuel) root_node None st = Ok g st' ->
  g = dep_graph st'
  /\ In root_node (DepsGraph.nodes g)
  /\ forall a r, In a (dict_values (ConanFile.requires (Node.conanfile n))) ->
       nth_error (requirement_objects s1) a = Some r ->
       Requirement.override r = false ->
       recorded root_node a st'.
Proof.
  intros Hentry Hget Hn Hload.
  rewrite (load_graph_entry self (S fuel) root_node None st st0 Hentry) in Hload.
  apply bind_inv_ok in Hload as ([] & s2 & Hexpand & Hload).
  unfold graph in Hload. injection Hload as <- <-.
  split; [reflexivity|]. split.
  - pose proof (expand_node_grows self st0 (S fuel) root_node (Some []) None None None st0
                  (grows_refl _ st0)) as Hgrows.
    rewrite Hexpand in Hgrows. destruct Hgrows as (_ & _ & [Hnodes _ _ _]).
    apply Hnodes. destruct (root_entry_graph _ _ _ _ Hentry) as (Hroot & _).
    rewrite Hroot. now left.
  - intros a r Ha Hr Hoverride. cbn [_expand_node] in Hexpand.
    rewrite (bind_ok _ _ _ _ _ Hget) in Hexpand. cbv beta iota in Hexpand.
    rewrite (bind_ok _ _ _ _ _ (node_at_ok _ _ _ Hn)) in Hexpand. cbv beta in Hexpand.
    exact (expand_requirements_record self fuel root_node new_reqs new_options _ s1 s2
             Hexpand a r Ha Hr Hoverride).
Qed.

Lemma loaded_graph_holds_the_root_and_its_requirements_witness :
  In 0 (DepsGraph.nodes (dep_graph Expansion.built)) /\ recorded 0 0 Expansion.built.
Proof.
  assert (Hentry : root_entry 0 None Expansion.initial = Ok tt Expansion.state)
    by (vm_compute; reflexivity).
  assert (Hget : _get_node_requirements Expansion.self 0 None None (Some []) None
                   Expansion.state = Ok ([], Some [("A", 0); ("B", 1)]) Expansion.evaluated)
    by (vm_compute; reflexivity).
  assert (Hn : nth_error (node_objects Expansion.evaluated) 0 = Some Expansion.evaluated_root)
    by (vm_compute; reflexivity).
  assert (Hload : load_graph Expansion.self 5 0 None Expansion.initial =
                  Ok (dep_graph Expansion.built) Expansion.built)
    by (vm_compute; reflexivity).
  destruct (loaded_graph_holds_the_root_and_its_requirements
              Expansion.self 4 0 Expansion.initial Expansion.state Expansion.evaluated
              Expansion.built [] (Some [("A", 0); ("B", 1)]) Expansion.evaluated_root
              (dep_graph Expansion.built) Hentry Hget Hn Hload)
    as (_ & Hroot & Hrecorded).
  split; [exact Hroot|].
  apply (Hrecorded 0 (Scenario.public Examples.A)).
  - vm_compute. left. reflexivity.
  - vm_compute. reflexivity.
  - reflexivity.
Defined.

(** ** Under a lock the requirements from downstream are not read *)

Section NeverRaises.
Variable bad : Exception -> Prop.

Lemma never_ret {A} (a : A) : never_raises bad (ret a).
Proof. intros st. exact I. Qed.

Lemma never_out_of_fuel {A} : never_raises bad (@out_of_fuel A).
Proof. intros st. exact I. Qed.

Lemma never_raise {A} (e : Exception) : ~ bad e -> never_raises bad (@raise A e).
Proof. intros He st. exact He. Qed.

Lemma never_bind {A B} (c : M A) (k : A -> M B) :
  never_raises bad c -> (forall a, never_raises bad (k a)) -> never_raises bad (bind c k).
Proof.
  intros Hc Hk st. unfold bind. specialize (Hc st).
  destruct (c st) as [a s | e s |]; [apply Hk | exact Hc | exact I].
Qed.

Lemma never_for_each {A} (l : list A) (body : A -> M unit) :
  (forall x, never_raises bad (body x)) -> never_raises bad (for_each l body).
Proof.
  intros Hb. induction l as [|x l IH]; simpl; [apply never_ret|].
  apply never_bind; auto.
Qed.

Lemma never_when (b : bool) (c : M unit) :
  never_raises bad c -> never_raises bad (when b c).
Proof. intros H. destruct b; simpl; [exact H | apply never_ret]. Qed.

Lemma never_modify (f : State -> State) : never_raises bad (modify f).
Proof. intros st. exact I. Qed.

Lemma never_graph : never_raises bad graph.
Proof. intros st. exact I. Qed.

Lemma never_get_state : never_raises bad get_state.
Proof. intros st. exact I. Qed.

Lemma never_new_node (n : Node.t) : never_raises bad (new_node_object n).
Proof. intros st. exact I. Qed.

Lemma never_new_requirement (r : Requirement.t) : never_raises bad (new_requirement_object r).
Proof. intros st. exact I. Qed.

Lemma never_node_at (a : nat) :
  ~ bad (AttributeError "node") -> never_raises bad (node_at a).
Proof.
  intros He st. unfold node_at. now destruct (nth_error (node_objects st) a).
Qed.

Lemma never_requirement_at (a : nat) :
  ~ bad (AttributeError "requirement") -> never_raises bad (requirement_at a).
Proof.
  intros He st. unfold requirement_at. now destruct (nth_error (requirement_objects st) a).
Qed.

End NeverRaises.

Lemma conflict_is_not_missing_requirements
    (previous_ref new_ref : ConanFileReference) (consumer : option ConanFileReference) :
  never_raises missing_requirements
    (lift (_conflicting_references previous_ref new_ref consumer)).
Proof.
  unfold _conflicting_references.
  destruct (py_ne (copy_clear_rev previous_ref) (copy_clear_rev new_ref)).
  - destruct consumer; apply never_ret.
  - destruct (truthy (revision previous_ref) && truthy (revision new_ref) &&
              py_ne (revision previous_ref) (revision new_ref)); [|apply never_ret].
    destruct consumer; [|apply never_ret].
    apply never_raise. intros [H | H]; discriminate.
Qed.

(** the structural steps of a proof that no exception of
    [missing_requirements] is raised *)
Ltac safe_step :=
  cbv beta iota;
  lazymatch goal with
  | |- never_raises _ (ret _) => apply never_ret
  | |- never_raises _ (raise _) => apply never_raise; intros [H | H]; discriminate
  | |- never_raises _ out_of_fuel => apply never_out_of_fuel
  | |- never_raises _ (lift (_conflicting_references _ _ _)) =>
      apply conflict_is_not_missing_requirements
  | |- never_raises _ (node_at _) => apply never_node_at; intros [H | H]; discriminate
  | |- never_raises _ (requirement_at _) =>
      apply never_requirement_at; intros [H | H]; discriminate
  | |- never_raises _ graph => apply never_graph
  | |- never_raises _ get_state => apply never_get_state
  | |- never_raises _ (modify _) => apply never_modify
  | |- never_raises _ (update_graph _) => apply never_modify
  | |- never_raises _ (new_node_object _) => apply never_new_node
  | |- never_raises _ (new_requirement_object _) => apply never_new_requirement
  | |- never_raises _ (update_node _ _) => unfold update_node
  | |- never_raises _ (update_requirement _ _) => unfold update_requirement
  | |- never_raises _ (ref_of _) => unfold ref_of
  | |- never_raises _ (when _ _) => apply never_when
  | |- never_raises _ (for_each _ _) => apply never_for_each; intros
  | |- never_raises _ (bind _ _) => apply never_bind; [|intros]
  | |- never_raises _ (match ?x with _ => _ end) => destruct x
  end.

Ltac safe := repeat safe_step.

Section LockedExpansion.
Variable self : Collaborators.
Variable lock : GraphLock.

Lemma connect_closure_safe (a other_node : nat) :
  never_raises missing_requirements (connect_closure a other_node).
Proof. unfold connect_closure. safe. Qed.

Lemma add_node_safe (node : nat) : never_raises missing_requirements (add_node node).
Proof. unfold add_node. safe. Qed.

Lemma resolve_cached_alias_safe (requires : list nat) :
  never_raises missing_requirements (_resolve_cached_alias requires).
Proof. unfold _resolve_cached_alias. safe. Qed.

Lemma get_node_requirements_safe (node : nat) (down_ref : option ConanFileReference)
    (down_options : option DepsOptions) (down_reqs : option Requirements) :
  never_raises missing_requirements
    (_get_node_requirements self node down_ref down_options down_reqs (Some lock)).
Proof.
  unfold _get_node_requirements, _config_node, run_hook, config_failure, declare_requirement,
    lock_node.
  safe; apply resolve_cached_alias_safe.
Qed.

Lemma instantiate_safe (m : Manifest) : never_raises missing_requirements (instantiate m).
Proof.
  unfold instantiate. apply never_bind; [|intros; apply never_ret].
  generalize (@nil (string * nat)). induction (manifest_requires m) as [|r rs IH]; intros acc.
  - apply never_ret.
  - apply never_bind; [apply never_new_requirement | intros; apply IH].
Qed.

Lemma resolve_recipe_safe (fuel : nat) :
  forall current_node requirement original_ref,
    never_raises missing_requirements
      (_resolve_recipe self fuel current_node requirement (Some lock) original_ref).
Proof.
  induction fuel as [|fuel IH]; intros; simpl; safe;
    try solve [ apply instantiate_safe | apply IH ].
Qed.

Lemma create_new_node_safe (fuel current_node requirement : nat) :
  never_raises missing_requirements
    (_create_new_node self fuel current_node requirement (Some lock)).
Proof.
  unfold _create_new_node, add_edge. safe;
    try solve [ apply resolve_recipe_safe | apply add_node_safe ].
Qed.

Section ExpandRequireSafe.
Variable fuel : nat.
Variable expand_node :
  nat -> option Requirements -> option ConanFileReference -> option DepsOptions ->
  option GraphLock -> M unit.
Hypothesis expand_node_safe :
  forall node down_reqs down_ref down_options,
    never_raises missing_requirements
      (expand_node node down_reqs down_ref down_options (Some lock)).

Lemma expand_require_safe (node require : nat) (new_reqs : option Requirements)
    (new_options : DepsOptions) :
  never_raises missing_requirements
    (_expand_require self fuel expand_node node require new_reqs new_options (Some lock)).
Proof.
  unfold _expand_require, expand_new_node, close_diamond, check_conflicts, add_ancestors,
    add_edge, need_recurse.
  safe;
    try solve [ apply create_new_node_safe | apply connect_closure_safe
              | apply expand_node_safe | apply resolve_cached_alias_safe
              | apply resolve_recipe_safe ].
Qed.

End ExpandRequireSafe.

Lemma expand_node_safe_under_lock (fuel : nat) :
  forall node down_reqs down_ref down_options,
    never_raises missing_requirements
      (_expand_node self fuel node down_reqs down_ref down_options (Some lock)).
Proof.
  induction fuel as [|fuel IH]; intros; simpl; safe.
  - apply get_node_requirements_safe.
  - apply expand_require_safe. exact IH.
Qed.

End LockedExpansion.

(** X29: under a lock the requirements from downstream are never read:
    [_get_node_requirements] returns none ([None]) and hands none on to
    the nodes upstream, and no step of the expansion fails on reading
    them, neither the evaluation of the requirements of a node nor the
    test for a new expansion of a node met before, which the lock
    switches off. *)
Theorem lock_never_reads_requirements_from_downstream
    (self : Collaborators) (lock : GraphLock) (fuel node : nat)
    (down_reqs : option Requirements) (down_ref : option ConanFileReference)
    (down_options : option DepsOptions) :
  never_raises missing_requirements
    (_expand_node self fuel node down_reqs down_ref down_options (Some lock))
  /\ forall st st' new_options new_reqs,
       _get_node_requirements self node down_ref down_options down_reqs (Some lock) st =
         Ok (new_options, new_reqs) st' ->
       new_reqs = None.
Proof.
  split; [apply expand_node_safe_under_lock|].
  intros st st' new_options new_reqs Hrun. unfold _get_node_requirements in Hrun.
  apply bind_inv_ok in Hrun as (opts & s1 & _ & Hrun).
  apply bind_inv_ok in Hrun as (n & s2 & _ & Hrun).
  apply bind_inv_ok in Hrun as ([] & s3 & _ & Hrun).
  apply bind_inv_ok in Hrun as (reqs & s4 & Hlock & Hrun).
  apply bind_inv_ok in Hlock as ([] & s5 & _ & Hlock).
  injection Hlock as <- _. now injection Hrun as _ <- _.
Qed.

(** ** A cached alias in a diamond *)

(** X30: closing a diamond with a requirement whose reference has a
    cached alias target that is compatible with the reference of the node
    met before, the requirement is rewritten to the target and the
    conflict check passes at once: the proxy is not asked for the recipe
    of the alias again, and nothing but the reference of the requirement
    is changed. *)
Theorem cached_alias_closes_a_diamond_without_a_request
    (self : Collaborators) (fuel node require previous : nat)
    (graph_lock : option GraphLock) (st : State) (n p : Node.t) (r : Requirement.t)
    (previous_ref target : ConanFileReference) :
  nth_error (node_objects st) node = Some n ->
  nth_error (node_objects st) previous = Some p ->
  nth_error (requirement_objects st) require = Some r ->
  Node.ref p = Some previous_ref ->
  dict_get (DepsGraph.aliased (dep_graph st)) (Requirement.ref r) = Some target ->
  compatible previous_ref target ->
  (_resolve_cached_alias [require] ;;
   check_conflicts self fuel node require previous graph_lock) st =
    Ok tt (set_requirement_objects
             (list_set (requirement_objects st) require (Requirement.set_ref target r)) st).
Proof.
  intros Hn Hp Hr Hpr Hcached Hcompatible.
  set (st1 := set_requirement_objects
                (list_set (requirement_objects st) require (Requirement.set_ref target r)) st).
  assert (Halias : _resolve_cached_alias [require] st = Ok tt st1).
  { unfold _resolve_cached_alias, graph at 1, bind at 1.
    destruct (DepsGraph.aliased (dep_graph st)) as [|entry table] eqn:Htable;
      [discriminate|].
    cbn [for_each]. rewrite (bind_ok _ _ _ _ _ (resolve_cached_alias_step st require r Hr)).
    unfold ret, cached_alias. rewrite Htable, Hcached. reflexivity. }
  rewrite (bind_ok _ _ _ _ _ Halias). cbv beta.
  assert (Hr1 : nth_error (requirement_objects st1) require = Some (Requirement.set_ref target r))
    by (apply nth_error_list_set_eq with (y := r); exact Hr).
  rewrite (check_conflicts_start self fuel node require previous graph_lock st1 n p _
             previous_ref Hn Hp Hr1 Hpr).
  cbn [Requirement.ref Requirement.set_ref].
  now rewrite (compatible_references_do_not_conflict _ _ (Node.ref n) Hcompatible).
Qed.

Lemma cached_alias_closes_a_diamond_without_a_request_witness :
  (_resolve_cached_alias [0] ;;
   check_conflicts ClosingDiamond.self 0 0 0 1 None) CachedDiamond.state =
    Ok tt (set_requirement_objects
             (list_set (requirement_objects CachedDiamond.state) 0
                       (Requirement.set_ref Examples.C1 (Scenario.public Examples.Clatest)))
             CachedDiamond.state).
Proof.
  apply (cached_alias_closes_a_diamond_without_a_request
           ClosingDiamond.self 0 0 0 1 None CachedDiamond.state
           ClosingDiamond.consumer ClosingDiamond.pinned (Scenario.public Examples.Clatest)
           Examples.C1 Examples.C1 eq_refl eq_refl eq_refl eq_refl eq_refl).
  split; [reflexivity | left; reflexivity].
Defined.

(** ** Closing a diamond: the failure of the check *)

(** C1 (amended): closing a diamond for a consumer that has a reference,
    when the pinned reference and the requested one differ with the
    revisions ignored, the recipe of the requirement is resolved again,
    once.  If that resolution fails, its failure is the failure of the
    check, and no conflict is reported.  If it returns and has not changed
    the requested reference, or has left it different from the pinned one
    with the revisions ignored, the check fails with the conflict naming
    the consumer, the requested reference and the pinned one; a changed
    reference that differs from the pinned one in the revision only fails
    with the revision conflict, and one that is compatible lets the
    diamond close. *)
Theorem diamond_conflict_failure
    (self : Collaborators) (fuel node require previous : nat)
    (graph_lock : option GraphLock) (st : State) (n p : Node.t)
    (r : Requirement.t) (consumer previous_ref : ConanFileReference) :
  nth_error (node_objects st) node = Some n ->
  nth_error (node_objects st) previous = Some p ->
  nth_error (requirement_objects st) require = Some r ->
  Node.ref n = Some consumer ->
  Node.ref p = Some previous_ref ->
  copy_clear_rev previous_ref <> copy_clear_rev (Requirement.ref r) ->
  match _resolve_recipe self fuel node require graph_lock None st with
  | Raise e st2 =>
      check_conflicts self fuel node require previous graph_lock st = Raise e st2
  | OutOfFuel =>
      check_conflicts self fuel node require previous graph_lock st = OutOfFuel
  | Ok _ st2 =>
      exists r2,
        nth_error (requirement_objects st2) require = Some r2
        /\ (Requirement.ref r2 = Requirement.ref r ->
            check_conflicts self fuel node require previous graph_lock st =
              Raise (ReferenceConflict
                       (ConflictMessage consumer (Requirement.ref r) previous_ref)) st2)
        /\ (Requirement.ref r2 <> Requirement.ref r ->
            copy_clear_rev previous_ref <> copy_clear_rev (Requirement.ref r2) ->
            check_conflicts self fuel node require previous graph_lock st =
              Raise (ReferenceConflict
                       (ConflictMessage consumer (Requirement.ref r2) previous_ref)) st2)
        /\ (Requirement.ref r2 <> Requirement.ref r ->
            copy_clear_rev previous_ref = copy_clear_rev (Requirement.ref r2) ->
            check_conflicts self fuel node require previous graph_lock st =
              if has_revision previous_ref && has_revision (Requirement.ref r2) &&
                 py_ne (revision previous_ref) (revision (Requirement.ref r2))
              then Raise (RevisionConflict consumer (Requirement.ref r2)) st2
              else Ok tt st2)
  end.
Proof.
  intros Hn Hp Hr Hc Hpr Hne.
  rewrite (check_conflicts_start self fuel _ _ _ graph_lock _ _ _ _ _ Hn Hp Hr Hpr), Hc.
  rewrite (conflict_when_versions_differ _ _ (Some consumer) Hne).
  cbv beta iota delta [conflict_truthy].
  destruct (_resolve_recipe self fuel node require graph_lock None st)
    as [resolved st2 | e st2 |] eqn:Hresolve; [|reflexivity|reflexivity].
  destruct resolved as [[[[new_ref dep_conanfile] status] remote] locked_id].
  destruct (resolve_recipe_result self fuel node require graph_lock None st st2
              new_ref dep_conanfile status remote locked_id Hresolve)
    as (r2 & _ & _ & _ & Hr2 & _).
  assert (Hnodes : node_objects st2 = node_objects st).
  { pose proof (resolve_recipe_nodes self (node_objects st) fuel node require graph_lock None
                  st eq_refl) as H.
    now rewrite Hresolve in H. }
  rewrite <- Hnodes in Hn, Hp.
  exists r2. split; [exact Hr2|].
  rewrite (bind_ok _ _ _ _ _ (requirement_at_ok _ _ _ Hr2)). cbv beta.
  repeat split.
  - intros ->. now rewrite py_eq_refl.
  - intros Hchanged Hne2.
    assert (Hd : py_eq (Requirement.ref r) (Requirement.ref r2) = false)
      by (apply py_eq_false; congruence).
    rewrite Hd.
    rewrite (bind_ok _ _ _ _ _ (node_at_ok _ _ _ Hn)). cbv beta.
    rewrite (bind_ok _ _ _ _ _ (node_at_ok _ _ _ Hp)). cbv beta.
    unfold ref_of. rewrite Hpr, Hc. unfold bind at 1, ret at 1.
    rewrite (conflict_when_versions_differ _ _ (Some consumer) Hne2). reflexivity.
  - intros Hchanged Heq2.
    assert (Hd : py_eq (Requirement.ref r) (Requirement.ref r2) = false)
      by (apply py_eq_false; congruence).
    rewrite Hd.
    rewrite (bind_ok _ _ _ _ _ (node_at_ok _ _ _ Hn)). cbv beta.
    rewrite (bind_ok _ _ _ _ _ (node_at_ok _ _ _ Hp)). cbv beta.
    unfold ref_of. rewrite Hpr, Hc. unfold bind at 1, ret at 1.
    unfold _conflicting_references, has_revision.
    rewrite (version_equal_eqb _ _ Heq2).
    destruct (truthy (revision previous_ref) && truthy (revision (Requirement.ref r2)) &&
              py_ne (revision previous_ref) (revision (Requirement.ref r2))); reflexivity.
Qed.

Lemma diamond_conflict_failure_witness :
  check_conflicts ClosingDiamond.self 2 0 0 1 None ClosingDiamond.state =
    Raise (ReferenceConflict
             (ConflictMessage Examples.B Examples.C2 Examples.C1))
          ClosingDiamond.state_after.
Proof.
  assert (Hresolve : _resolve_recipe ClosingDiamond.self 2 0 0 None None ClosingDiamond.state =
                     Ok ClosingDiamond.resolved ClosingDiamond.state_after)
    by (vm_compute; reflexivity).
  pose proof (diamond_conflict_failure
                ClosingDiamond.self 2 0 0 1 None ClosingDiamond.state
                ClosingDiamond.consumer ClosingDiamond.pinned
                (Scenario.public Examples.C2) Examples.B Examples.C1
                eq_refl eq_refl eq_refl eq_refl eq_refl ltac:(discriminate)) as H.
  rewrite Hresolve in H. destruct H as (r2 & Hr2 & Hsame & _).
  apply Hsame. vm_compute in Hr2. injection Hr2 as <-. reflexivity.
Defined.

(** ** Closing a diamond: the new expansion of the previous node *)

Lemma bind_assoc {A B C} (c : M A) (f : A -> M B) (g : B -> M C) (st : State) :
  bind (bind c f) g st = bind c (fun a => bind (f a) g) st.
Proof. unfold bind. now destruct (c st). Qed.

Lemma bind_ext {A B} (c : M A) (f g : A -> M B) (st : State) :
  (forall a s, f a s = g a s) -> bind c f st = bind c g st.
Proof. intros H. unfold bind. now destruct (c st). Qed.

(** [close_diamond] is the connection to the previous node, then the
    test, then the expansion *)
Lemma close_diamond_steps
    (self : Collaborators) (fuel : nat)
    (expand_node : nat -> option Requirements -> option ConanFileReference ->
                   option DepsOptions -> option GraphLock -> M unit)
    (node require previous : nat) (new_reqs : option Requirements)
    (new_options : DepsOptions) (graph_lock : option GraphLock) (st : State) :
  close_diamond self fuel expand_node node require previous new_reqs new_options
                graph_lock st =
    (connect_to_previous self fuel node require previous graph_lock ;;
     again <- need_recurse previous new_reqs new_options graph_lock ;;
     when again
       (n <- node_at node ;;
        expand_node previous new_reqs (Node.ref n) (Some new_options) graph_lock))%M st.
Proof.
  unfold close_diamond, connect_to_previous.
  do 5 (rewrite bind_assoc; apply bind_ext; intros [] ?).
  rewrite bind_assoc. apply bind_ext. intros r ?. reflexivity.
Qed.

(** the branch of [_expand_require] that closes a diamond *)
Lemma expand_require_closes_diamond
    (self : Collaborators) (fuel : nat)
    (expand_node : nat -> option Requirements -> option ConanFileReference ->
                   option DepsOptions -> option GraphLock -> M unit)
    (node require previous : nat) (new_reqs : option Requirements)
    (new_options : DepsOptions) (graph_lock : option GraphLock) (st : State) :
  closes_diamond st node require previous ->
  _expand_require self fuel expand_node node require new_reqs new_options graph_lock st =
    close_diamond self fuel expand_node node require previous new_reqs new_options
                  graph_lock st.
Proof.
  intros (r & n & Hr & Hn & Hloop & Hprevious & Hclosure). unfold _expand_require.
  rewrite (bind_ok _ _ _ _ _ (requirement_at_ok _ _ _ Hr)). cbv beta.
  rewrite (bind_ok _ _ _ _ _ (node_at_ok _ _ _ Hn)). cbv beta zeta.
  match goal with
  | |- (if ?b then _ else _) _ = _ => replace b with false by (symmetry; exact Hloop)
  end.
  match goal with
  | |- (match ?d with Some _ => _ | None => _ end) _ = _ =>
      replace d with (Some previous) by (symmetry; exact Hprevious)
  end.
  match goal with
  | |- (if ?b then _ else _) _ = _ => replace b with false by (symmetry; exact Hclosure)
  end.
  reflexivity.
Qed.

Lemma need_recurse_spec (previous : nat) (p : Node.t) (new_reqs : option Requirements)
    (new_options : DepsOptions) (graph_lock : option GraphLock) (s : State) :
  nth_error (node_objects s) previous = Some p ->
  (graph_lock = None ->
   exists reqs, new_reqs = Some reqs
                /\ recurse_defined s (Node.public_closure p) reqs new_options) ->
  exists again : bool,
    need_recurse previous new_reqs new_options graph_lock s = Ok again s
    /\ (again = true <->
        graph_lock = None /\ inputs_conflict s (Node.public_closure p) new_reqs new_options).
Proof.
  intros Hp Hdefined. unfold need_recurse, inputs_conflict. destruct graph_lock as [lock|].
  - exists false. split; [reflexivity|]. split; [discriminate | intros [[=] _]].
  - destruct (Hdefined eq_refl) as (reqs & -> & Hreqs).
    rewrite (bind_ok _ _ _ _ _ (node_at_ok _ _ _ Hp)). cbv beta.
    destruct (recurse_spec s (Node.public_closure p) reqs new_options Hreqs)
      as (b & Hrun & Hb).
    exists b. split; [exact Hrun|]. rewrite Hb. split.
    + intros H. split; [reflexivity|]. now exists reqs.
    + intros (_ & reqs' & [= <-] & H). exact H.
Qed.

(** C3: closing a diamond, once the node is connected to the previous
    node, the previous node is expanded again exactly when no lock is
    active and either a requirement propagated from downstream names a
    package of the closure of the previous node whose node has an
    incompatible reference (another version, or another revision), or an
    option value propagated from downstream for a package of that closure
    is not the value configured on its node: then [_expand_require] ends
    as the expansion [expand_node] of the previous node does, with the
    requirements and options from downstream and the reference of the
    node; otherwise it returns without that expansion. *)
Theorem previous_expanded_again_iff
    (self : Collaborators) (fuel : nat)
    (expand_node : nat -> option Requirements -> option ConanFileReference ->
                   option DepsOptions -> option GraphLock -> M unit)
    (node require previous : nat) (n p : Node.t)
    (new_reqs : option Requirements) (new_options : DepsOptions)
    (graph_lock : option GraphLock) (st s1 : State) :
  closes_diamond st node require previous ->
  connect_to_previous self fuel node require previous graph_lock st = Ok tt s1 ->
  nth_error (node_objects s1) node = Some n ->
  nth_error (node_objects s1) previous = Some p ->
  (graph_lock = None ->
   exists reqs, new_reqs = Some reqs
                /\ recurse_defined s1 (Node.public_closure p) reqs new_options) ->
  exists again : bool,
    (again = true <->
     graph_lock = None /\ inputs_conflict s1 (Node.public_closure p) new_reqs new_options)
    /\ need_recurse previous new_reqs new_options graph_lock s1 = Ok again s1
    /\ close_diamond self fuel expand_node node require previous new_reqs new_options
                     graph_lock st =
         (if again
          then expand_node previous new_reqs (Node.ref n) (Some new_options) graph_lock s1
          else Ok tt s1)
    /\ _expand_require self fuel expand_node node require new_reqs new_options graph_lock st =
         (if again
          then expand_node previous new_reqs (Node.ref n) (Some new_options) graph_lock s1
          else Ok tt s1).
Proof.
  intros Hdiamond Hconnect Hn Hp Hdefined.
  destruct (need_recurse_spec previous p new_reqs new_options graph_lock s1 Hp Hdefined)
    as (again & Hrun & Hagain).
  exists again. split; [exact Hagain|]. split; [exact Hrun|].
  assert (Hclose : close_diamond self fuel expand_node node require previous new_reqs
                                 new_options graph_lock st =
                   (if again
                    then expand_node previous new_reqs (Node.ref n) (Some new_options)
                                     graph_lock s1
                    else Ok tt s1)).
  { rewrite close_diamond_steps.
    rewrite (bind_ok _ _ _ _ _ Hconnect). cbv beta.
    rewrite (bind_ok _ _ _ _ _ Hrun). cbv beta.
    destruct again; cbn [when]; [|reflexivity].
    now rewrite (bind_ok _ _ _ _ _ (node_at_ok _ _ _ Hn)). }
  split; [exact Hclose|].
  now rewrite (expand_require_closes_diamond self fuel expand_node node require previous
                 new_reqs new_options graph_lock st Hdiamond).
Qed.

Lemma previous_expanded_again_iff_witness :
  _expand_require DiamondAgain.self 1 (_expand_node DiamondAgain.self 1) 0 0
                  (Some DiamondAgain.new_reqs) [] None DiamondAgain.state =
    _expand_node DiamondAgain.self 1 1 (Some DiamondAgain.new_reqs) (Some Examples.B)
                 (Some []) None DiamondAgain.connected.
Proof.
  assert (Hdiamond : closes_diamond DiamondAgain.state 0 0 1).
  { exists (Scenario.public DiamondAgain.D), DiamondAgain.consumer.
    repeat split; vm_compute; reflexivity. }
  assert (Hconnect : connect_to_previous DiamondAgain.self 1 0 0 1 None DiamondAgain.state =
                     Ok tt DiamondAgain.connected) by (vm_compute; reflexivity).
  assert (Hn : nth_error (node_objects DiamondAgain.connected) 0 =
               Some DiamondAgain.consumer_connected) by (vm_compute; reflexivity).
  assert (Hp : nth_error (node_objects DiamondAgain.connected) 1 =
               Some DiamondAgain.previous_connected) by (vm_compute; reflexivity).
  assert (Hr : nth_error (requirement_objects DiamondAgain.connected) 1 =
               Some (Scenario.public Examples.C2)) by (vm_compute; reflexivity).
  assert (Hc : nth_error (node_objects DiamondAgain.connected) 2 =
               Some (nth 2 (node_objects DiamondAgain.connected) Scenario.no_node))
    by (vm_compute; reflexivity).
  assert (Hclosure : dict_get (Node.public_closure DiamondAgain.previous_connected)
                              (Some "C") = Some 2) by (vm_compute; reflexivity).
  assert (Href : Node.ref (nth 2 (node_objects DiamondAgain.connected) Scenario.no_node) =
                 Some Examples.C1) by (vm_compute; reflexivity).
  destruct (previous_expanded_again_iff
              DiamondAgain.self 1 (_expand_node DiamondAgain.self 1) 0 0 1
              DiamondAgain.consumer_connected DiamondAgain.previous_connected
              (Some DiamondAgain.new_reqs) [] None DiamondAgain.state DiamondAgain.connected
              Hdiamond Hconnect Hn Hp) as (again & Hagain & _ & _ & Hexpand).
  - intros _. exists DiamondAgain.new_reqs. split; [reflexivity|]. split.
    + intros nm a [[= <- <-] | []]. exists (Scenario.public Examples.C2).
      split; [exact Hr|]. intros k Hk.
      change (name (Requirement.ref (Scenario.public Examples.C2))) with "C"%string in Hk.
      rewrite Hclosure in Hk. injection Hk as <-.
      eexists _, Examples.C1. split; [exact Hc | exact Href].
    + intros pkg_name options_values k [].
  - rewrite Hexpand.
    assert (Htrue : again = true).
    { apply Hagain. split; [reflexivity|]. exists DiamondAgain.new_reqs.
      split; [reflexivity|]. left.
      exists "C"%string, 1, (Scenario.public Examples.C2), 2,
        (nth 2 (node_objects DiamondAgain.connected) Scenario.no_node), Examples.C1.
      repeat split; try assumption; [now left | left; discriminate]. }
    rewrite Htrue.
    assert (Hconsumer : Node.ref DiamondAgain.consumer_connected = Some Examples.B)
      by (vm_compute; reflexivity).
    now rewrite Hconsumer.
Defined.
